(** * csharpier-action: the formatting-violation reconciliation engine

    A shallow embedding of [src/comment-manager.ts] (hunk extraction, the
    PR-diff coordinate lookup, annotation reconciliation),
    [src/csharpier-runner.ts] ([formatFiles]) and the part of
    [src/main.ts] that drives them.

    The repository carries two revisions of [comment-manager.ts]:
    - [SubHunks] ([src/unnamed/part_002]): the revision that splits a
      diff hunk into one [FormattingHunk] per change block and updates
      annotations in place;
    - [Recreate] ([src/src/comment-manager.ts]): the revision that emits
      one [FormattingHunk] per diff hunk and deletes and recreates the
      unresolved annotations.
    [getExistingComments], [findLineInPRDiff] and [resolveFixedComments]
    are the same in both.

    The third-party libraries ([diff], [parse-diff]), the file system, the
    formatter process and the GitHub client are parameters. *)

From Stdlib Require Import ZArith Lia Ascii String.
From stdpp Require Import base numbers list strings gmap.

Local Open Scope Z_scope.

(** ** JavaScript strings and numbers

    Strings are sequences of bytes (the UTF-8 encoding of the JavaScript
    string); numbers that count lines or index arrays are integers. *)

(** The line feed, ['\n']. *)
Definition nl : string := String (Ascii.ascii_of_nat 10) EmptyString.

(** [line.startsWith(prefix)] *)
Definition startsWith (line prefix : string) : bool := String.prefix prefix line.

(** [line.substring(1)] *)
Definition substring1 (line : string) : string :=
  match line with
  | String _ rest => rest
  | EmptyString => EmptyString
  end.

(** [parts.join(sep)] *)
Fixpoint join (sep : string) (parts : list string) : string :=
  match parts with
  | [] => ""
  | [x] => x
  | x :: rest => x +:+ sep +:+ join sep rest
  end.

(** ** The [diff] library's structured patch *)

(** One hunk of [structuredPatch(...).hunks]: every element of [lines] is a
    line of text behind a one-character tag ([' '] context, ['+'] added,
    ['-'] deleted; the library also emits ['\ No newline at end of file']). *)
Record Hunk := mkHunk {
  oldStart : Z;
  oldLines : Z;
  newStart : Z;
  newLines : Z;
  lines : list string
}.

Record FormattingHunk := mkFormattingHunk {
  lineNumber : Z;
  content : string;
  originalLineRange : Z * Z
}.

(** [arr[i]] for an index the loops keep within bounds (see
    [window_in_bounds]); JavaScript yields [undefined] elsewhere. *)
Definition lineAt (ls : list string) (i : Z) : option string :=
  if i <? 0 then None else ls !! Z.to_nat i.

Definition isContextLine (line : string) : bool := startsWith line " ".
Definition isAdditionLine (line : string) : bool := startsWith line "+".
Definition isDeletionLine (line : string) : bool := startsWith line "-".
Definition isChangeLine (line : string) : bool :=
  isAdditionLine line || isDeletionLine line.
(** A line that appears in the new file: [' '] or ['+']. *)
Definition isNewFileLine (line : string) : bool :=
  isContextLine line || isAdditionLine line.

(** [for (let i = from; i <= to; i++)]: the indices visited. *)
Definition indexRange (from to : Z) : list Z := seqZ from (to - from + 1).

(** ** The [parse-diff] library's view of the pull request patch *)

Inductive ChangeType := add | del | normal.

Record Change := mkChange {
  type : ChangeType;
  changeContent : string
}.

Record Chunk := mkChunk {
  chunkNewStart : Z;
  chunkChanges : list Change
}.

Record DiffFile := mkDiffFile {
  chunks : list Chunk
}.

(** ** GitHub data *)

(** [PRFile] of [github-api.ts]; [patch] is optional. *)
Record PRFile := mkPRFile {
  filename : string;
  patch : option string
}.

(** [ReviewComment] of [github-api.ts]: [body] may be [null], the last
    three fields may be absent. *)
Record ReviewComment := mkReviewComment {
  rc_id : Z;
  rc_path : string;
  rc_body : option string;
  in_reply_to_id : option Z;
  rc_line : option Z;
  original_line : option Z
}.

Record ViolationComment := mkViolationComment {
  id : Z;
  path : string;
  body : string;
  isResolved : bool;
  line : Z
}.

Record PullRequest := mkPullRequest {
  number : Z;
  head_sha : string
}.

(** [github.context]: [payload.pull_request] may be absent. *)
Record Context := mkContext {
  owner : string;
  repo : string;
  pull_request : option PullRequest
}.

Definition COMMENT_MARKER : string := "<!-- csharpier-action -->".

(** [s.includes(sub)] *)
Fixpoint includes (s sub : string) : bool :=
  String.prefix sub s ||
  match s with
  | String _ rest => includes rest sub
  | EmptyString => false
  end.

(** [a || b] on numbers that may be absent: [undefined] and [0] are falsy. *)
Definition orNumber (a : option Z) (b : Z) : Z :=
  match a with
  | Some n => if n =? 0 then b else n
  | None => b
  end.

(** The [filter]/[map] of [getExistingComments] over the fetched list. *)
Definition actionComments (comments : list ReviewComment) : list ViolationComment :=
  (fun comment =>
     mkViolationComment
       (rc_id comment)
       (rc_path comment)
       (default "" (rc_body comment))
       (bool_decide (in_reply_to_id comment <> None))
       (orNumber (rc_line comment) (orNumber (original_line comment) 0)))
  <$> List.filter
        (fun comment =>
           match rc_body comment with
           | Some b => includes b COMMENT_MARKER
           | None => false
           end)
        comments.

(** ** [findLineInPRDiff] *)

(** The inner loop over [chunk.changes]; [Some l] is the [return]. *)
Fixpoint walkChanges (changes : list Change) (currentLine targetLine : Z) : option Z :=
  match changes with
  | [] => None
  | change :: rest =>
      match type change with
      | add | normal =>
          if currentLine =? targetLine then Some currentLine
          else walkChanges rest (currentLine + 1) targetLine
      | del => walkChanges rest currentLine targetLine
      end
  end.

Fixpoint walkChunks (cs : list Chunk) (targetLine : Z) : Z :=
  match cs with
  | [] => 0
  | chunk :: rest =>
      match walkChanges (chunkChanges chunk) (chunkNewStart chunk) targetLine with
      | Some l => l
      | None => walkChunks rest targetLine
      end
  end.

Section Mapper.
(** [parseDiff(prPatch)] *)
Variable parseDiff : string -> list DiffFile.

Definition findLineInPRDiff (prPatch : string) (targetLine : Z) : Z :=
  match parseDiff prPatch with
  | [] => 0
  | file :: _ => walkChunks (chunks file) targetLine
  end.
End Mapper.

(** ** Effects

    The asynchronous functions run one after the other; what they do to the
    outside world is the sequence of mutation calls sent to the GitHub
    client and the warnings logged through [core.warning]. A call that
    rejects raises an exception carrying the error message. *)

(** Mutation calls of [GitHubAPI]; [owner], [repo] and [pull_number] are
    always those of the context and are left out. *)
Inductive ApiCall :=
| DeleteReviewComment (comment_id : Z)
| CreateReviewComment (body commit_id path : string) (line : Z) (side : string)
| UpdateReviewComment (comment_id : Z) (body : string)
| CreateReplyForReviewComment (comment_id : Z) (body : string).

(** The three [core.warning] messages of [comment-manager.ts]. *)
Inductive Warning :=
| WarnFileNotInDiff (filePath : string)
| WarnFailedToDelete (comment_id : Z) (message : string)
| WarnFailedToCreate (filePath message : string).

Inductive Outcome (A : Type) :=
| Returned (a : A)
| Thrown (message : string).
Arguments Returned {A} a.
Arguments Thrown {A} message.

(** Arguments of [core.setFailed] in [main.ts]. *)
Inductive RunFailure :=
| FoundViolations (count : nat)
| RunError (message : string).

Record World := mkWorld {
  calls : list ApiCall;
  warnings : list Warning;
  formatterInputs : list string;
  failed : list RunFailure
}.

Definition emptyWorld : World := mkWorld [] [] [] [].

(** What the engine reads from outside. [pipeFiles input] is the standard
    output of [csharpier pipe-files] fed [input]; [apiFailure n = Some msg]
    makes the mutation call number [n] of the run (counted from 0) reject
    with [msg]. *)
Record Env := mkEnv {
  structuredPatch : string -> string -> string -> list Hunk;
  parseDiff : string -> list DiffFile;
  listFiles : Outcome (list PRFile);
  listReviewComments : Outcome (list ReviewComment);
  readFile : string -> Outcome string;
  pipeFiles : string -> Outcome string;
  apiFailure : nat -> option string
}.

Definition Eff (A : Type) : Type := World -> World * Outcome A.

Definition ret {A} (a : A) : Eff A := fun w => (w, Returned a).

Definition bind {A B} (m : Eff A) (k : A -> Eff B) : Eff B :=
  fun w =>
    match m w with
    | (w', Returned a) => k a w'
    | (w', Thrown e) => (w', Thrown e)
    end.

Notation "'do' x <- m ; k" := (bind m (fun x => k))
  (at level 10, x name, m at level 100, k at level 200).
Notation "m ;; k" := (bind m (fun _ => k))
  (at level 100, k at level 200, right associativity).

(** [await] of a read that resolves or rejects. *)
Definition await {A} (o : Outcome A) : Eff A := fun w => (w, o).

(** [try { m } catch (error) { handler(message of error) }] *)
Definition tryCatch {A} (m : Eff A) (handler : string -> Eff A) : Eff A :=
  fun w =>
    match m w with
    | (w', Thrown e) => handler e w'
    | r => r
    end.

Definition warning (x : Warning) : Eff unit :=
  fun w =>
    (mkWorld (calls w) (warnings w ++ [x]) (formatterInputs w) (failed w), Returned tt).

(** [core.setFailed(...)] *)
Definition setFailed (x : RunFailure) : Eff unit :=
  fun w =>
    (mkWorld (calls w) (warnings w) (formatterInputs w) (failed w ++ [x]), Returned tt).

(** [await exec.exec(csharpierPath, ['pipe-files'], options)], returning
    what the [stdout] listener has accumulated. *)
Definition execPipeFiles (env : Env) (input : string) : Eff string :=
  fun w =>
    (mkWorld (calls w) (warnings w) (formatterInputs w ++ [input]) (failed w),
     pipeFiles env input).

(** [await api.<call>(...)] *)
Definition callApi (env : Env) (c : ApiCall) : Eff unit :=
  fun w =>
    let w' := mkWorld (calls w ++ [c]) (warnings w) (formatterInputs w) (failed w) in
    match apiFailure env (length (calls w)) with
    | Some e => (w', Thrown e)
    | None => (w', Returned tt)
    end.

(** [for (const x of l) { await body(x) }] *)
Fixpoint forEach {X} (l : list X) (body : X -> Eff unit) : Eff unit :=
  match l with
  | [] => ret tt
  | x :: rest => body x ;; forEach rest body
  end.

(** ** The sub-hunk revision of [generateFormattingHunks] *)
Module SubHunks.

Record ChangeBlock := mkChangeBlock {
  startLine : Z;
  startIndex : Z;
  endIndex : Z
}.

Record ScanState := mkScanState {
  changes : list ChangeBlock;
  currentLine : Z;
  inChangeBlock : bool;
  changeStartIndex : Z;
  changeStartLine : Z
}.

(** Body of the first loop over [hunk.lines], at index [i]. *)
Definition scanStep (st : ScanState) (i : Z) (line : string) : ScanState :=
  let isChange := isChangeLine line in
  let st1 :=
    if isChange && negb (inChangeBlock st) then
      mkScanState (changes st) (currentLine st) true i (currentLine st)
    else if negb isChange && inChangeBlock st then
      mkScanState
        (changes st ++ [mkChangeBlock (changeStartLine st) (changeStartIndex st) (i - 1)])
        (currentLine st) false (changeStartIndex st) (changeStartLine st)
    else st in
  if isNewFileLine line then
    mkScanState (changes st1) (currentLine st1 + 1) (inChangeBlock st1)
      (changeStartIndex st1) (changeStartLine st1)
  else st1.

Fixpoint scanLines (i : Z) (ls : list string) (st : ScanState) : ScanState :=
  match ls with
  | [] => st
  | line :: rest => scanLines (i + 1) rest (scanStep st i line)
  end.

(** The change blocks of a hunk, after the block still open at the end
    of the hunk has been closed. *)
Definition changeBlocks (hunk : Hunk) : list ChangeBlock :=
  let st := scanLines 0 (lines hunk) (mkScanState [] (newStart hunk) false 0 0) in
  if inChangeBlock st then
    changes st ++
      [mkChangeBlock (changeStartLine st) (changeStartIndex st)
         (Z.of_nat (length (lines hunk)) - 1)]
  else changes st.

Definition contextBefore : Z := 3.
Definition contextAfter : Z := 3.

Definition windowStart (change : ChangeBlock) : Z :=
  Z.max 0 (startIndex change - contextBefore).
Definition windowEnd (hunk : Hunk) (change : ChangeBlock) : Z :=
  Z.min (Z.of_nat (length (lines hunk)) - 1) (endIndex change + contextAfter).

(** The inner loop [for (let j = 0; j < i; j++)]: the new-file line
    number at index [i] of the hunk. *)
Definition lineNumAt (hunk : Hunk) (i : Z) : Z :=
  foldl (fun lineNum j =>
           match lineAt (lines hunk) j with
           | Some l => if isNewFileLine l then lineNum + 1 else lineNum
           | None => lineNum
           end)
        (newStart hunk) (indexRange 0 (i - 1)).

(** The search for the first change line of the window; it stops at the
    first hit ([break]). *)
Fixpoint firstChangeLine (hunk : Hunk) (idxs : list Z) (dflt : Z) : Z :=
  match idxs with
  | [] => dflt
  | i :: rest =>
      match lineAt (lines hunk) i with
      | Some line =>
          if isChangeLine line then lineNumAt hunk i
          else firstChangeLine hunk rest dflt
      | None => firstChangeLine hunk rest dflt
      end
  end.

(** The loop that collects [formattedLines]. *)
Definition collectFormatted (hunk : Hunk) (idxs : list Z) : list string :=
  foldl (fun formattedLines i =>
           match lineAt (lines hunk) i with
           | Some line =>
               if isNewFileLine line then formattedLines ++ [substring1 line]
               else formattedLines
           | None => formattedLines
           end)
        [] idxs.

Definition subHunk (hunk : Hunk) (change : ChangeBlock) : FormattingHunk :=
  let idxs := indexRange (windowStart change) (windowEnd hunk change) in
  mkFormattingHunk
    (firstChangeLine hunk idxs (startLine change))
    (join nl (collectFormatted hunk idxs))
    (oldStart hunk, oldStart hunk + oldLines hunk - 1).

(** What one iteration of [for (const hunk of patch.hunks)] pushes. *)
Definition hunkFormattingHunks (hunk : Hunk) : list FormattingHunk :=
  subHunk hunk <$> changeBlocks hunk.

Section WithDiff.
(** [structuredPatch(filePath, filePath, original, formatted, '', '',
    { context: 3 }).hunks] *)
Variable structuredPatch : string -> string -> string -> list Hunk.

Definition generateFormattingHunks
    (originalContent formattedContent filePath : string) : list FormattingHunk :=
  foldl (fun hunks hunk => hunks ++ hunkFormattingHunks hunk) []
        (structuredPatch filePath originalContent formattedContent).
End WithDiff.

(** The annotation body: marker, fixed sentence, fenced suggestion,
    remediation instruction. *)
Definition commentBody (hunkContent filePath : string) : string :=
  COMMENT_MARKER +:+ nl +:+
  "This section is not formatted according to CSharpier rules." +:+ nl +:+
  nl +:+
  "```suggestion" +:+ nl +:+
  hunkContent +:+ nl +:+
  "```" +:+ nl +:+
  nl +:+
  "Run `dotnet csharpier format " +:+ filePath +:+ "` to fix the formatting.".

(** Body of [for (const hunk of hunks)]: skip, leave, update or create. *)
Definition reconcileHunk (env : Env) (prPatch filePath commitSha : string)
    (existingComments : list ViolationComment) (hunk : FormattingHunk) : Eff unit :=
  let lineNumber := findLineInPRDiff (parseDiff env) prPatch (lineNumber hunk) in
  if lineNumber =? 0 then ret tt
  else
    let newBody := commentBody (content hunk) filePath in
    match List.find (fun c => (line c =? lineNumber) && negb (isResolved c))
                    existingComments with
    | Some existingComment =>
        if bool_decide (body existingComment = newBody) then ret tt
        else callApi env (UpdateReviewComment (id existingComment) newBody)
    | None =>
        callApi env (CreateReviewComment newBody commitSha filePath lineNumber "RIGHT")
    end.

Definition createViolationComments (env : Env) (context : Context)
    (filePath commitSha formattedContent : string)
    (existingComments : list ViolationComment) : Eff unit :=
  match pull_request context with
  | None => ret tt
  | Some _ =>
      tryCatch
        (do files <- await (listFiles env);
         match List.find (fun f => bool_decide (filename f = filePath)) files with
         | None => warning (WarnFileNotInDiff filePath)
         | Some file =>
             match patch file with
             | None | Some EmptyString => warning (WarnFileNotInDiff filePath)
             | Some prPatch =>
                 do originalContent <- await (readFile env filePath);
                 let hunks :=
                   generateFormattingHunks (structuredPatch env)
                     originalContent formattedContent filePath in
                 if (length hunks =? 0)%nat then ret tt
                 else
                   forEach hunks
                     (reconcileHunk env prPatch filePath commitSha existingComments)
             end
         end)
        (fun message => warning (WarnFailedToCreate filePath message))
  end.

(** The patch and the hunks with which a pass reaches its loops, if it
    gets that far. *)
Definition passInput (env : Env) (filePath formattedContent : string)
    : option (string * list FormattingHunk) :=
  match listFiles env with
  | Returned files =>
      match List.find (fun f => bool_decide (filename f = filePath)) files with
      | Some file =>
          match patch file, readFile env filePath with
          | Some (String c p), Returned originalContent =>
              let hunks :=
                generateFormattingHunks (structuredPatch env)
                  originalContent formattedContent filePath in
              if (length hunks =? 0)%nat then None else Some (String c p, hunks)
          | _, _ => None
          end
      | None => None
      end
  | Thrown _ => None
  end.

(** The desired annotations of a pass: line and body for every hunk the
    mapper finds in the patch. *)
Definition desired (env : Env) (prPatch filePath : string) (hunks : list FormattingHunk)
    : list (Z * string) :=
  (fun h => (findLineInPRDiff (parseDiff env) prPatch (lineNumber h),
             commentBody (content h) filePath))
  <$> List.filter
        (fun h => negb (findLineInPRDiff (parseDiff env) prPatch (lineNumber h) =? 0))
        hunks.

End SubHunks.

(** ** The one-hunk-per-diff-hunk revision of [generateFormattingHunks] *)
Module Recreate.

(** State of the first loop: [firstChangeIndex], [lastChangeIndex]
    (both [-1] until a change line is met) and [currentLine]. *)
Record ScanState := mkScanState {
  firstChangeIndex : Z;
  lastChangeIndex : Z;
  currentLine : Z
}.

Definition scanStep (st : ScanState) (i : Z) (line : string) : ScanState :=
  let st1 :=
    if isChangeLine line then
      mkScanState (if firstChangeIndex st =? -1 then i else firstChangeIndex st)
                  i (currentLine st)
    else st in
  if isNewFileLine line then
    mkScanState (firstChangeIndex st1) (lastChangeIndex st1) (currentLine st1 + 1)
  else st1.

Fixpoint scanLines (i : Z) (ls : list string) (st : ScanState) : ScanState :=
  match ls with
  | [] => st
  | line :: rest => scanLines (i + 1) rest (scanStep st i line)
  end.

(** [for (let i = 0; i < firstChangeIndex; i++)]: the new-file line
    number of the first change. *)
Definition firstChangeLine (hunk : Hunk) (firstIdx : Z) : Z :=
  foldl (fun line i =>
           match lineAt (lines hunk) i with
           | Some l => if isNewFileLine l then line + 1 else line
           | None => line
           end)
        (newStart hunk) (indexRange 0 (firstIdx - 1)).

(** [for (let i = firstChangeIndex; i <= lastChangeIndex; i++)]: the
    added lines only. *)
Definition collectAdditions (hunk : Hunk) (idxs : list Z) : list string :=
  foldl (fun formattedLines i =>
           match lineAt (lines hunk) i with
           | Some line =>
               if isAdditionLine line then formattedLines ++ [substring1 line]
               else formattedLines
           | None => formattedLines
           end)
        [] idxs.

(** What one iteration of [for (const hunk of patch.hunks)] pushes:
    nothing when the hunk has no change line or no added line. *)
Definition hunkFormattingHunks (hunk : Hunk) : list FormattingHunk :=
  let st := scanLines 0 (lines hunk) (mkScanState (-1) (-1) (newStart hunk)) in
  if firstChangeIndex st =? -1 then []
  else
    let formattedLines :=
      collectAdditions hunk (indexRange (firstChangeIndex st) (lastChangeIndex st)) in
    if (length formattedLines =? 0)%nat then []
    else
      [mkFormattingHunk
         (firstChangeLine hunk (firstChangeIndex st))
         (join nl formattedLines)
         (oldStart hunk, oldStart hunk + oldLines hunk - 1)].

Section WithDiff.
Variable structuredPatch : string -> string -> string -> list Hunk.

Definition generateFormattingHunks
    (originalContent formattedContent filePath : string) : list FormattingHunk :=
  foldl (fun hunks hunk => hunks ++ hunkFormattingHunks hunk) []
        (structuredPatch filePath originalContent formattedContent).
End WithDiff.

Definition commentBody (hunkContent filePath : string) : string :=
  COMMENT_MARKER +:+ nl +:+
  "**CSharpier**: This section is not formatted correctly." +:+ nl +:+
  nl +:+
  "```suggestion" +:+ nl +:+
  hunkContent +:+ nl +:+
  "```" +:+ nl +:+
  nl +:+
  "Run `dotnet csharpier format " +:+ filePath +:+ "` to fix the formatting.".

(** Body of the loop over [unresolvedComments]: a rejected delete is
    caught and logged. *)
Definition deleteComment (env : Env) (comment : ViolationComment) : Eff unit :=
  tryCatch
    (callApi env (DeleteReviewComment (id comment)))
    (fun message => warning (WarnFailedToDelete (id comment) message)).

(** Body of [for (const hunk of hunks)]: skip or create. *)
Definition createForHunk (env : Env) (prPatch filePath commitSha : string)
    (hunk : FormattingHunk) : Eff unit :=
  let lineNumber := findLineInPRDiff (parseDiff env) prPatch (lineNumber hunk) in
  if lineNumber =? 0 then ret tt
  else
    callApi env
      (CreateReviewComment (commentBody (content hunk) filePath)
         commitSha filePath lineNumber "RIGHT").

Definition createViolationComments (env : Env) (context : Context)
    (filePath commitSha formattedContent : string)
    (existingComments : list ViolationComment) : Eff unit :=
  match pull_request context with
  | None => ret tt
  | Some _ =>
      tryCatch
        (do files <- await (listFiles env);
         match List.find (fun f => bool_decide (filename f = filePath)) files with
         | None => warning (WarnFileNotInDiff filePath)
         | Some file =>
             match patch file with
             | None | Some EmptyString => warning (WarnFileNotInDiff filePath)
             | Some prPatch =>
                 do originalContent <- await (readFile env filePath);
                 let hunks :=
                   generateFormattingHunks (structuredPatch env)
                     originalContent formattedContent filePath in
                 if (length hunks =? 0)%nat then ret tt
                 else
                   let unresolvedComments :=
                     List.filter (fun c => negb (isResolved c)) existingComments in
                   forEach unresolvedComments (deleteComment env) ;;
                   forEach hunks (createForHunk env prPatch filePath commitSha)
             end
         end)
        (fun message => warning (WarnFailedToCreate filePath message))
  end.

(** The patch and the hunks with which a pass reaches its loops, if it
    gets that far. *)
Definition passInput (env : Env) (filePath formattedContent : string)
    : option (string * list FormattingHunk) :=
  match listFiles env with
  | Returned files =>
      match List.find (fun f => bool_decide (filename f = filePath)) files with
      | Some file =>
          match patch file, readFile env filePath with
          | Some (String c p), Returned originalContent =>
              let hunks :=
                generateFormattingHunks (structuredPatch env)
                  originalContent formattedContent filePath in
              if (length hunks =? 0)%nat then None else Some (String c p, hunks)
          | _, _ => None
          end
      | None => None
      end
  | Thrown _ => None
  end.

(** The desired annotations of a pass: line and body for every hunk the
    mapper finds in the patch. *)
Definition desired (env : Env) (prPatch filePath : string) (hunks : list FormattingHunk)
    : list (Z * string) :=
  (fun h => (findLineInPRDiff (parseDiff env) prPatch (lineNumber h),
             commentBody (content h) filePath))
  <$> List.filter
        (fun h => negb (findLineInPRDiff (parseDiff env) prPatch (lineNumber h) =? 0))
        hunks.

End Recreate.

(** ** Functions shared by both revisions *)

Definition getExistingComments (env : Env) (context : Context)
    : Eff (list ViolationComment) :=
  match pull_request context with
  | None => ret []
  | Some _ =>
      do comments <- await (listReviewComments env);
      ret (actionComments comments)
  end.

(** The reply that marks an annotation resolved (a check mark, then the
    sentence). *)
Definition RESOLVED_REPLY : string := "✓ Formatting has been fixed.".

Definition resolveFixedComments (env : Env) (context : Context)
    (existingComments : list ViolationComment) (fixedFiles : list string) : Eff unit :=
  match pull_request context with
  | None => ret tt
  | Some _ =>
      let commentsToResolve :=
        List.filter
          (fun comment =>
             negb (isResolved comment) && bool_decide (path comment ∈ fixedFiles))
          existingComments in
      if (length commentsToResolve =? 0)%nat then ret tt
      else
        forEach commentsToResolve
          (fun comment =>
             callApi env (CreateReplyForReviewComment (id comment) RESOLVED_REPLY))
  end.

(** ** [csharpier-runner.ts] *)

(** The delimiter of pipe-files mode, U+0003. *)
Definition ETX : ascii := Ascii.ascii_of_nat 3.

(** [s.split(sep)] for a one-character separator. *)
Fixpoint split (sep : ascii) (s : string) : list string :=
  match s with
  | EmptyString => [EmptyString]
  | String c rest =>
      if bool_decide (c = sep) then EmptyString :: split sep rest
      else
        match split sep rest with
        | x :: xs => String c x :: xs
        | [] => [String c EmptyString]
        end
  end.

(** The loop that reads every file and pushes
    [filePath, ETX, content, ETX]. *)
Fixpoint buildInputParts (env : Env) (files : list string) (inputParts : list string)
    : Eff (list string) :=
  match files with
  | [] => ret inputParts
  | filePath :: rest =>
      do fileContent <- await (readFile env filePath);
      buildInputParts env rest
        (inputParts ++ [filePath; String ETX EmptyString; fileContent; String ETX EmptyString])
  end.

(** Body of the pairing loop: [formattedMap.set(files[i], results[i])]. *)
Definition pairStep (files results : list string)
    (formattedMap : gmap string string) (i : nat) : gmap string string :=
  match files !! i, results !! i with
  | Some f, Some r => <[f := r]> formattedMap
  | _, _ => formattedMap
  end.

(** [for (let i = 0; i < files.length && i < results.length; i++)] *)
Definition pairResults (files results : list string) : gmap string string :=
  foldl (pairStep files results) ∅
        (seq 0 (Nat.min (length files) (length results))).

Definition formatFiles (env : Env) (files : list string) : Eff (gmap string string) :=
  if (length files =? 0)%nat then ret ∅
  else
    do inputParts <- buildInputParts env files [];
    let input := join "" inputParts in
    do stdout <- execPipeFiles env input;
    let results :=
      List.filter (fun s => negb (String.length s =? 0)%nat) (split ETX stdout) in
    ret (pairResults files results).

(** ** [main.ts], from the formatted contents to the end of the run *)
Section Main.
(** Either revision of [createViolationComments]. *)
Variable createViolationComments :
  Env -> Context -> string -> string -> string -> list ViolationComment -> Eff unit.

(** The loop that collects [unformattedFiles]: a file counts when the
    formatter returned a (non-empty) content that differs from the file. *)
Fixpoint identifyUnformatted (env : Env) (filePaths : list string)
    (formattedMap : gmap string string) (unformattedFiles : list string)
    : Eff (list string) :=
  match filePaths with
  | [] => ret unformattedFiles
  | filePath :: rest =>
      do originalContent <- await (readFile env filePath);
      match formattedMap !! filePath with
      | Some formattedContent =>
          if negb (String.length formattedContent =? 0)%nat
             && negb (bool_decide (originalContent = formattedContent))
          then identifyUnformatted env rest formattedMap (unformattedFiles ++ [filePath])
          else identifyUnformatted env rest formattedMap unformattedFiles
      | None => identifyUnformatted env rest formattedMap unformattedFiles
      end
  end.

(** The body of [run] after [formatFiles] has returned [formattedMap],
    inside [run]'s own [try]/[catch]. *)
Definition reconcileRun (env : Env) (context : Context) (filePaths : list string)
    (existingComments : list ViolationComment) (formattedMap : gmap string string)
    : Eff unit :=
  match pull_request context with
  | None => ret tt
  | Some pr =>
      tryCatch
        (do unformattedFiles <- identifyUnformatted env filePaths formattedMap [];
         let previouslyUnformattedFiles := path <$> existingComments in
         let fixedFiles :=
           List.filter (fun file => negb (bool_decide (file ∈ unformattedFiles)))
                       previouslyUnformattedFiles in
         (if (0 <? length fixedFiles)%nat
          then resolveFixedComments env context existingComments fixedFiles
          else ret tt) ;;
         let commitSha := head_sha pr in
         forEach unformattedFiles
           (fun file =>
              let fileComments :=
                List.filter (fun c => bool_decide (path c = file)) existingComments in
              match formattedMap !! file with
              | Some formattedContent =>
                  createViolationComments env context file commitSha
                    formattedContent fileComments
              | None => ret tt
              end) ;;
         if (0 <? length unformattedFiles)%nat
         then setFailed (FoundViolations (length unformattedFiles))
         else ret tt)
        (fun message => setFailed (RunError message))
  end.
End Main.

(** ** The annotations of one file as the next run observes them

    The comment store belongs to GitHub. Its effect on what
    [getExistingComments] returns next follows [MockGitHubAPI]: a created
    comment is appended under the next free id, an update rewrites the body
    of the first comment with that id; a delete removes the comment with
    that id. A reply is a comment of its own that does not carry the
    marker, so it is not part of the annotations. *)

Record Store := mkStore {
  comments : list ViolationComment;
  nextCommentId : Z
}.

Fixpoint updateBody (comment_id : Z) (newBody : string) (cs : list ViolationComment)
    : list ViolationComment :=
  match cs with
  | [] => []
  | c :: rest =>
      if id c =? comment_id
      then mkViolationComment (id c) (path c) newBody (isResolved c) (line c) :: rest
      else c :: updateBody comment_id newBody rest
  end.

Definition applyCall (s : Store) (c : ApiCall) : Store :=
  match c with
  | CreateReviewComment newBody _ filePath lineNo _ =>
      mkStore
        (comments s ++ [mkViolationComment (nextCommentId s) filePath newBody false lineNo])
        (nextCommentId s + 1)
  | UpdateReviewComment comment_id newBody =>
      mkStore (updateBody comment_id newBody (comments s)) (nextCommentId s)
  | DeleteReviewComment comment_id =>
      mkStore (List.filter (fun c => negb (id c =? comment_id)) (comments s))
              (nextCommentId s)
  | CreateReplyForReviewComment _ _ => s
  end.

Definition applyCalls (s : Store) (cs : list ApiCall) : Store := foldl applyCall s cs.

(** ** Vocabulary of the specification *)

(** No mutation call of the run is rejected. *)
Definition noFailure (env : Env) : Prop := forall n, apiFailure env n = None.

(** [change.type === 'add' || change.type === 'normal'] *)
Definition isAddOrNormal (change : Change) : bool :=
  match type change with
  | add | normal => true
  | del => false
  end.

(** The new-file line numbers a chunk assigns to its [add] and [normal]
    entries: consecutive from the chunk's declared start. *)
Definition trackedLines (chunk : Chunk) : list Z :=
  (fun k : nat => chunkNewStart chunk + Z.of_nat k)
  <$> seq 0 (length (List.filter isAddOrNormal (chunkChanges chunk))).

(** The lines of the first file of the parsed patch that a review comment
    can be anchored to. *)
Definition visibleLines (parsed : list DiffFile) : list Z :=
  match parsed with
  | [] => []
  | file :: _ => concat (trackedLines <$> chunks file)
  end.

(** A reply exists under comment [comment_id] in the fetched list: some
    comment of the list is a reply to it. *)
Definition hasReply (fetched : list ReviewComment) (comment_id : Z) : bool :=
  existsb (fun c => bool_decide (in_reply_to_id c = Some comment_id)) fetched.

(** The world after the calls [cs] have been sent. *)
Definition addCalls (w : World) (cs : list ApiCall) : World :=
  mkWorld (calls w ++ cs) (warnings w) (formatterInputs w) (failed w).

(** Which of the calls [cs], issued one after the other from call number
    [n] on with nothing catching a rejection, are sent: all of them up to
    and including the first rejected one, whose message is returned. *)
Fixpoint attempted (fails : nat -> option string) (n : nat) (cs : list ApiCall)
    : list ApiCall * option string :=
  match cs with
  | [] => ([], None)
  | c :: rest =>
      match fails n with
      | Some e => ([c], Some e)
      | None => let (sent, e) := attempted fails (S n) rest in (c :: sent, e)
      end
  end.

Definition outcomeOf (e : option string) : Outcome unit :=
  match e with
  | Some message => Thrown message
  | None => Returned tt
  end.

Definition isCreate (c : ApiCall) : bool :=
  match c with
  | CreateReviewComment _ _ _ _ _ => true
  | _ => false
  end.

Definition isReplyTo (comment_id : Z) (c : ApiCall) : bool :=
  match c with
  | CreateReplyForReviewComment i _ => i =? comment_id
  | _ => false
  end.

Definition isDeleteOf (comment_id : Z) (c : ApiCall) : bool :=
  match c with
  | DeleteReviewComment i => i =? comment_id
  | _ => false
  end.

(** Every call that [m] sends satisfies [P]. *)
Definition emits {A} (P : ApiCall -> Prop) (m : Eff A) : Prop :=
  forall w, exists sent, calls (fst (m w)) = calls w ++ sent /\ Forall P sent.

(** The annotations [resolveFixedComments] replies to, and the reply. *)
Definition toResolve (existingComments : list ViolationComment) (fixedFiles : list string)
    : list ViolationComment :=
  List.filter
    (fun comment => negb (isResolved comment) && bool_decide (path comment ∈ fixedFiles))
    existingComments.

Definition replyTo (comment : ViolationComment) : ApiCall :=
  CreateReplyForReviewComment (id comment) RESOLVED_REPLY.

(** The creation call for a desired annotation [(line, body)]. *)
Definition createCall (commitSha filePath : string) (d : Z * string) : ApiCall :=
  CreateReviewComment (snd d) commitSha filePath (fst d) "RIGHT".

(** The warnings of a loop of deletes issued from call number [n] on: one
    per rejected delete. *)
Fixpoint deleteWarnings (fails : nat -> option string) (n : nat)
    (cs : list ViolationComment) : list Warning :=
  match cs with
  | [] => []
  | c :: rest =>
      match fails n with
      | Some e => WarnFailedToDelete (id c) e :: deleteWarnings fails (S n) rest
      | None => deleteWarnings fails (S n) rest
      end
  end.

Definition addWarnings (w : World) (ws : list Warning) : World :=
  mkWorld (calls w) (warnings w ++ ws) (formatterInputs w) (failed w).

(** The calls a computation has sent. *)
Definition callsOf {A} (r : World * Outcome A) : list ApiCall := calls (fst r).

(** The number of maximal runs of change lines in [ls]: the change lines
    that do not come right after a change line. *)
Fixpoint countRuns (prevIsChange : bool) (ls : list string) : nat :=
  match ls with
  | [] => 0
  | l :: rest =>
      ((if isChangeLine l && negb prevIsChange then 1 else 0)
       + countRuns (isChangeLine l) rest)%nat
  end.

(** The indices [first..last] of [ls] hold a maximal run of change lines. *)
Definition isMaximalRun (ls : list string) (first last : Z) : Prop :=
  0 <= first <= last /\ last < Z.of_nat (length ls) /\
  (forall i, first <= i <= last ->
             exists l, lineAt ls i = Some l /\ isChangeLine l = true) /\
  (forall l, lineAt ls (first - 1) = Some l -> isChangeLine l = false) /\
  (forall l, lineAt ls (last + 1) = Some l -> isChangeLine l = false).

(** The line feed as a character. *)
Definition LF : ascii := Ascii.ascii_of_nat 10.

(** The context and added lines of a hunk, tags removed: its share of the
    new file. *)
Definition newSide (ls : list string) : list string :=
  substring1 <$> List.filter isNewFileLine ls.

(** What the [diff] library guarantees about a hunk of the patch towards
    [formatted]: its context and added lines are the lines of [formatted]
    from line [newStart] on. *)
Definition matchesFormatted (formatted : string) (hunk : Hunk) : Prop :=
  1 <= newStart hunk /\
  newSide (lines hunk) =
  take (length (newSide (lines hunk)))
       (drop (Z.to_nat (newStart hunk - 1)) (split LF formatted)).

(** The lines of the hunk inside the context-padded window of a change
    block. *)
Definition windowLines (hunk : Hunk) (change : SubHunks.ChangeBlock) : list string :=
  take (Z.to_nat (SubHunks.windowEnd hunk change - SubHunks.windowStart change + 1))
       (drop (Z.to_nat (SubHunks.windowStart change)) (lines hunk)).

(** What the first loop of the sub-hunk revision maintains after it has
    scanned the first [n] lines of [all]. *)
Definition scanInvariant (all : list string) (n : Z) (st : SubHunks.ScanState) : Prop :=
  Forall (fun b => isMaximalRun all (SubHunks.startIndex b) (SubHunks.endIndex b))
         (SubHunks.changes st) /\
  (SubHunks.inChangeBlock st = true ->
   0 <= SubHunks.changeStartIndex st < n /\
   (forall i, SubHunks.changeStartIndex st <= i < n ->
              exists l, lineAt all i = Some l /\ isChangeLine l = true) /\
   (forall l, lineAt all (SubHunks.changeStartIndex st - 1) = Some l ->
              isChangeLine l = false)) /\
  (SubHunks.inChangeBlock st = false ->
   forall l, lineAt all (n - 1) = Some l -> isChangeLine l = false).

(** The first unresolved annotation at line [l], as the in-place revision
    looks it up. *)
Definition firstAt (l : Z) (cs : list ViolationComment) : option ViolationComment :=
  List.find (fun c => (line c =? l) && negb (isResolved c)) cs.

(** What the in-place revision sends for one desired annotation when no
    call is rejected, and for all of them. *)
Definition planFor (commitSha filePath : string) (existingComments : list ViolationComment)
    (d : Z * string) : list ApiCall :=
  match firstAt (fst d) existingComments with
  | Some existingComment =>
      if bool_decide (body existingComment = snd d) then []
      else [UpdateReviewComment (id existingComment) (snd d)]
  | None => [createCall commitSha filePath d]
  end.

Definition plan (commitSha filePath : string) (existingComments : list ViolationComment)
    (ds : list (Z * string)) : list ApiCall :=
  concat (planFor commitSha filePath existingComments <$> ds).

(** The annotations a pass leaves behind: those it was given, changed by
    the calls it has sent. *)
Definition leftBehind (existingComments : list ViolationComment) (nextId : Z)
    (sent : list ApiCall) : list ViolationComment :=
  comments (applyCalls (mkStore existingComments nextId) sent).

(** An annotation with its body replaced. *)
Definition withBody (c : ViolationComment) (newBody : string) : ViolationComment :=
  mkViolationComment (id c) (path c) newBody (isResolved c) (line c).

(** What holds of the annotations [cs] (next free id [n]) while an in-place
    pass computed against [existing] works through its desired annotations,
    [done] being those already handled: ids are distinct and below [n];
    every handled line has its desired body on its first unresolved
    annotation; on every other line the first unresolved annotation is the
    one of [existing]. *)
Definition passInvariant (existing cs : list ViolationComment) (n : Z)
    (done : list (Z * string)) : Prop :=
  NoDup (id <$> cs) /\ Forall (fun c => id c < n) cs /\
  (forall d, d ∈ done -> exists c, firstAt (fst d) cs = Some c /\ body c = snd d) /\
  (forall l, l ∉ (fst <$> done) ->
     match firstAt l existing, firstAt l cs with
     | Some c, Some c' => id c = id c' /\ body c = body c'
     | None, None => True
     | _, _ => False
     end).

(** The calls the in-place revision may send: never a delete or a reply; a
    creation only for a desired annotation on a line without unresolved
    annotation; an update only of the first unresolved annotation of a
    desired line, to a body it does not have. *)
Definition inPlaceCall (existingComments : list ViolationComment) (ds : list (Z * string))
    (call : ApiCall) : Prop :=
  match call with
  | CreateReviewComment newBody _ _ l _ =>
      (l, newBody) ∈ ds /\ firstAt l existingComments = None
  | UpdateReviewComment i newBody =>
      exists c l, (l, newBody) ∈ ds /\ firstAt l existingComments = Some c /\
                  id c = i /\ body c <> newBody
  | DeleteReviewComment _ | CreateReplyForReviewComment _ _ => False
  end.

(** ** Concrete scenarios *)

(** An environment in which nothing is there and nothing fails. *)
Definition quietEnv : Env :=
  mkEnv (fun _ _ _ => []) (fun _ => []) (Returned []) (Returned [])
        (fun _ => Thrown "ENOENT") (fun _ => Returned "") (fun _ => None).

Definition prContext : Context :=
  mkContext "testowner" "testrepo" (Some (mkPullRequest 6 "abc123")).

(** An annotation of the tool on [a.cs], line 5, and the reply that
    [resolveFixedComments] posts under it. *)
Definition annotationBody : string :=
  COMMENT_MARKER +:+ nl +:+ "Formatting issue".

Definition fetchedWithReply : list ReviewComment :=
  [ mkReviewComment 1 "a.cs" (Some annotationBody) None (Some 5) None;
    mkReviewComment 2 "a.cs" (Some RESOLVED_REPLY) (Some 1) (Some 5) None ].

Definition envWithReply : Env :=
  mkEnv (structuredPatch quietEnv) (parseDiff quietEnv) (listFiles quietEnv)
        (Returned fetchedWithReply) (readFile quietEnv) (pipeFiles quietEnv)
        (apiFailure quietEnv).

(** Two files handed to the formatter, which answers with one segment. *)
Definition envOneSegment : Env :=
  mkEnv (structuredPatch quietEnv) (parseDiff quietEnv) (listFiles quietEnv)
        (listReviewComments quietEnv)
        (fun f => Returned ("content of " +:+ f))
        (fun _ => Returned ("formatted a" +:+ String ETX EmptyString))
        (apiFailure quietEnv).

(** A follow-up run in which [p.cs] is formatted and still carries the
    unresolved annotation 7 at line 5. *)
Definition envFixedFile : Env :=
  mkEnv (structuredPatch quietEnv) (parseDiff quietEnv) (listFiles quietEnv)
        (listReviewComments quietEnv)
        (fun _ => Returned "class Test { }")
        (pipeFiles quietEnv) (apiFailure quietEnv).

Definition annotationAtLine5 : ViolationComment :=
  mkViolationComment 7 "p.cs" annotationBody false 5.

Definition formattedAsIs : gmap string string := {[ "p.cs" := "class Test { }" ]}.

(** A second unresolved annotation, on [q.cs]. *)
Definition annotationOnQ : ViolationComment :=
  mkViolationComment 8 "q.cs" annotationBody false 3.

(** The patch of the repository's boundary test: five unchanged lines,
    new-file lines 5 to 9; the violation sits at line 1. *)
Definition outsidePatch : string := "@@ -5,5 +5,5 @@ namespace  TestNamespace".

Definition outsideChunk : Chunk :=
  mkChunk 5 [ mkChange normal "        public void Method()";
              mkChange normal "        {";
              mkChange normal "            var x = 1;";
              mkChange normal "        }";
              mkChange normal "    }" ].

Definition envOutsideDiff : Env :=
  mkEnv (structuredPatch quietEnv)
        (fun p => if bool_decide (p = outsidePatch) then [mkDiffFile [outsideChunk]] else [])
        (listFiles quietEnv) (listReviewComments quietEnv) (readFile quietEnv)
        (pipeFiles quietEnv) (apiFailure quietEnv).

Definition hunkAtLine1 : FormattingHunk :=
  mkFormattingHunk 1 "namespace TestNamespace" (1, 4).

(** The specification's split example: [split.cs], added by the pull
    request with the lines A, B, C, D, E, which the formatter turns into
    A, X, C, Y, E. [splitHunk] is the one hunk the [diff] library computes
    for it (neither text ends in a line feed). *)
Definition splitOriginal : string :=
  "A" +:+ nl +:+ "B" +:+ nl +:+ "C" +:+ nl +:+ "D" +:+ nl +:+ "E".
Definition splitFormatted : string :=
  "A" +:+ nl +:+ "X" +:+ nl +:+ "C" +:+ nl +:+ "Y" +:+ nl +:+ "E".

Definition splitHunk : Hunk :=
  mkHunk 1 5 1 5
    [" A"; "-B"; "+X"; " C"; "-D"; "+Y"; " E"; "\ No newline at end of file"].

Definition splitPatch : string := "@@ -0,0 +1,5 @@".

Definition splitChunk : Chunk :=
  mkChunk 1 [mkChange add "+A"; mkChange add "+B"; mkChange add "+C";
             mkChange add "+D"; mkChange add "+E"].

Definition splitDiff (filePath originalContent formattedContent : string) : list Hunk :=
  if bool_decide (filePath = "split.cs")
     && bool_decide (originalContent = splitOriginal)
     && bool_decide (formattedContent = splitFormatted)
  then [splitHunk] else [].

Definition envSplit : Env :=
  mkEnv splitDiff
        (fun p => if bool_decide (p = splitPatch) then [mkDiffFile [splitChunk]] else [])
        (Returned [mkPRFile "split.cs" (Some splitPatch)])
        (Returned [])
        (fun f => if bool_decide (f = "split.cs") then Returned splitOriginal
                  else Thrown "ENOENT")
        (pipeFiles quietEnv)
        (fun _ => None).

(** The same, with the first mutation call of the run rejected and the
    others going through. *)
Definition envSplitFirstCallFails : Env :=
  mkEnv (structuredPatch envSplit) (parseDiff envSplit) (listFiles envSplit)
        (listReviewComments envSplit) (readFile envSplit) (pipeFiles envSplit)
        (fun n => if (n =? 0)%nat then Some "HTTP 500" else None).

Definition splitFormattedMap : gmap string string := {[ "split.cs" := splitFormatted ]}.

(** The repository's first test: [test.cs] holds [class  Test], the
    formatter removes the extra space; the pull request shows the file. *)
Definition testOriginal : string := "class  Test" +:+ nl +:+ "{" +:+ nl +:+ "}".
Definition testFormatted : string := "class Test" +:+ nl +:+ "{" +:+ nl +:+ "}".

Definition testHunk : Hunk :=
  mkHunk 1 3 1 3
    ["-class  Test"; "+class Test"; " {"; " }"; "\ No newline at end of file"].

Definition testPatch : string := "@@ -1,3 +1,3 @@".

Definition testChunk : Chunk :=
  mkChunk 1 [mkChange del "-class  Test"; mkChange add "+class Test";
             mkChange normal " {"; mkChange normal " }"].

Definition envTest : Env :=
  mkEnv (fun filePath originalContent formattedContent =>
           if bool_decide (filePath = "test.cs")
              && bool_decide (originalContent = testOriginal)
              && bool_decide (formattedContent = testFormatted)
           then [testHunk] else [])
        (fun p => if bool_decide (p = testPatch) then [mkDiffFile [testChunk]] else [])
        (Returned [mkPRFile "test.cs" (Some testPatch)])
        (Returned [])
        (fun f => if bool_decide (f = "test.cs") then Returned testOriginal
                  else Thrown "ENOENT")
        (pipeFiles quietEnv)
        (fun _ => None).

(** ** Vocabulary for the rest of the code *)

(** The number of context and added lines among the first [i] lines. *)
Definition newLinesBefore (ls : list string) (i : Z) : Z :=
  Z.of_nat (length (List.filter isNewFileLine (take (Z.to_nat i) ls))).

(** What the first loop of the sub-hunk revision maintains about its line
    counters after the first [n] lines of [all], in a hunk that starts at
    new-file line [start]. *)
Definition lineInvariant (start : Z) (all : list string) (n : Z)
    (st : SubHunks.ScanState) : Prop :=
  SubHunks.currentLine st = start + newLinesBefore all n /\
  (SubHunks.inChangeBlock st = true ->
   SubHunks.changeStartLine st
   = start + newLinesBefore all (SubHunks.changeStartIndex st)) /\
  Forall (fun b => SubHunks.startLine b = start + newLinesBefore all (SubHunks.startIndex b))
         (SubHunks.changes st).

(** The line at index [i] is a change line. *)
Definition changeAt (ls : list string) (i : Z) : Prop :=
  exists l, lineAt ls i = Some l /\ isChangeLine l = true.

(** The added lines of a hunk, without their marker. *)
Definition additions (ls : list string) : list string :=
  substring1 <$> List.filter isAdditionLine ls.

(** What the first loop of the one-hunk-per-diff-hunk revision knows
    after the lines below index [n]: no change line yet, or the indices
    of the first and of the last one. *)
Definition firstLastInvariant (all : list string) (n : Z) (st : Recreate.ScanState)
    : Prop :=
  (Recreate.firstChangeIndex st = -1 /\ forall i, 0 <= i < n -> ~ changeAt all i) \/
  (0 <= Recreate.firstChangeIndex st <= Recreate.lastChangeIndex st /\
   Recreate.lastChangeIndex st < n /\
   changeAt all (Recreate.firstChangeIndex st) /\
   (forall i, 0 <= i < Recreate.firstChangeIndex st -> ~ changeAt all i) /\
   (forall i, Recreate.lastChangeIndex st < i < n -> ~ changeAt all i)).


(** [s] contains the character [c]. *)
Fixpoint hasChar (c : ascii) (s : string) : bool :=
  match s with
  | EmptyString => false
  | String x rest => bool_decide (x = c) || hasChar c rest
  end.

(** The framing of pipe-files mode: every segment followed by the
    delimiter. *)
Definition framed (segs : list string) : string :=
  foldr (fun s acc => s +:+ String ETX acc) EmptyString segs.

(** Paths and contents in the order in which they are sent. *)
Definition interleave (files contents : list string) : list string :=
  concat (zip_with (fun f c => [f; c]) files contents).

(** The world after one run of the formatter on [input]. *)
Definition addFormatterInput (w : World) (input : string) : World :=
  mkWorld (calls w) (warnings w) (formatterInputs w ++ [input]) (failed w).

Definition nonEmpty (s : string) : bool := negb (String.length s =? 0)%nat.


(** Two files, and a formatter that answers with one framed content for
    each. *)
Definition envTwoFiles : Env :=
  mkEnv (fun _ _ _ => []) (fun _ => []) (Returned []) (Returned [])
        (fun f => if bool_decide (f = "a.cs") then Returned "class  A { }"
                  else if bool_decide (f = "b.cs") then Returned "class  B { }"
                  else Thrown "ENOENT")
        (fun _ => Returned (framed ["class A { }"; "class B { }"]))
        (fun _ => None).


(** The same two files, and a formatter that prints nothing. *)
Definition envSilent : Env :=
  mkEnv (structuredPatch envTwoFiles) (parseDiff envTwoFiles) (listFiles envTwoFiles)
        (listReviewComments envTwoFiles) (readFile envTwoFiles)
        (fun _ => Returned EmptyString) (apiFailure envTwoFiles).


(** [m] reports no failure of the run: it leaves [core.setFailed] alone. *)
Definition keepsFailed {A} (m : Eff A) : Prop :=
  forall w, failed (fst (m w)) = failed w.

(** What [run] reports through [core.setFailed] after the replies
    [replied] and with [n] unformatted files. *)
Definition verdict (replied : list ApiCall * option string) (n : nat) : list RunFailure :=
  match snd replied with
  | Some e => [RunError e]
  | None => if (0 <? n)%nat then [FoundViolations n] else []
  end.


(** The annotations that creating [ds] on [filePath] adds to the store,
    under the ids from [n] on. *)
Fixpoint createdFrom (filePath : string) (n : Z) (ds : list (Z * string))
    : list ViolationComment :=
  match ds with
  | [] => []
  | d :: rest =>
      mkViolationComment n filePath (snd d) false (fst d)
      :: createdFrom filePath (n + 1) rest
  end.


(** The number of lines a hunk holds of the new file. *)
Definition newLineCount (hunk : Hunk) : Z :=
  Z.of_nat (length (List.filter isNewFileLine (lines hunk))).

(** What a unified diff guarantees about the order of its hunks: each one
    starts, in the new file, after the lines of those before it. *)
Fixpoint hunksInOrder (hunks : list Hunk) : Prop :=
  match hunks with
  | [] => True
  | h :: rest =>
      Forall (fun h2 => newStart h + newLineCount h <= newStart h2) rest /\
      hunksInOrder rest
  end.

(** Every number of the list is below all those after it. *)
Fixpoint increasing (l : list Z) : Prop :=
  match l with
  | [] => True
  | x :: rest => Forall (fun y => x < y) rest /\ increasing rest
  end.


(** ** [pr-files.ts] and the whole of [run]

    [core.info], [core.debug] and [core.setOutput] leave no trace in the
    world of the model. *)

(** An entry of [octokit.rest.pulls.listFiles], with the fields that
    [getChangedCSharpFiles] reads. *)
Record ListedFile := mkListedFile {
  listed_filename : string;
  listed_sha : string;
  listed_status : string
}.

(** [PRFile] of [types.ts]. *)
Record ChangedFile := mkChangedFile {
  changed_path : string;
  changed_sha : string;
  changed_status : string
}.

(** [s.endsWith(suffix)] *)
Definition endsWith (s suffix : string) : bool :=
  (String.length suffix <=? String.length s)%nat
  && bool_decide (String.substring (String.length s - String.length suffix)
                                   (String.length suffix) s = suffix).

Definition isCSharpFile (file : ListedFile) : bool :=
  (endsWith (listed_filename file) ".cs" || endsWith (listed_filename file) ".csx")
  && negb (bool_decide (listed_status file = "removed")).

Definition getChangedCSharpFiles (listing : Outcome (list ListedFile)) (context : Context)
    : Eff (list ChangedFile) :=
  match pull_request context with
  | None => await (Thrown "This action can only be run on pull request events")
  | Some _ =>
      do files <- await listing;
      ret ((fun file =>
              mkChangedFile (listed_filename file) (listed_sha file) (listed_status file))
           <$> List.filter isCSharpFile files)
  end.

(** What [run] reads besides [Env]: the inputs of the action
    ([core.getInput] throws when a required input is missing), the
    [dotnet] executable ([exec.exec] rejects on a non-zero exit code) and
    the file listing of the pull request. *)
Record Action := mkAction {
  commandInput : Outcome string;
  versionInput : string;
  tokenInput : Outcome string;
  dotnet : list string -> Outcome Z;
  pullsListFiles : Outcome (list ListedFile)
}.

Definition installCSharpier (action : Action) (version : string) : Eff unit :=
  let args :=
    ["tool"; "install"; "-g"; "csharpier"]
    ++ (if negb (bool_decide (version = "latest")) then ["--version"; version] else []) in
  await (dotnet action args) ;;
  ret tt.

Definition invalidCommand (command : string) : string :=
  "Invalid command: " +:+ command +:+ ". Only 'check' is currently supported.".

Definition run
    (createViolationComments :
       Env -> Context -> string -> string -> string -> list ViolationComment -> Eff unit)
    (env : Env) (action : Action) (context : Context) : Eff unit :=
  tryCatch
    (match pull_request context with
     | None => ret tt
     | Some pr =>
         do command <- await (commandInput action);
         let csharpierVersion :=
           if (String.length (versionInput action) =? 0)%nat then "latest"
           else versionInput action in
         do githubToken <- await (tokenInput action);
         if negb (bool_decide (command = "check"))
         then await (Thrown (invalidCommand command))
         else
           installCSharpier action csharpierVersion ;;
           do changedFiles <- getChangedCSharpFiles (pullsListFiles action) context;
           if (length changedFiles =? 0)%nat then ret tt
           else
             do existingComments <- getExistingComments env context;
             let filePaths := changed_path <$> changedFiles in
             do formattedMap <- formatFiles env filePaths;
             do unformattedFiles <- identifyUnformatted env filePaths formattedMap [];
             let previouslyUnformattedFiles := path <$> existingComments in
             let fixedFiles :=
               List.filter (fun file => negb (bool_decide (file ∈ unformattedFiles)))
                           previouslyUnformattedFiles in
             (if (0 <? length fixedFiles)%nat
              then resolveFixedComments env context existingComments fixedFiles
              else ret tt) ;;
             let commitSha := head_sha pr in
             forEach unformattedFiles
               (fun file =>
                  let fileComments :=
                    List.filter (fun c => bool_decide (path c = file)) existingComments in
                  match formattedMap !! file with
                  | Some formattedContent =>
                      createViolationComments env context file commitSha
                        formattedContent fileComments
                  | None => ret tt
                  end) ;;
             if (0 <? length unformattedFiles)%nat
             then setFailed (FoundViolations (length unformattedFiles))
             else ret tt
     end)
    (fun message => setFailed (RunError message)).

(** The paths [run] hands to the formatter. *)
Definition changedPaths (files : list ListedFile) : list string :=
  listed_filename <$> List.filter isCSharpFile files.

(** [m] reports at most one failure of the run, and none when it
    throws. *)
Definition reportsOnce {A} (m : Eff A) : Prop :=
  forall w,
    match m w with
    | (w', Returned _) => failed w' = failed w \/ exists x, failed w' = failed w ++ [x]
    | (w', Thrown _) => failed w' = failed w
    end.

(** A pull request whose listing holds a C# file, a removed one and a
    file that is no C# file; the action is asked to check. *)
Definition checkAction : Action :=
  mkAction (Returned "check") "" (Returned "token") (fun _ => Returned 0)
           (Returned [mkListedFile "a.cs" "1" "modified";
                      mkListedFile "old.cs" "2" "removed";
                      mkListedFile "README.md" "3" "modified";
                      mkListedFile "b.cs" "4" "added"]).


(** A file is unformatted when the formatter has returned a non-empty
    content for it that differs from what the file holds. *)
Definition isUnformatted (formattedMap : gmap string string) (file : string * string)
    : bool :=
  match formattedMap !! fst file with
  | Some formattedContent =>
      nonEmpty formattedContent && negb (bool_decide (snd file = formattedContent))
  | None => false
  end.


(** ** Further scenarios *)

(** [multi.cs], added by the pull request with nine lines, each closed by
    a line feed. The formatter changes the first and the last line; seven
    unchanged lines lie between them, so the [diff] library computes two
    hunks with three lines of context each. *)
Definition multiOriginal : string :=
  join nl ["a  b"; "1"; "2"; "3"; "4"; "5"; "6"; "7"; "c  d"; ""].
Definition multiFormatted : string :=
  join nl ["a b"; "1"; "2"; "3"; "4"; "5"; "6"; "7"; "c d"; ""].

Definition multiHunks : list Hunk :=
  [ mkHunk 1 4 1 4 ["-a  b"; "+a b"; " 1"; " 2"; " 3"];
    mkHunk 6 4 6 4 [" 5"; " 6"; " 7"; "-c  d"; "+c d"] ].

Definition multiPatch : string :=
  join nl ["@@ -0,0 +1,9 @@"; "+a  b"; "+1"; "+2"; "+3"; "+4"; "+5"; "+6"; "+7"; "+c  d"].

Definition multiChunk : Chunk :=
  mkChunk 1 [mkChange add "+a  b"; mkChange add "+1"; mkChange add "+2";
             mkChange add "+3"; mkChange add "+4"; mkChange add "+5";
             mkChange add "+6"; mkChange add "+7"; mkChange add "+c  d"].

Definition multiDiff (filePath originalContent formattedContent : string) : list Hunk :=
  if bool_decide (filePath = "multi.cs")
     && bool_decide (originalContent = multiOriginal)
     && bool_decide (formattedContent = multiFormatted)
  then multiHunks else [].

Definition envMulti : Env :=
  mkEnv multiDiff
        (fun p => if bool_decide (p = multiPatch) then [mkDiffFile [multiChunk]] else [])
        (Returned [mkPRFile "multi.cs" (Some multiPatch)])
        (Returned [])
        (fun f => if bool_decide (f = "multi.cs") then Returned multiOriginal
                  else Thrown "ENOENT")
        (pipeFiles quietEnv)
        (fun _ => None).

(** Annotations that [multi.cs] carries from an earlier run: one at line 1
    with an outdated body, one at line 5, and a resolved one at line 9. *)
Definition outdatedBody : string := COMMENT_MARKER +:+ nl +:+ "outdated suggestion".

Definition multiAtLine1 : ViolationComment :=
  mkViolationComment 100 "multi.cs" outdatedBody false 1.
Definition multiAtLine5 : ViolationComment :=
  mkViolationComment 101 "multi.cs" annotationBody false 5.
Definition multiResolvedAtLine9 : ViolationComment :=
  mkViolationComment 102 "multi.cs" outdatedBody true 9.

(** A follow-up run on a pull request that changes [p.cs], now formatted
    and still carrying the unresolved annotation 7, and [multi.cs], which
    is unformatted and carries annotation 100. The formatter answers with
    both contents. *)
Definition fetchedMixed : list ReviewComment :=
  [ mkReviewComment 7 "p.cs" (Some annotationBody) None (Some 5) None;
    mkReviewComment 100 "multi.cs" (Some outdatedBody) None (Some 1) None ].

Definition envMixed : Env :=
  mkEnv multiDiff (parseDiff envMulti)
        (Returned [mkPRFile "p.cs"
                     (Some (join nl ["@@ -1 +1 @@"; "-class  P { }"; "+class P { }"]));
                   mkPRFile "multi.cs" (Some multiPatch)])
        (Returned fetchedMixed)
        (fun f => if bool_decide (f = "p.cs") then Returned "class P { }"
                  else if bool_decide (f = "multi.cs") then Returned multiOriginal
                  else Thrown "ENOENT")
        (fun _ => Returned (framed ["class P { }"; multiFormatted]))
        (fun _ => None).

(** The same, with the first mutation call of the run rejected. *)
Definition envMixedFirstCallFails : Env :=
  mkEnv (structuredPatch envMixed) (parseDiff envMixed) (listFiles envMixed)
        (listReviewComments envMixed) (readFile envMixed) (pipeFiles envMixed)
        (fun n => if (n =? 0)%nat then Some "HTTP 500" else None).

(** The same, with the second and the third mutation call rejected. *)
Definition envMixedLaterCallsFail : Env :=
  mkEnv (structuredPatch envMixed) (parseDiff envMixed) (listFiles envMixed)
        (listReviewComments envMixed) (readFile envMixed) (pipeFiles envMixed)
        (fun n => if (n =? 1)%nat then Some "HTTP 404"
                  else if (n =? 2)%nat then Some "HTTP 422" else None).

Definition mixedAction : Action :=
  mkAction (Returned "check") "" (Returned "token") (fun _ => Returned 0)
           (Returned [mkListedFile "p.cs" "1" "modified";
                      mkListedFile "multi.cs" "2" "added"]).

(** A later state of that pull request: the change to [p.cs] has been
    taken back and only [README.md] is left, while [p.cs] still carries
    its unresolved annotation. *)
Definition readmeAction : Action :=
  mkAction (Returned "check") "" (Returned "token") (fun _ => Returned 0)
           (Returned [mkListedFile "README.md" "3" "modified"]).

(** [del.cs], added by the pull request with an empty line that the
    formatter removes: the line diff only deletes. The file still
    carries an unresolved annotation from an earlier run. *)
Definition deletionOriginal : string := join nl ["x"; ""; "y"; ""].
Definition deletionFormatted : string := join nl ["x"; "y"; ""].

Definition deletionHunk : Hunk := mkHunk 1 3 1 2 [" x"; "-"; " y"].

Definition deletionPatch : string := join nl ["@@ -0,0 +1,3 @@"; "+x"; "+"; "+y"].

Definition deletionChunk : Chunk :=
  mkChunk 1 [mkChange add "+x"; mkChange add "+"; mkChange add "+y"].

Definition envDeletion : Env :=
  mkEnv (fun filePath originalContent formattedContent =>
           if bool_decide (filePath = "del.cs")
              && bool_decide (originalContent = deletionOriginal)
              && bool_decide (formattedContent = deletionFormatted)
           then [deletionHunk] else [])
        (fun p => if bool_decide (p = deletionPatch) then [mkDiffFile [deletionChunk]]
                  else [])
        (Returned [mkPRFile "del.cs" (Some deletionPatch)])
        (Returned [])
        (fun f => if bool_decide (f = "del.cs") then Returned deletionOriginal
                  else Thrown "ENOENT")
        (pipeFiles quietEnv)
        (fun _ => None).

Definition staleAnnotation : ViolationComment :=
  mkViolationComment 50 "del.cs" outdatedBody false 2.

(** The entry that [parse-diff] makes of the patch line
    [\ No newline at end of file]: it carries the type of the change
    before it. *)
Definition isNoNewlineMarker (change : Change) : bool :=
  startsWith (changeContent change) "\".

(** The new-file lines a chunk of the patch really shows: its [add] and
    [normal] entries that are lines of the file. *)
Definition shownLines (chunk : Chunk) : list Z :=
  (fun k : nat => chunkNewStart chunk + Z.of_nat k)
  <$> seq 0 (length (List.filter
                       (fun c => isAddOrNormal c && negb (isNoNewlineMarker c))
                       (chunkChanges chunk))).

(** [m.cs] has two lines and no line feed at its end; the pull request
    has changed its second line. [markerChunk] is what [parse-diff]
    returns for the patch. *)
Definition markerPatch : string :=
  join nl ["@@ -1,2 +1,2 @@"; " a"; "-b"; "\ No newline at end of file";
           "+c"; "\ No newline at end of file"].

Definition markerChunk : Chunk :=
  mkChunk 1 [mkChange normal " a"; mkChange del "-b";
             mkChange del "\ No newline at end of file";
             mkChange add "+c";
             mkChange add "\ No newline at end of file"].

Definition envMarker : Env :=
  mkEnv (structuredPatch quietEnv)
        (fun p => if bool_decide (p = markerPatch) then [mkDiffFile [markerChunk]] else [])
        (listFiles quietEnv) (listReviewComments quietEnv) (readFile quietEnv)
        (pipeFiles quietEnv) (apiFailure quietEnv).

Definition hunkAtLine3 : FormattingHunk := mkFormattingHunk 3 "d" (2, 2).

(** [envMulti] with the second and the third mutation call rejected. *)
Definition envMultiCallsFail : Env :=
  mkEnv (structuredPatch envMulti) (parseDiff envMulti) (listFiles envMulti)
        (listReviewComments envMulti) (readFile envMulti) (pipeFiles envMulti)
        (fun n => if (n =? 1)%nat then Some "HTTP 404"
                  else if (n =? 2)%nat then Some "HTTP 422" else None).

(** * Properties *)

(** ** The coordinate mapper *)

Lemma walkChanges_result changes currentLine targetLine l :
  walkChanges changes currentLine targetLine = Some l -> l = targetLine.
Proof.
  revert currentLine.
  induction changes as [|change rest IH]; intros currentLine; simpl; [done|].
  destruct (type change); try apply IH.
  - destruct (Z.eqb_spec currentLine targetLine); [naive_solver | apply IH].
  - destruct (Z.eqb_spec currentLine targetLine); [naive_solver | apply IH].
Qed.

Lemma walkChanges_spec changes currentLine targetLine :
  walkChanges changes currentLine targetLine =
  if bool_decide (currentLine <= targetLine
                  < currentLine + Z.of_nat (length (List.filter isAddOrNormal changes)))
  then Some targetLine else None.
Proof.
  revert currentLine.
  induction changes as [|change rest IH]; intros currentLine; simpl.
  - case_bool_decide; [lia | done].
  - assert (Ht : isAddOrNormal change =
                 match type change with del => false | _ => true end) by done.
    destruct (isAddOrNormal change); destruct (type change); try discriminate; simpl.
    + destruct (Z.eqb_spec currentLine targetLine) as [->|Hne].
      * rewrite bool_decide_eq_true_2; [done | lia].
      * rewrite IH. repeat case_bool_decide; try done; lia.
    + destruct (Z.eqb_spec currentLine targetLine) as [->|Hne].
      * rewrite bool_decide_eq_true_2; [done | lia].
      * rewrite IH. repeat case_bool_decide; try done; lia.
    + apply IH.
Qed.

Lemma elem_of_trackedLines chunk l :
  l ∈ trackedLines chunk <->
  chunkNewStart chunk <= l
  < chunkNewStart chunk + Z.of_nat (length (List.filter isAddOrNormal (chunkChanges chunk))).
Proof.
  unfold trackedLines. rewrite list_elem_of_fmap. split.
  - intros (k & -> & Hk). apply elem_of_seq in Hk. lia.
  - intros Hl. exists (Z.to_nat (l - chunkNewStart chunk)). split; [lia|].
    apply elem_of_seq. lia.
Qed.

Lemma walkChunks_spec cs targetLine :
  walkChunks cs targetLine =
  if bool_decide (targetLine ∈ concat (trackedLines <$> cs)) then targetLine else 0.
Proof.
  induction cs as [|chunk rest IH]; [reflexivity|].
  cbn [walkChunks]. rewrite fmap_cons. cbn [concat].
  rewrite walkChanges_spec, IH.
  pose proof (elem_of_trackedLines chunk targetLine) as Ht.
  pose proof (elem_of_app (trackedLines chunk) (concat (trackedLines <$> rest)) targetLine)
    as Happ.
  repeat case_bool_decide; try done; tauto.
Qed.

Lemma findLineInPRDiff_visible (parseDiff : string -> list DiffFile)
    (prPatch : string) (targetLine : Z) :
  findLineInPRDiff parseDiff prPatch targetLine =
  if bool_decide (targetLine ∈ visibleLines (parseDiff prPatch)) then targetLine else 0.
Proof.
  unfold findLineInPRDiff, visibleLines.
  destruct (parseDiff prPatch) as [|file rest]; [reflexivity|].
  apply walkChunks_spec.
Qed.

(** C6. [findLineInPRDiff] returns [targetLine] when some chunk of the
    parsed patch, walked in order with a counter that starts at the chunk's
    [newStart] and advances on [add] and [normal] entries only, reaches
    [targetLine], and [0] when none does. *)
Theorem findLineInPRDiff_spec (parseDiff : string -> list DiffFile)
    (prPatch : string) (targetLine : Z) :
  findLineInPRDiff parseDiff prPatch targetLine
  = (if bool_decide (targetLine ∈ visibleLines (parseDiff prPatch)) then targetLine else 0) /\
  (targetLine ∈ visibleLines (parseDiff prPatch) <->
   exists file rest chunk k,
     parseDiff prPatch = file :: rest /\ chunk ∈ chunks file /\
     (k < length (List.filter isAddOrNormal (chunkChanges chunk)))%nat /\
     chunkNewStart chunk + Z.of_nat k = targetLine).
Proof.
  split; [apply findLineInPRDiff_visible|].
  unfold visibleLines. destruct (parseDiff prPatch) as [|file rest].
  - split; [intros H; by apply elem_of_nil in H|].
    by intros (? & ? & ? & ? & ? & _).
  - rewrite list_elem_of_In, in_concat. split.
    + intros (ls & Hls & Hin). apply list_elem_of_In, list_elem_of_fmap in Hls
        as (chunk & -> & Hchunk).
      apply list_elem_of_In, elem_of_trackedLines in Hin.
      exists file, rest, chunk, (Z.to_nat (targetLine - chunkNewStart chunk)).
      split; [done|]. split; [done|]. lia.
    + intros (file' & rest' & chunk & k & [= <- <-] & Hchunk & Hk & Hline).
      exists (trackedLines chunk). split.
      * apply list_elem_of_In, list_elem_of_fmap. by exists chunk.
      * apply list_elem_of_In, elem_of_trackedLines. lia.
Qed.

(** ** Resolved state *)

(** What the code derives: an annotation is marked resolved exactly when
    the fetched comment it was built from is itself a reply. *)
Lemma isResolved_own_field (fetched : list ReviewComment) (v : ViolationComment) :
  v ∈ actionComments fetched ->
  exists c, c ∈ fetched /\ rc_id c = id v /\
            (isResolved v = true <-> in_reply_to_id c <> None).
Proof.
  unfold actionComments. intros Hv.
  apply list_elem_of_fmap in Hv as (c & -> & Hc).
  apply list_elem_of_In, filter_In in Hc as [Hc _].
  exists c. split; [by apply list_elem_of_In|]. split; [done|]. simpl.
  apply bool_decide_eq_true.
Qed.

(** C4. On the annotation with id 1 and the reply posted under it,
    [getExistingComments] returns the annotation as unresolved although a
    reply to it is in the fetched list. *)
Theorem getExistingComments_misses_reply :
  hasReply fetchedWithReply 1 = true /\
  getExistingComments envWithReply prContext emptyWorld =
  (emptyWorld, Returned [mkViolationComment 1 "a.cs" annotationBody false 5]).
Proof. split; reflexivity. Qed.

(** ** [formatFiles] *)

Lemma pairResults_prefix (files results : list string) (n : nat) :
  (n <= Nat.min (length files) (length results))%nat ->
  let m := foldl (pairStep files results) ∅ (seq 0 n) in
  dom m = list_to_set (take n files) /\
  (forall i f, (i < n)%nat -> files !! i = Some f ->
               f ∉ drop (S i) (take n files) -> m !! f = results !! i).
Proof.
  induction n as [|n IH]; intros Hn; cbv zeta.
  - simpl. split; [by rewrite dom_empty_L | intros; lia].
  - destruct IH as [IHdom IHlook]; [lia|].
    rewrite seq_S, foldl_app. cbn [foldl Nat.add].
    destruct (lookup_lt_is_Some_2 files n) as [fn Hfn]; [lia|].
    destruct (lookup_lt_is_Some_2 results n) as [rn Hrn]; [lia|].
    assert (Hstep : forall M, pairStep files results M n = <[fn := rn]> M)
      by (intros M; unfold pairStep; by rewrite Hfn, Hrn).
    rewrite Hstep, (take_S_r _ _ _ Hfn).
    split.
    + rewrite dom_insert_L, IHdom, list_to_set_app_L. simpl.
      rewrite (right_id_L ∅ (∪)). apply (comm_L (∪)).
    + intros i f Hi Hf Hnot.
      assert (length (take n files) = n) as Hlen by (rewrite length_take; lia).
      destruct (decide (i = n)) as [->|Hne].
      * assert (f = fn) as -> by congruence.
        by rewrite lookup_insert_eq.
      * rewrite drop_app_le in Hnot by lia.
        apply not_elem_of_app in Hnot as [Hnot1 Hnot2].
        rewrite lookup_insert_ne; [apply IHlook; [lia|done|done]|].
        intros ->. apply Hnot2. by apply list_elem_of_singleton.
Qed.

Lemma buildInputParts_world env files acc w :
  fst (buildInputParts env files acc w) = w.
Proof.
  revert acc. induction files as [|f rest IH]; intros acc; simpl; [done|].
  unfold bind, await. destruct (readFile env f); simpl; [apply IH | done].
Qed.

Lemma identifyUnformatted_sub env filePaths (formattedMap : gmap string string)
    acc w w' out :
  identifyUnformatted env filePaths formattedMap acc w = (w', Returned out) ->
  w' = w /\ forall f, f ∈ out -> f ∈ acc \/ is_Some (formattedMap !! f).
Proof.
  revert acc. induction filePaths as [|fp rest IH]; intros acc; simpl.
  - unfold ret. intros [= <- <-]. split; [done | by left].
  - unfold bind, await. destruct (readFile env fp) as [orig|]; [|done].
    destruct (formattedMap !! fp) as [fc|] eqn:Hfc; [|apply IH].
    destruct (_ && _).
    + intros H. apply IH in H as [-> H]. split; [done|].
      intros f Hf. destruct (H f Hf) as [Hin|Hin]; [|by right].
      apply elem_of_app in Hin as [Hin|Hin]; [by left|].
      right. apply list_elem_of_singleton in Hin as ->. by rewrite Hfc.
    + apply IH.
Qed.

(** C10. [formatFiles] pairs the input paths with the non-empty segments
    of the formatter's output by position: the keys of the returned map are
    the first [min n k] paths, each mapped to the segment at its index (at
    its last index, should a path occur twice); the empty list gives the
    empty map without running the formatter; a path beyond the segments is
    absent from the map and the caller does not count it as unformatted. *)
Theorem formatFiles_positional (env : Env) (files : list string)
    (w w' : World) (formattedMap : gmap string string) :
  formatFiles env files w = (w', Returned formattedMap) ->
  (files = [] -> formattedMap = ∅ /\ w' = w) /\
  exists results,
    (files <> [] ->
     exists input stdout,
       pipeFiles env input = Returned stdout /\
       formatterInputs w' = formatterInputs w ++ [input] /\
       results = List.filter (fun s => negb (String.length s =? 0)%nat) (split ETX stdout)) /\
    let m := Nat.min (length files) (length results) in
    dom formattedMap = list_to_set (take m files) /\
    (forall i f, (i < m)%nat -> files !! i = Some f ->
                 f ∉ drop (S i) (take m files) -> formattedMap !! f = results !! i) /\
    (forall f, f ∉ take m files -> formattedMap !! f = None) /\
    (forall filePaths w1 w2 unformattedFiles,
        identifyUnformatted env filePaths formattedMap [] w1
          = (w2, Returned unformattedFiles) ->
        forall f, f ∈ unformattedFiles -> f ∈ take m files).
Proof.
  unfold formatFiles. intros Hrun.
  assert (Hkey : exists results,
    (files <> [] ->
     exists input stdout,
       pipeFiles env input = Returned stdout /\
       formatterInputs w' = formatterInputs w ++ [input] /\
       results = List.filter (fun s => negb (String.length s =? 0)%nat) (split ETX stdout)) /\
    (files = [] -> w' = w) /\
    formattedMap = pairResults files results).
  { destruct files as [|f0 rest].
    - simpl in Hrun. unfold ret in Hrun. injection Hrun as <- <-.
      exists []. split; [done|]. split; [done|]. reflexivity.
    - cbn [length Nat.eqb] in Hrun. unfold bind in Hrun.
      pose proof (buildInputParts_world env (f0 :: rest) [] w) as Hw.
      destruct (buildInputParts env (f0 :: rest) [] w) as [w1 [parts|msg]];
        simpl in Hw; subst w1; [|done].
      unfold execPipeFiles in Hrun.
      destruct (pipeFiles env (join "" parts)) as [stdout|msg] eqn:Hpipe; [|done].
      unfold ret in Hrun. injection Hrun as <- <-.
      eexists. split; [|split; [done | reflexivity]].
      intros _. exists (join "" parts), stdout. by rewrite Hpipe. }
  destruct Hkey as (results & Hres & Hnil & ->).
  split.
  { intros ->. split; [reflexivity | by apply Hnil]. }
  exists results. split; [done|].
  pose proof (pairResults_prefix files results
                (Nat.min (length files) (length results)) (Nat.le_refl _)) as [Hdom Hlook].
  fold (pairResults files results) in Hdom, Hlook.
  assert (Habsent : forall f,
            f ∉ take (Nat.min (length files) (length results)) files ->
            pairResults files results !! f = None).
  { intros f Hf. apply not_elem_of_dom. rewrite Hdom. set_solver. }
  cbv zeta. split; [done|]. split; [done|]. split; [done|].
  intros filePaths w1 w2 unformattedFiles Hid f Hf.
  apply identifyUnformatted_sub in Hid as [_ Hid].
  destruct (Hid f Hf) as [Hin|Hin]; [by apply elem_of_nil in Hin|].
  apply elem_of_dom in Hin. by rewrite Hdom, elem_of_list_to_set in Hin.
Qed.

Lemma formatFiles_positional_witness :
  exists w' formattedMap,
    formatFiles envOneSegment ["a.cs"; "b.cs"] emptyWorld = (w', Returned formattedMap) /\
    formattedMap !! "a.cs" = Some "formatted a" /\
    formattedMap !! "b.cs" = None.
Proof.
  destruct (formatFiles envOneSegment ["a.cs"; "b.cs"] emptyWorld)
    as [w' [formattedMap|message]] eqn:Hrun; [|vm_compute in Hrun; discriminate].
  exists w', formattedMap. split; [reflexivity|].
  destruct (formatFiles_positional envOneSegment ["a.cs"; "b.cs"] emptyWorld _ _ Hrun)
    as (_ & results & Hres & _ & Hlook & Habsent & _).
  destruct Hres as (input & stdout & Hpipe & _ & ->); [done|].
  injection Hpipe as <-.
  split.
  - apply (Hlook 0%nat); [vm_compute; lia | reflexivity | vm_compute; apply not_elem_of_nil].
  - apply Habsent. vm_compute. intros H. apply list_elem_of_singleton in H. discriminate.
Defined.

(** ** Reasoning about effects *)

Lemma emits_ret {A} P (a : A) : emits P (ret a).
Proof. intros w. exists []. by rewrite app_nil_r. Qed.

Lemma emits_await {A} P (o : Outcome A) : emits P (await o).
Proof. intros w. exists []. by rewrite app_nil_r. Qed.

Lemma emits_warning P x : emits P (warning x).
Proof. intros w. exists []. simpl. by rewrite app_nil_r. Qed.

Lemma emits_setFailed P x : emits P (setFailed x).
Proof. intros w. exists []. simpl. by rewrite app_nil_r. Qed.

Lemma emits_callApi (P : ApiCall -> Prop) env c : P c -> emits P (callApi env c).
Proof.
  intros Hc w. exists [c]. unfold callApi.
  destruct (apiFailure env _); simpl; split; auto.
Qed.

Lemma emits_bind {A B} P (m : Eff A) (k : A -> Eff B) :
  emits P m -> (forall a, emits P (k a)) -> emits P (bind m k).
Proof.
  intros Hm Hk w. unfold bind.
  destruct (Hm w) as (s1 & E1 & F1).
  destruct (m w) as [w1 [a|e]]; simpl in *.
  - destruct (Hk a w1) as (s2 & E2 & F2).
    exists (s1 ++ s2). rewrite E2, E1, app_assoc. split; [done | by apply Forall_app].
  - by exists s1.
Qed.

Lemma emits_tryCatch {A} P (m : Eff A) (h : string -> Eff A) :
  emits P m -> (forall e, emits P (h e)) -> emits P (tryCatch m h).
Proof.
  intros Hm Hh w. unfold tryCatch.
  destruct (Hm w) as (s1 & E1 & F1).
  destruct (m w) as [w1 [a|e]]; simpl in *.
  - by exists s1.
  - destruct (Hh e w1) as (s2 & E2 & F2).
    exists (s1 ++ s2). rewrite E2, E1, app_assoc. split; [done | by apply Forall_app].
Qed.

Lemma emits_forEach {X} P (l : list X) (body : X -> Eff unit) :
  (forall x, x ∈ l -> emits P (body x)) -> emits P (forEach l body).
Proof.
  induction l as [|x rest IH]; intros Hb; simpl.
  - apply emits_ret.
  - apply emits_bind; [apply Hb; left|].
    intros _. apply IH. intros y Hy. apply Hb. by right.
Qed.

Lemma emits_mono {A} (P Q : ApiCall -> Prop) (m : Eff A) :
  (forall c, P c -> Q c) -> emits P m -> emits Q m.
Proof.
  intros HPQ Hm w. destruct (Hm w) as (s & E & F).
  exists s. split; [done|]. eapply Forall_impl; eauto.
Qed.

(** A loop of bare calls sends them up to the first rejection. *)
Lemma forEach_callApi {X} env (f : X -> ApiCall) (l : list X) w :
  forEach l (fun x => callApi env (f x)) w =
  let r := attempted (apiFailure env) (length (calls w)) (f <$> l) in
  (addCalls w (fst r), outcomeOf (snd r)).
Proof.
  revert w. induction l as [|x rest IH]; intros w; simpl.
  - unfold ret, addCalls. rewrite app_nil_r. by destruct w.
  - unfold bind, callApi.
    destruct (apiFailure env (length (calls w))) as [e|] eqn:Hf; [done|].
    rewrite IH. simpl. rewrite length_app. simpl.
    replace (length (calls w) + 1)%nat with (S (length (calls w))) by lia.
    destruct (attempted _ _ _) as [sent e]. simpl.
    unfold addCalls. simpl. by rewrite <- app_assoc.
Qed.

Lemma attempted_noFailure fails n cs :
  (forall k, fails k = None) -> attempted fails n cs = (cs, None).
Proof.
  intros Hf. revert n. induction cs as [|c rest IH]; intros n; simpl; [done|].
  by rewrite Hf, IH.
Qed.

Lemma addCalls_nil w : addCalls w [] = w.
Proof. destruct w. unfold addCalls. simpl. by rewrite app_nil_r. Qed.

(** ** [resolveFixedComments] *)

Lemma resolveFixedComments_calls env context existingComments fixedFiles w :
  pull_request context <> None ->
  resolveFixedComments env context existingComments fixedFiles w =
  let r := attempted (apiFailure env) (length (calls w))
             (replyTo <$> toResolve existingComments fixedFiles) in
  (addCalls w (fst r), outcomeOf (snd r)).
Proof.
  intros Hpr. unfold resolveFixedComments.
  destruct (pull_request context); [|done].
  fold (toResolve existingComments fixedFiles).
  destruct (toResolve existingComments fixedFiles) as [|c rest] eqn:Hto.
  - simpl. unfold ret. by rewrite addCalls_nil.
  - cbn [length Nat.eqb]. apply (forEach_callApi env replyTo).
Qed.

(** ** What a pass of [createViolationComments] sends *)

Lemma Recreate_pass_emits env context filePath commitSha formattedContent existingComments :
  emits (fun call => isCreate call = true \/
                     exists x, x ∈ existingComments /\ isResolved x = false /\
                               call = DeleteReviewComment (id x))
        (Recreate.createViolationComments env context filePath commitSha
           formattedContent existingComments).
Proof.
  unfold Recreate.createViolationComments.
  destruct (pull_request context); [|apply emits_ret].
  apply emits_tryCatch; [|intros; apply emits_warning].
  apply emits_bind; [apply emits_await|]. intros files.
  destruct (List.find _ files) as [file|]; [|apply emits_warning].
  destruct (patch file) as [[|ch prPatch]|]; try apply emits_warning.
  apply emits_bind; [apply emits_await|]. intros originalContent.
  destruct (_ =? _)%nat; [apply emits_ret|].
  apply emits_bind.
  - apply emits_forEach. intros x Hx.
    apply list_elem_of_In, filter_In in Hx as [Hx Hres].
    apply emits_tryCatch; [|intros; apply emits_warning].
    apply emits_callApi. right. exists x.
    split; [by apply list_elem_of_In|]. split; [by destruct (isResolved x) | done].
  - intros _. apply emits_forEach. intros h _.
    unfold Recreate.createForHunk. destruct (_ =? 0); [apply emits_ret|].
    apply emits_callApi. by left.
Qed.

(** A pass never throws: whatever is rejected inside is caught. *)
Lemma Recreate_pass_returns env context filePath commitSha formattedContent
    existingComments w :
  snd (Recreate.createViolationComments env context filePath commitSha
         formattedContent existingComments w) = Returned tt.
Proof.
  unfold Recreate.createViolationComments.
  destruct (pull_request context); [|done].
  unfold tryCatch. destruct (bind _ _ w) as [w' [[]|e]]; done.
Qed.

Lemma filter_reply_other cid (l : list ViolationComment) :
  (forall x, x ∈ l -> id x <> cid) ->
  List.filter (isReplyTo cid) (replyTo <$> l) = [].
Proof.
  induction l as [|x rest IH]; intros Hne; simpl; [done|].
  destruct (Z.eqb_spec (id x) cid) as [Heq|_].
  - exfalso. apply (Hne x); [left | done].
  - apply IH. intros y Hy. apply Hne. by right.
Qed.

Lemma filter_reply_unique (l : list ViolationComment) (c : ViolationComment) :
  NoDup (id <$> l) -> c ∈ l ->
  List.filter (isReplyTo (id c)) (replyTo <$> l) = [replyTo c].
Proof.
  induction l as [|x rest IH]; intros Hnd Hc; [by apply elem_of_nil in Hc|].
  rewrite fmap_cons in Hnd. apply NoDup_cons in Hnd as [Hx Hnd].
  simpl. apply elem_of_cons in Hc as [->|Hc].
  - rewrite Z.eqb_refl. f_equal.
    apply filter_reply_other. intros y Hy Heq. apply Hx.
    rewrite <- Heq. apply list_elem_of_fmap. by exists y.
  - destruct (Z.eqb_spec (id x) (id c)) as [Heq|_]; [|by apply IH].
    exfalso. apply Hx. rewrite Heq. apply list_elem_of_fmap. by exists c.
Qed.

Lemma NoDup_fmap_filter {A B} (f : A -> B) (q : A -> bool) (l : list A) :
  NoDup (f <$> l) -> NoDup (f <$> List.filter q l).
Proof.
  induction l as [|x rest IH]; [done|].
  rewrite fmap_cons. intros Hnd. apply NoDup_cons in Hnd as [Hx Hnd].
  cbn [List.filter]. destruct (q x); [|by apply IH].
  rewrite fmap_cons. apply NoDup_cons. split; [|by apply IH].
  intros Hin. apply Hx. apply list_elem_of_fmap in Hin as (y & -> & Hy).
  apply list_elem_of_fmap. exists y. split; [done|].
  apply list_elem_of_In, filter_In in Hy as [Hy _]. by apply list_elem_of_In.
Qed.

Lemma NoDup_fmap_inj_on {A B} (f : A -> B) (l : list A) x y :
  NoDup (f <$> l) -> x ∈ l -> y ∈ l -> f x = f y -> x = y.
Proof.
  induction l as [|z rest IH]; intros Hnd Hx Hy Heq; [by apply elem_of_nil in Hx|].
  rewrite fmap_cons in Hnd. apply NoDup_cons in Hnd as [Hz Hnd].
  apply elem_of_cons in Hx as [->|Hx]; apply elem_of_cons in Hy as [->|Hy]; auto.
  - exfalso. apply Hz. rewrite Heq. apply list_elem_of_fmap. by exists y.
  - exfalso. apply Hz. rewrite <- Heq. apply list_elem_of_fmap. by exists x.
Qed.

Lemma toResolve_fixedFiles existingComments (unformattedFiles : list string) :
  toResolve existingComments
    (List.filter (fun file => negb (bool_decide (file ∈ unformattedFiles)))
                 (path <$> existingComments)) =
  List.filter (fun c => negb (isResolved c) && negb (bool_decide (path c ∈ unformattedFiles)))
              existingComments.
Proof.
  unfold toResolve. apply filter_ext_in. intros c Hc. f_equal.
  rewrite <- bool_decide_not.
  apply bool_decide_ext. rewrite list_elem_of_In, filter_In, negb_true_iff.
  rewrite bool_decide_eq_false. split; [tauto|].
  intros Hn. split; [|done]. apply list_elem_of_In, list_elem_of_fmap.
  exists c. split; [done | by apply list_elem_of_In].
Qed.

Lemma toResolve_nil existingComments : toResolve existingComments [] = [].
Proof.
  unfold toResolve. induction existingComments as [|c rest IH]; simpl; [done|].
  by rewrite andb_false_r.
Qed.

(** ** Invisible hunks *)

(** X17. A hunk whose anchor line is not among the line numbers the walk
    of the mapper counts (one for every [add] and [normal] entry of the
    parsed chunks) maps to [0]; the loop body of either revision then
    sends nothing, logs nothing and completes, so the pass goes on as if
    the hunk were not in the list. *)
Theorem invisible_hunk_skipped (env : Env) (prPatch filePath commitSha : string)
    (existingComments : list ViolationComment) (hunk : FormattingHunk) :
  lineNumber hunk ∉ visibleLines (parseDiff env prPatch) ->
  findLineInPRDiff (parseDiff env) prPatch (lineNumber hunk) = 0 /\
  (forall w, Recreate.createForHunk env prPatch filePath commitSha hunk w
             = (w, Returned tt)) /\
  (forall w, SubHunks.reconcileHunk env prPatch filePath commitSha existingComments hunk w
             = (w, Returned tt)) /\
  (forall before after w,
      forEach (before ++ hunk :: after)
              (Recreate.createForHunk env prPatch filePath commitSha) w
      = forEach (before ++ after)
                (Recreate.createForHunk env prPatch filePath commitSha) w).
Proof.
  intros Habsent.
  assert (H0 : findLineInPRDiff (parseDiff env) prPatch (lineNumber hunk) = 0).
  { rewrite findLineInPRDiff_visible. by rewrite bool_decide_eq_false_2. }
  assert (Hskip : forall w, Recreate.createForHunk env prPatch filePath commitSha hunk w
                            = (w, Returned tt)).
  { intros w. unfold Recreate.createForHunk. by rewrite H0. }
  split; [done|]. split; [done|]. split.
  - intros w. unfold SubHunks.reconcileHunk. by rewrite H0.
  - intros before after. induction before as [|h rest IH]; intros w; simpl.
    + unfold bind. by rewrite Hskip.
    + unfold bind. destruct (Recreate.createForHunk _ _ _ _ h w) as [w1 [[]|e]]; [|done].
      apply IH.
Qed.

Lemma invisible_hunk_skipped_witness :
  findLineInPRDiff (parseDiff envOutsideDiff) outsidePatch 1 = 0 /\
  Recreate.createForHunk envOutsideDiff outsidePatch "test.cs" "abc123" hunkAtLine1 emptyWorld
  = (emptyWorld, Returned tt).
Proof.
  destruct (invisible_hunk_skipped envOutsideDiff outsidePatch "test.cs" "abc123" []
              hunkAtLine1) as (Hzero & Hskip & _).
  - refine (bool_decide_unpack _ _). vm_compute. exact I.
  - split; [exact Hzero | apply Hskip].
Defined.

(** C7 fails where the patch ends in [\ No newline at end of file]:
    [parse-diff] hands that marker on as one more [add] entry, the walk
    counts it as a line, and line 3 of a patch that shows the lines 1 and
    2 is mapped to 3; the loop body sends a creation for it. *)
Lemma marker_line_is_mapped :
  parseDiff envMarker markerPatch = [mkDiffFile [markerChunk]] /\
  shownLines markerChunk = [1; 2] /\
  findLineInPRDiff (parseDiff envMarker) markerPatch (lineNumber hunkAtLine3) = 3 /\
  Recreate.createForHunk envMarker markerPatch "m.cs" "abc123" hunkAtLine3 emptyWorld
  = (addCalls emptyWorld
       [createCall "abc123" "m.cs" (3, Recreate.commentBody "d" "m.cs")],
     Returned tt).
Proof. repeat split; vm_compute; reflexivity. Qed.

(** ** The loops of the delete-and-recreate pass *)

Lemma Recreate_delete_loop env (cs : list ViolationComment) w :
  forEach cs (Recreate.deleteComment env) w =
  (addWarnings (addCalls w ((fun c => DeleteReviewComment (id c)) <$> cs))
               (deleteWarnings (apiFailure env) (length (calls w)) cs),
   Returned tt).
Proof.
  revert w. induction cs as [|c rest IH]; intros w.
  - simpl. unfold ret, addWarnings, addCalls. simpl. rewrite !app_nil_r. by destruct w.
  - cbn [forEach]. unfold bind.
    assert (Hdel : Recreate.deleteComment env c w =
                   (addWarnings (addCalls w [DeleteReviewComment (id c)])
                      (match apiFailure env (length (calls w)) with
                       | Some e => [WarnFailedToDelete (id c) e]
                       | None => []
                       end), Returned tt)).
    { unfold Recreate.deleteComment, tryCatch, callApi, warning, addWarnings, addCalls.
      destruct (apiFailure env (length (calls w))); simpl; [done|].
      by rewrite app_nil_r. }
    rewrite Hdel, IH. f_equal.
    unfold addWarnings, addCalls. simpl. rewrite length_app. simpl.
    replace (length (calls w) + 1)%nat with (S (length (calls w))) by lia.
    destruct (apiFailure env (length (calls w))); simpl;
      rewrite <- !app_assoc; simpl; try done.
Qed.

Lemma Recreate_create_loop env prPatch filePath commitSha hunks w :
  forEach hunks (Recreate.createForHunk env prPatch filePath commitSha) w =
  forEach (Recreate.desired env prPatch filePath hunks)
          (fun d => callApi env (createCall commitSha filePath d)) w.
Proof.
  revert w. induction hunks as [|h rest IH]; intros w; [done|].
  unfold Recreate.desired. cbn [forEach List.filter].
  unfold Recreate.createForHunk at 1.
  destruct (findLineInPRDiff (parseDiff env) prPatch (lineNumber h) =? 0) eqn:Hz.
  - unfold bind at 1, ret. apply IH.
  - cbn [negb fmap list_fmap forEach]. unfold bind.
    unfold createCall at 1. cbn [fst snd].
    destruct (callApi env _ w) as [w1 [[]|e]]; [apply IH | done].
Qed.

(** The pass, when it reaches its loops: every unresolved annotation is
    sent a delete, then the desired annotations are created up to the
    first rejected creation. *)
Lemma Recreate_pass_main env context filePath commitSha formattedContent
    existingComments prPatch hunks w :
  pull_request context <> None ->
  Recreate.passInput env filePath formattedContent = Some (prPatch, hunks) ->
  let unresolved := List.filter (fun c => negb (isResolved c)) existingComments in
  let w1 := addWarnings (addCalls w ((fun c => DeleteReviewComment (id c)) <$> unresolved))
                        (deleteWarnings (apiFailure env) (length (calls w)) unresolved) in
  let created := attempted (apiFailure env) (length (calls w1))
                   (createCall commitSha filePath
                      <$> Recreate.desired env prPatch filePath hunks) in
  Recreate.createViolationComments env context filePath commitSha formattedContent
    existingComments w =
  (match snd created with
   | Some e => addWarnings (addCalls w1 (fst created)) [WarnFailedToCreate filePath e]
   | None => addCalls w1 (fst created)
   end, Returned tt).
Proof.
  intros Hpr Hin unresolved w1 created.
  unfold Recreate.createViolationComments, Recreate.passInput in *.
  destruct (pull_request context); [|done].
  unfold tryCatch, bind at 1, await.
  destruct (listFiles env) as [files|]; [|done].
  destruct (List.find _ files) as [file|]; [|done].
  destruct (patch file) as [[|ch pt]|]; try done.
  unfold bind at 1.
  destruct (readFile env filePath) as [originalContent|]; [|done].
  destruct (_ =? _)%nat; [done|]. injection Hin as <- <-.
  unfold bind. fold unresolved. rewrite Recreate_delete_loop. fold w1.
  rewrite Recreate_create_loop, forEach_callApi. fold created. cbv zeta.
  destruct (snd created); simpl; [|done].
  unfold warning, addWarnings. by simpl.
Qed.

(** ** Rejected calls *)

(** A rejected reply ends the run: the error reaches [run]'s own [catch],
    which reports it; no file is reconciled. *)
Lemma run_stops_at_rejected_reply createVC env context filePaths existingComments
    (formattedMap : gmap string string) unformattedFiles e w :
  pull_request context <> None ->
  identifyUnformatted env filePaths formattedMap [] w = (w, Returned unformattedFiles) ->
  let fixedFiles :=
    List.filter (fun file => negb (bool_decide (file ∈ unformattedFiles)))
                (path <$> existingComments) in
  let replied := attempted (apiFailure env) (length (calls w))
                   (replyTo <$> toResolve existingComments fixedFiles) in
  snd replied = Some e ->
  reconcileRun createVC env context filePaths existingComments formattedMap w
  = (mkWorld (calls w ++ fst replied) (warnings w) (formatterInputs w)
             (failed w ++ [RunError e]),
     Returned tt).
Proof.
  intros Hpr Hid fixedFiles replied He.
  unfold reconcileRun. destruct (pull_request context) as [pr|] eqn:Hctx; [|done].
  unfold tryCatch, bind at 1. rewrite Hid. fold fixedFiles. unfold bind at 1.
  destruct (0 <? length fixedFiles)%nat eqn:Hlen.
  - rewrite resolveFixedComments_calls by congruence. fold replied.
    cbv zeta. rewrite He. reflexivity.
  - apply Nat.ltb_ge in Hlen. destruct fixedFiles; [|simpl in Hlen; lia].
    unfold replied in He. by rewrite toResolve_nil in He.
Qed.

(** ** Hunk extraction: the change blocks *)

Lemma foldl_app_concat {A B} (f : A -> list B) (acc : list B) (l : list A) :
  foldl (fun hunks h => hunks ++ f h) acc l = acc ++ concat (f <$> l).
Proof.
  revert acc. induction l as [|x rest IH]; intros acc; simpl.
  - by rewrite app_nil_r.
  - by rewrite IH, app_assoc.
Qed.

Lemma scanStep_inChangeBlock st i line :
  SubHunks.inChangeBlock (SubHunks.scanStep st i line) = isChangeLine line.
Proof.
  unfold SubHunks.scanStep.
  destruct (isChangeLine line), (SubHunks.inChangeBlock st) eqn:Hin, (isNewFileLine line);
    simpl; done.
Qed.

Lemma scanStep_count st i line :
  (length (SubHunks.changes (SubHunks.scanStep st i line))
   + (if isChangeLine line then 1 else 0)
   = length (SubHunks.changes st) + (if SubHunks.inChangeBlock st then 1 else 0)
     + (if isChangeLine line && negb (SubHunks.inChangeBlock st) then 1 else 0))%nat.
Proof.
  unfold SubHunks.scanStep.
  destruct (isChangeLine line), (SubHunks.inChangeBlock st), (isNewFileLine line);
    simpl; rewrite ?length_app; simpl; lia.
Qed.

Lemma scanLines_count ls i st :
  let final := SubHunks.scanLines i ls st in
  (length (SubHunks.changes final) + (if SubHunks.inChangeBlock final then 1 else 0)
   = length (SubHunks.changes st) + (if SubHunks.inChangeBlock st then 1 else 0)
     + countRuns (SubHunks.inChangeBlock st) ls)%nat.
Proof.
  revert i st. induction ls as [|line rest IH]; intros i st; simpl; [lia|].
  rewrite IH, scanStep_inChangeBlock.
  pose proof (scanStep_count st i line). lia.
Qed.

Lemma changeBlocks_count hunk :
  length (SubHunks.changeBlocks hunk) = countRuns false (lines hunk).
Proof.
  unfold SubHunks.changeBlocks.
  pose proof (scanLines_count (lines hunk) 0
                (SubHunks.mkScanState [] (newStart hunk) false 0 0)) as H.
  simpl in H.
  destruct (SubHunks.inChangeBlock _); [rewrite length_app; simpl|]; lia.
Qed.

Lemma lineAt_Some ls i l : lineAt ls i = Some l -> 0 <= i < Z.of_nat (length ls).
Proof.
  unfold lineAt. destruct (Z.ltb_spec i 0); [done|].
  intros Hl. apply lookup_lt_Some in Hl. lia.
Qed.

Lemma lineAt_middle (pre rest : list string) line :
  lineAt (pre ++ line :: rest) (Z.of_nat (length pre)) = Some line.
Proof.
  unfold lineAt. destruct (Z.ltb_spec (Z.of_nat (length pre)) 0); [lia|].
  rewrite Nat2Z.id. by rewrite list_lookup_middle.
Qed.

Lemma scanStep_changes st i line :
  SubHunks.changes (SubHunks.scanStep st i line) =
  if negb (isChangeLine line) && SubHunks.inChangeBlock st
  then SubHunks.changes st ++
       [SubHunks.mkChangeBlock (SubHunks.changeStartLine st)
          (SubHunks.changeStartIndex st) (i - 1)]
  else SubHunks.changes st.
Proof.
  unfold SubHunks.scanStep.
  destruct (isChangeLine line), (SubHunks.inChangeBlock st) eqn:Hin, (isNewFileLine line);
    simpl; done.
Qed.

Lemma scanStep_changeStartIndex st i line :
  SubHunks.changeStartIndex (SubHunks.scanStep st i line) =
  if isChangeLine line && negb (SubHunks.inChangeBlock st)
  then i else SubHunks.changeStartIndex st.
Proof.
  unfold SubHunks.scanStep.
  destruct (isChangeLine line), (SubHunks.inChangeBlock st) eqn:Hin, (isNewFileLine line);
    simpl; done.
Qed.

Lemma scanStep_invariant (pre rest : list string) line st :
  let all := pre ++ line :: rest in
  let n := Z.of_nat (length pre) in
  scanInvariant all n st ->
  scanInvariant all (n + 1) (SubHunks.scanStep st n line).
Proof.
  intros all n (Hclosed & Hopen & Hprev).
  pose proof (lineAt_middle pre rest line) as Hline. fold all n in Hline.
  unfold scanInvariant.
  rewrite scanStep_changes, scanStep_inChangeBlock, scanStep_changeStartIndex.
  replace (n + 1 - 1) with n by lia.
  destruct (isChangeLine line) eqn:Hch, (SubHunks.inChangeBlock st) eqn:Hin; simpl.
  - (* the open block goes on *)
    destruct (Hopen eq_refl) as (Hb & Hall & Hleft).
    split; [done|]. split; [|done]. intros _.
    split; [lia|]. split; [|done].
    intros i Hi. destruct (decide (i = n)) as [->|Hne]; [by exists line|].
    apply Hall. lia.
  - (* a block opens at [n] *)
    split; [done|]. split; [|done]. intros _.
    split; [lia|]. split.
    + intros i Hi. assert (i = n) as -> by lia. by exists line.
    + by apply Hprev.
  - (* the open block closes at [n - 1] *)
    destruct (Hopen eq_refl) as (Hb & Hall & Hleft).
    split; [|split; [done|]].
    + apply Forall_app. split; [done|]. apply Forall_singleton. simpl.
      unfold isMaximalRun. split; [lia|]. split.
      { apply lineAt_Some in Hline. lia. }
      split; [intros i Hi; apply Hall; lia|]. split; [done|].
      replace (n - 1 + 1) with n by lia. intros l Hl. congruence.
    + intros _ l Hl. congruence.
  - (* no block is open *)
    split; [done|]. split; [done|]. intros _ l Hl. congruence.
Qed.

Lemma scanLines_invariant (rest pre : list string) st :
  scanInvariant (pre ++ rest) (Z.of_nat (length pre)) st ->
  scanInvariant (pre ++ rest) (Z.of_nat (length (pre ++ rest)))
                (SubHunks.scanLines (Z.of_nat (length pre)) rest st).
Proof.
  revert pre st. induction rest as [|line rest IH]; intros pre st Hinv; simpl.
  - by rewrite app_nil_r in *.
  - apply scanStep_invariant in Hinv.
    specialize (IH (pre ++ [line]) (SubHunks.scanStep st (Z.of_nat (length pre)) line)).
    rewrite <- app_assoc, length_app in IH. simpl in IH.
    replace (Z.of_nat (length pre + 1)) with (Z.of_nat (length pre) + 1) in IH by lia.
    by apply IH.
Qed.

(** Every change block of a hunk is a maximal run of change lines. *)
Lemma changeBlocks_maximal hunk :
  Forall (fun b => isMaximalRun (lines hunk) (SubHunks.startIndex b) (SubHunks.endIndex b))
         (SubHunks.changeBlocks hunk).
Proof.
  unfold SubHunks.changeBlocks.
  pose proof (scanLines_invariant (lines hunk) []
                (SubHunks.mkScanState [] (newStart hunk) false 0 0)) as Hinv.
  simpl in Hinv. change (Z.of_nat 0) with 0 in Hinv.
  destruct Hinv as (Hclosed & Hopen & _).
  { split; [done|]. split; [done|]. intros _ l Hl. apply lineAt_Some in Hl. lia. }
  destruct (SubHunks.inChangeBlock _) eqn:Hin; [|done].
  destruct (Hopen eq_refl) as (Hb & Hall & Hleft).
  apply Forall_app. split; [done|]. apply Forall_singleton. simpl.
  unfold isMaximalRun. split; [lia|]. split; [lia|].
  split; [intros i Hi; apply Hall; lia|]. split; [done|].
  intros l Hl. apply lineAt_Some in Hl. lia.
Qed.

(** X16. In the sub-hunk revision, extraction yields one [FormattingHunk]
    per maximal run of change lines of every hunk of the line diff: as
    many as there are runs, each built from a block that covers exactly
    one run. On the hunk that the diff of A,B,C,D,E against A,X,C,Y,E
    consists of, that is two. *)
Theorem split_correctness (structuredPatch : string -> string -> string -> list Hunk)
    (originalContent formattedContent filePath : string) :
  let hunks := structuredPatch filePath originalContent formattedContent in
  let extracted :=
    SubHunks.generateFormattingHunks structuredPatch
      originalContent formattedContent filePath in
  length extracted = sum_list ((fun h => countRuns false (lines h)) <$> hunks) /\
  (forall fh, fh ∈ extracted ->
     exists h b, h ∈ hunks /\ fh = SubHunks.subHunk h b /\
                 isMaximalRun (lines h) (SubHunks.startIndex b) (SubHunks.endIndex b)) /\
  countRuns false (lines splitHunk) = 2%nat /\
  (structuredPatch filePath splitOriginal splitFormatted = [splitHunk] ->
   length (SubHunks.generateFormattingHunks structuredPatch
             splitOriginal splitFormatted filePath) = 2%nat).
Proof.
  intros hunks extracted. subst extracted.
  unfold SubHunks.generateFormattingHunks. fold hunks.
  rewrite foldl_app_concat. simpl.
  split; [|split; [|split]].
  - induction hunks as [|h rest IH]; [done|].
    rewrite !fmap_cons. simpl. rewrite length_app, IH. f_equal.
    unfold SubHunks.hunkFormattingHunks. rewrite length_fmap.
    apply changeBlocks_count.
  - intros fh Hfh. apply list_elem_of_In, in_concat in Hfh as (fhs & Hfhs & Hfh).
    apply list_elem_of_In in Hfh, Hfhs.
    apply list_elem_of_fmap in Hfhs as (h & -> & Hh).
    unfold SubHunks.hunkFormattingHunks in Hfh.
    apply list_elem_of_fmap in Hfh as (b & -> & Hb).
    exists h, b. split; [done|]. split; [done|].
    pose proof (changeBlocks_maximal h) as Hmax.
    rewrite Forall_forall in Hmax. by apply Hmax.
  - reflexivity.
  - intros ->. reflexivity.
Qed.

(** C2 fails on [generateFormattingHunks] of [comment-manager.ts], whose
    docstring promises the split: on the diff of A,B,C,D,E against
    A,X,C,Y,E, one hunk with two runs of change lines, it yields a single
    [FormattingHunk], anchored at line 2 with the content X, Y. The
    sub-hunk revision yields two on the same input. *)
Lemma one_hunk_for_two_runs :
  structuredPatch envSplit "split.cs" splitOriginal splitFormatted = [splitHunk] /\
  countRuns false (lines splitHunk) = 2%nat /\
  Recreate.generateFormattingHunks (structuredPatch envSplit)
    splitOriginal splitFormatted "split.cs"
  = [mkFormattingHunk 2 ("X" +:+ nl +:+ "Y") (1, 5)] /\
  length (SubHunks.generateFormattingHunks (structuredPatch envSplit)
            splitOriginal splitFormatted "split.cs") = 2%nat.
Proof. repeat split; vm_compute; reflexivity. Qed.

(** ** Hunk extraction: the suggested content *)

Lemma newSide_app l1 l2 : newSide (l1 ++ l2) = newSide l1 ++ newSide l2.
Proof. unfold newSide. by rewrite List.filter_app, fmap_app. Qed.

Lemma collect_from (ls : list string) (hunk : Hunk) (k a : nat) (acc : list string) :
  lines hunk = ls ->
  foldl (fun formattedLines i =>
           match lineAt (lines hunk) i with
           | Some line =>
               if isNewFileLine line then formattedLines ++ [substring1 line]
               else formattedLines
           | None => formattedLines
           end)
        acc (seqZ (Z.of_nat a) (Z.of_nat k))
  = acc ++ newSide (take k (drop a ls)).
Proof.
  intros Hls. rewrite Hls. clear Hls hunk.
  revert a acc. induction k as [|k IH]; intros a acc.
  - simpl. by rewrite app_nil_r.
  - rewrite seqZ_cons by lia. cbn [foldl].
    replace (Z.succ (Z.of_nat a)) with (Z.of_nat (S a)) by lia.
    replace (Z.pred (Z.of_nat (S k))) with (Z.of_nat k) by lia.
    rewrite IH. unfold lineAt.
    destruct (Z.ltb_spec (Z.of_nat a) 0); [lia|]. rewrite Nat2Z.id.
    destruct (ls !! a) as [l|] eqn:Hl.
    + rewrite (drop_S _ _ _ Hl). cbn [take]. unfold newSide at 2.
      cbn [List.filter]. fold (newSide (take k (drop (S a) ls))).
      destruct (isNewFileLine l); [|done].
      rewrite fmap_cons. fold (newSide (take k (drop (S a) ls))).
      by rewrite <- app_assoc.
    + apply lookup_ge_None in Hl.
      rewrite !drop_ge by lia. by rewrite !take_nil.
Qed.

(** The content of a sub-hunk is the new side of its window. *)
Lemma subHunk_content hunk change :
  content (SubHunks.subHunk hunk change) = join nl (newSide (windowLines hunk change)).
Proof.
  unfold SubHunks.subHunk, windowLines. cbn [content]. f_equal.
  unfold SubHunks.collectFormatted, indexRange.
  set (a := SubHunks.windowStart change).
  set (b := SubHunks.windowEnd hunk change).
  assert (0 <= a) by (unfold a, SubHunks.windowStart; lia).
  destruct (Z.le_gt_cases (b - a + 1) 0) as [Hneg|Hpos].
  - replace (Z.to_nat (b - a + 1)) with 0%nat by lia.
    assert (seqZ a (b - a + 1) = []) as -> by (unfold seqZ; by replace (Z.to_nat (b - a + 1)) with 0%nat by lia).
    done.
  - pose proof (collect_from (lines hunk) hunk (Z.to_nat (b - a + 1)) (Z.to_nat a) []
                  eq_refl) as Hc.
    rewrite !Z2Nat.id in Hc by lia. exact Hc.
Qed.

Lemma slice_of_slice {A} (X Y Z L : list A) (o : nat) :
  X ++ Y ++ Z = take (length (X ++ Y ++ Z)) (drop o L) ->
  Y = take (length Y) (drop (o + length X) L).
Proof.
  intros Heq.
  assert (HY : Y = take (length Y) (drop (length X) (X ++ Y ++ Z))).
  { rewrite drop_app_length. by rewrite take_app_length. }
  rewrite HY at 1. rewrite Heq, skipn_firstn_comm, take_take, drop_drop.
  f_equal. rewrite !length_app. lia.
Qed.

Lemma append_nil_r (s : string) : s +:+ "" = s.
Proof.
  induction s as [|c t IH]; [done|].
  change (String c (t +:+ "") = String c t). by rewrite IH.
Qed.

Lemma append_assoc (s1 s2 s3 : string) : (s1 +:+ s2) +:+ s3 = s1 +:+ (s2 +:+ s3).
Proof.
  induction s1 as [|c t IH]; [done|].
  change (String c ((t +:+ s2) +:+ s3) = String c (t +:+ (s2 +:+ s3))). by rewrite IH.
Qed.

Lemma join_app sep (l1 l2 : list string) :
  l1 <> [] -> l2 <> [] ->
  join sep (l1 ++ l2) = join sep l1 +:+ sep +:+ join sep l2.
Proof.
  intros H1 H2. induction l1 as [|x [|y rest] IH]; [done| |].
  - destruct l2; [done|]. reflexivity.
  - change (join sep ((x :: y :: rest) ++ l2))
      with (x +:+ sep +:+ join sep ((y :: rest) ++ l2)).
    rewrite IH by done.
    change (join sep (x :: y :: rest)) with (x +:+ sep +:+ join sep (y :: rest)).
    by rewrite !append_assoc.
Qed.

Lemma split_nonempty sep s : split sep s <> [].
Proof.
  destruct s as [|c t]; simpl; [done|].
  case_bool_decide; [done|]. by destruct (split sep t).
Qed.

(** Splitting a text at its line feeds and joining the lines again gives
    the text back. *)
Lemma join_split (s : string) : join nl (split LF s) = s.
Proof.
  induction s as [|c t IH]; [reflexivity|].
  cbn [split]. case_bool_decide as Hc.
  - subst c. pose proof (split_nonempty LF t) as Hne.
    destruct (split LF t) as [|x xs]; [done|].
    change (join nl ("" :: x :: xs)) with ("" +:+ nl +:+ join nl (x :: xs)).
    rewrite IH. reflexivity.
  - pose proof (split_nonempty LF t) as Hne.
    destruct (split LF t) as [|x xs]; [done|].
    rewrite <- IH. destruct xs; reflexivity.
Qed.

(** The join of a run of consecutive lines is a contiguous part of the
    join of all lines. *)
Lemma join_infix (X Y Z : list string) :
  exists before after, join nl (X ++ Y ++ Z) = before +:+ join nl Y +:+ after.
Proof.
  destruct Y as [|y Y'].
  - exists (join nl (X ++ Z)), "". simpl. by rewrite append_nil_r.
  - destruct X as [|x X'], Z as [|z Z'].
    + exists "", "". rewrite app_nil_r, app_nil_l. by rewrite append_nil_r.
    + exists "", (nl +:+ join nl (z :: Z')). rewrite app_nil_l.
      by rewrite join_app.
    + exists (join nl (x :: X') +:+ nl), "". rewrite app_nil_r, join_app by done.
      by rewrite append_nil_r, append_assoc.
    + exists (join nl (x :: X') +:+ nl), (nl +:+ join nl (z :: Z')).
      rewrite join_app by done. rewrite (join_app nl (y :: Y')) by done.
      by rewrite !append_assoc.
Qed.

Lemma join_slice (L : list string) (a k : nat) :
  exists before after,
    join nl L = before +:+ join nl (take k (drop a L)) +:+ after.
Proof.
  destruct (join_infix (take a L) (take k (drop a L)) (drop k (drop a L)))
    as (before & after & Heq).
  exists before, after. by rewrite <- Heq, !take_drop.
Qed.

(** Whenever the hunks of the line diff carry the lines of the formatted
    text, the content of every [FormattingHunk] of the sub-hunk revision
    is the context and added lines of its context-padded window, joined by
    line feeds; these are consecutive lines of the formatted text. *)
Lemma SubHunks_content_slice (structuredPatch : string -> string -> string -> list Hunk)
    (originalContent formattedContent filePath : string) :
  (forall h, h ∈ structuredPatch filePath originalContent formattedContent ->
             matchesFormatted formattedContent h) ->
  forall fh,
    fh ∈ SubHunks.generateFormattingHunks structuredPatch
           originalContent formattedContent filePath ->
    exists h b,
      h ∈ structuredPatch filePath originalContent formattedContent /\
      b ∈ SubHunks.changeBlocks h /\
      fh = SubHunks.subHunk h b /\
      let window := windowLines h b in
      let firstLine :=
        (Z.to_nat (newStart h - 1)
         + length (newSide (take (Z.to_nat (SubHunks.windowStart b)) (lines h))))%nat in
      let slice :=
        take (length (newSide window)) (drop firstLine (split LF formattedContent)) in
      content fh = join nl (newSide window) /\
      content fh = join nl slice /\
      exists before after, formattedContent = before +:+ content fh +:+ after.
Proof.
  intros Hdiff fh Hfh.
  unfold SubHunks.generateFormattingHunks in Hfh.
  rewrite foldl_app_concat in Hfh. simpl in Hfh.
  apply list_elem_of_In, in_concat in Hfh as (fhs & Hfhs & Hfh).
  apply list_elem_of_In in Hfh, Hfhs.
  apply list_elem_of_fmap in Hfhs as (h & -> & Hh).
  unfold SubHunks.hunkFormattingHunks in Hfh.
  apply list_elem_of_fmap in Hfh as (b & -> & Hb).
  exists h, b. split; [done|]. split; [done|]. split; [done|].
  cbv zeta. rewrite subHunk_content.
  destruct (Hdiff h Hh) as [Hstart Hnew].
  set (ws := Z.to_nat (SubHunks.windowStart b)).
  set (k := Z.to_nat (SubHunks.windowEnd h b - SubHunks.windowStart b + 1)).
  assert (Hsplit : lines h = take ws (lines h) ++ windowLines h b
                             ++ drop k (drop ws (lines h))).
  { unfold windowLines. fold ws k. by rewrite !take_drop. }
  assert (Hslice : newSide (windowLines h b) =
                   take (length (newSide (windowLines h b)))
                        (drop (Z.to_nat (newStart h - 1) + length (newSide (take ws (lines h))))
                              (split LF formattedContent))).
  { apply (slice_of_slice _ _ (newSide (drop k (drop ws (lines h))))).
    rewrite <- !newSide_app, <- Hsplit. exact Hnew. }
  split; [done|]. split; [by rewrite <- Hslice|].
  rewrite Hslice.
  destruct (join_slice (split LF formattedContent)
              (Z.to_nat (newStart h - 1) + length (newSide (take ws (lines h))))
              (length (newSide (windowLines h b)))) as (before & after & Heq).
  exists before, after. by rewrite <- Heq, join_split.
Qed.


(** ** The in-place pass *)

Lemma callApi_noFailure env c w :
  noFailure env -> callApi env c w = (addCalls w [c], Returned tt).
Proof. intros Hnf. unfold callApi. by rewrite Hnf. Qed.

Lemma addCalls_app w l1 l2 : addCalls (addCalls w l1) l2 = addCalls w (l1 ++ l2).
Proof. unfold addCalls. simpl. by rewrite app_assoc. Qed.

Lemma SubHunks_desired_cons env prPatch filePath h rest :
  SubHunks.desired env prPatch filePath (h :: rest) =
  if findLineInPRDiff (parseDiff env) prPatch (lineNumber h) =? 0
  then SubHunks.desired env prPatch filePath rest
  else (findLineInPRDiff (parseDiff env) prPatch (lineNumber h),
        SubHunks.commentBody (content h) filePath)
       :: SubHunks.desired env prPatch filePath rest.
Proof.
  unfold SubHunks.desired. cbn [List.filter].
  by destruct (findLineInPRDiff (parseDiff env) prPatch (lineNumber h) =? 0).
Qed.

Lemma plan_cons commitSha filePath existingComments d ds :
  plan commitSha filePath existingComments (d :: ds) =
  planFor commitSha filePath existingComments d
  ++ plan commitSha filePath existingComments ds.
Proof. reflexivity. Qed.

Lemma SubHunks_loop env prPatch filePath commitSha existingComments hunks w :
  noFailure env ->
  forEach hunks (SubHunks.reconcileHunk env prPatch filePath commitSha existingComments) w
  = (addCalls w (plan commitSha filePath existingComments
                   (SubHunks.desired env prPatch filePath hunks)),
     Returned tt).
Proof.
  intros Hnf. revert w. induction hunks as [|h rest IH]; intros w.
  - simpl. unfold ret. by rewrite addCalls_nil.
  - cbn [forEach]. unfold bind. rewrite SubHunks_desired_cons.
    unfold SubHunks.reconcileHunk at 1.
    destruct (findLineInPRDiff (parseDiff env) prPatch (lineNumber h) =? 0) eqn:Hz.
    + unfold ret. apply IH.
    + rewrite plan_cons. unfold planFor, firstAt. cbn [fst snd].
      destruct (List.find _ existingComments) as [c|].
      * case_bool_decide.
        -- unfold ret. by rewrite IH.
        -- rewrite callApi_noFailure, IH by done. by rewrite addCalls_app.
      * rewrite callApi_noFailure, IH by done. by rewrite addCalls_app.
Qed.

Lemma SubHunks_pass_main env context filePath commitSha formattedContent
    existingComments prPatch hunks w :
  noFailure env ->
  pull_request context <> None ->
  SubHunks.passInput env filePath formattedContent = Some (prPatch, hunks) ->
  SubHunks.createViolationComments env context filePath commitSha formattedContent
    existingComments w
  = (addCalls w (plan commitSha filePath existingComments
                   (SubHunks.desired env prPatch filePath hunks)),
     Returned tt).
Proof.
  intros Hnf Hpr Hin.
  unfold SubHunks.createViolationComments, SubHunks.passInput in *.
  destruct (pull_request context); [|done].
  unfold tryCatch, bind at 1, await.
  destruct (listFiles env) as [files|]; [|done].
  destruct (List.find _ files) as [file|]; [|done].
  destruct (patch file) as [[|ch pt]|]; try done.
  unfold bind at 1.
  destruct (readFile env filePath) as [originalContent|]; [|done].
  destruct (_ =? _)%nat; [done|]. injection Hin as <- <-.
  by rewrite SubHunks_loop.
Qed.

Lemma firstAt_Some l cs c :
  firstAt l cs = Some c -> c ∈ cs /\ line c = l /\ isResolved c = false.
Proof.
  unfold firstAt. intros H. apply find_some in H as [Hin Hp].
  apply andb_true_iff in Hp as [Hl Hr].
  split; [by apply list_elem_of_In|]. split; [lia | by destruct (isResolved c)].
Qed.

Lemma firstAt_app l cs1 cs2 :
  firstAt l (cs1 ++ cs2) =
  match firstAt l cs1 with
  | Some c => Some c
  | None => firstAt l cs2
  end.
Proof.
  unfold firstAt. induction cs1 as [|c rest IH]; simpl; [done|].
  by destruct (_ && _).
Qed.

Lemma updateBody_ids i b cs : id <$> updateBody i b cs = id <$> cs.
Proof.
  induction cs as [|c rest IH]; [done|].
  cbn [updateBody]. destruct (id c =? i); rewrite !fmap_cons; [done | by rewrite IH].
Qed.

Lemma updateBody_Forall_id (P : Z -> Prop) i b cs :
  Forall (fun c => P (id c)) cs -> Forall (fun c => P (id c)) (updateBody i b cs).
Proof.
  intros H. apply Forall_fmap. apply Forall_fmap in H.
  unfold compose in *. by rewrite updateBody_ids.
Qed.

(** An update aimed at the annotations of line [l] leaves the lookups at
    the other lines as they were. *)
Lemma updateBody_firstAt_other i b l l' cs :
  (forall x, x ∈ cs -> id x = i -> line x = l) -> l' <> l ->
  firstAt l' (updateBody i b cs) = firstAt l' cs.
Proof.
  intros Hline Hne. unfold firstAt.
  induction cs as [|c rest IH]; simpl; [done|].
  destruct (Z.eqb_spec (id c) i) as [Heq|Hneq]; simpl.
  - assert (line c = l) as Hl by (apply Hline; [left | done]).
    rewrite Hl. by destruct (Z.eqb_spec l l').
  - destruct (_ && _); [done|]. apply IH. intros x Hx. apply Hline. by right.
Qed.

Lemma updateBody_firstAt_same b l cs c :
  NoDup (id <$> cs) -> firstAt l cs = Some c ->
  firstAt l (updateBody (id c) b cs) = Some (withBody c b).
Proof.
  unfold firstAt. induction cs as [|x rest IH]; intros Hnd Hf; [done|].
  rewrite fmap_cons in Hnd. apply NoDup_cons in Hnd as [Hx Hnd].
  cbn [List.find] in Hf. cbn [updateBody].
  destruct ((line x =? l) && negb (isResolved x)) eqn:Hp.
  - injection Hf as ->. rewrite Z.eqb_refl. cbn [List.find]. simpl. by rewrite Hp.
  - destruct (Z.eqb_spec (id x) (id c)) as [Heq|Hneq].
    + exfalso. apply Hx. rewrite Heq.
      apply find_some in Hf as [Hin _]. apply list_elem_of_fmap.
      exists c. split; [done | by apply list_elem_of_In].
    + cbn [List.find]. rewrite Hp. by apply IH.
Qed.

Lemma plan_step commitSha filePath existing cs n done d :
  passInvariant existing cs n done ->
  fst d ∉ (fst <$> done) ->
  let s := applyCalls (mkStore cs n) (planFor commitSha filePath existing d) in
  passInvariant existing (comments s) (nextCommentId s) (done ++ [d]).
Proof.
  intros (Hnd & Hlt & Hdone & Hrest) Hfresh.
  pose proof (Hrest (fst d) Hfresh) as Hd.
  assert (Hother : forall l, l ∉ (fst <$> (done ++ [d])) ->
                             (l ∉ (fst <$> done)) /\ l <> fst d).
  { intros l Hl. rewrite fmap_app, not_elem_of_app in Hl. destruct Hl as [Hl1 Hl2].
    split; [done|]. intros ->. apply Hl2. simpl. left. }
  assert (Hdone_ne : forall d', d' ∈ done -> fst d' <> fst d).
  { intros d' Hd' Heq. apply Hfresh. rewrite <- Heq. apply list_elem_of_fmap. by exists d'. }
  unfold planFor.
  destruct (firstAt (fst d) existing) as [c|] eqn:HE;
    destruct (firstAt (fst d) cs) as [c'|] eqn:HS; try done.
  - destruct Hd as [Hid Hbody].
    case_bool_decide as Hb; simpl.
    + (* the annotation is as desired: nothing is sent *)
      split; [done|]. split; [done|]. split.
      * intros d' Hd'. apply elem_of_app in Hd' as [Hd'|Hd']; [by apply Hdone|].
        apply list_elem_of_singleton in Hd' as ->. exists c'. split; [done | congruence].
      * intros l Hl. apply Hrest. by apply Hother.
    + (* the body differs: it is rewritten *)
      rewrite Hid.
      assert (Hline : forall x, x ∈ cs -> id x = id c' -> line x = fst d).
      { intros x Hx Heq. apply firstAt_Some in HS as (Hc' & Hl & _).
        by rewrite (NoDup_fmap_inj_on id cs x c' Hnd Hx Hc' Heq). }
      split; [by rewrite updateBody_ids|].
      split; [by apply (updateBody_Forall_id (fun i => i < n))|]. split.
      * intros d' Hd'. apply elem_of_app in Hd' as [Hd'|Hd'].
        -- rewrite (updateBody_firstAt_other _ _ (fst d)); [by apply Hdone | done |].
           by apply Hdone_ne.
        -- apply list_elem_of_singleton in Hd' as ->.
           exists (withBody c' (snd d)). split; [|done].
           by apply updateBody_firstAt_same.
      * intros l Hl. apply Hother in Hl as [Hl1 Hl2].
        rewrite (updateBody_firstAt_other _ _ (fst d)); [by apply Hrest | done | done].
  - (* no annotation at the line: one is created *)
    simpl. split; [|split; [|split]].
    + rewrite fmap_app. apply NoDup_app. split; [done|]. split.
      * intros i Hi Hin. simpl in Hin. apply list_elem_of_singleton in Hin as ->.
        apply list_elem_of_fmap in Hi as (x & Hx & Hin).
        rewrite Forall_forall in Hlt. specialize (Hlt x Hin). lia.
      * simpl. apply NoDup_singleton.
    + apply Forall_app. split.
      * eapply Forall_impl; [exact Hlt|]. simpl. intros; lia.
      * apply Forall_singleton. simpl. lia.
    + intros d' Hd'. rewrite firstAt_app.
      apply elem_of_app in Hd' as [Hd'|Hd'].
      * destruct (Hdone d' Hd') as (x & Hx & Hbx). rewrite Hx. by exists x.
      * apply list_elem_of_singleton in Hd' as ->. rewrite HS.
        unfold firstAt. simpl. rewrite Z.eqb_refl. simpl. by eexists.
    + intros l Hl. apply Hother in Hl as [Hl1 Hl2]. rewrite firstAt_app.
      pose proof (Hrest l Hl1) as Hr.
      destruct (firstAt l existing), (firstAt l cs); try done.
      unfold firstAt. simpl. by destruct (Z.eqb_spec (fst d) l).
Qed.

Lemma plan_steps commitSha filePath existing todo done cs n :
  passInvariant existing cs n done ->
  NoDup (fst <$> (done ++ todo)) ->
  let s := applyCalls (mkStore cs n) (plan commitSha filePath existing todo) in
  passInvariant existing (comments s) (nextCommentId s) (done ++ todo).
Proof.
  revert done cs n. induction todo as [|d rest IH]; intros done cs n Hinv Hnd.
  - simpl. by rewrite app_nil_r.
  - rewrite plan_cons. unfold applyCalls. rewrite foldl_app.
    fold (applyCalls (mkStore cs n) (planFor commitSha filePath existing d)).
    assert (Hfresh : fst d ∉ (fst <$> done)).
    { rewrite fmap_app, fmap_cons in Hnd. apply NoDup_app in Hnd as (_ & Hdis & _).
      intros Hin. apply (Hdis _ Hin). left. }
    pose proof (plan_step commitSha filePath existing cs n done d Hinv Hfresh) as Hstep.
    cbv zeta in Hstep.
    destruct (applyCalls (mkStore cs n) (planFor commitSha filePath existing d))
      as [cs1 n1]. simpl in Hstep.
    specialize (IH (done ++ [d]) cs1 n1 Hstep).
    rewrite <- app_assoc in IH. simpl in IH. by apply IH.
Qed.

(** After an in-place pass whose desired annotations sit on distinct
    lines, the same pass on what it left behind sends nothing. *)
Lemma plan_idempotent commitSha filePath existing ds n :
  NoDup (fst <$> ds) -> NoDup (id <$> existing) -> Forall (fun c => id c < n) existing ->
  plan commitSha filePath
       (leftBehind existing n (plan commitSha filePath existing ds)) ds = [].
Proof.
  intros Hds Hids Hlt.
  assert (Hinit : passInvariant existing existing n []).
  { split; [done|]. split; [done|]. split.
    - intros d Hd. by apply elem_of_nil in Hd.
    - intros l _. by destruct (firstAt l existing). }
  pose proof (plan_steps commitSha filePath existing ds [] existing n Hinit Hds)
    as (_ & _ & Hdone & _).
  simpl in Hdone. unfold leftBehind.
  set (cs := comments _) in *. clearbody cs.
  unfold plan. induction ds as [|d rest IH]; [done|].
  rewrite fmap_cons. cbn [concat].
  destruct (Hdone d) as (c & Hc & Hb); [left|].
  unfold planFor at 1. rewrite Hc, bool_decide_eq_true_2 by done. simpl.
  apply IH.
  - rewrite fmap_cons in Hds. by apply NoDup_cons in Hds as [_ Hds].
  - intros d' Hd'. apply Hdone. by right.
Qed.

Lemma plan_shape commitSha filePath existing ds :
  Forall (inPlaceCall existing ds) (plan commitSha filePath existing ds).
Proof.
  unfold plan.
  assert (H : forall sub, (forall d, d ∈ sub -> d ∈ ds) ->
                Forall (inPlaceCall existing ds)
                       (concat (planFor commitSha filePath existing <$> sub))).
  { induction sub as [|d rest IH]; intros Hsub; [constructor|].
    rewrite fmap_cons. cbn [concat]. apply Forall_app. split.
    - unfold planFor. destruct d as [l b]. cbn [fst snd].
      destruct (firstAt l existing) as [c|] eqn:Hc.
      + case_bool_decide as Hb; [constructor|].
        apply Forall_singleton. simpl. exists c, l.
        split; [apply Hsub; left | done].
      + apply Forall_singleton. simpl. split; [apply Hsub; left | done].
    - apply IH. intros d' Hd'. apply Hsub. by right. }
  by apply H.
Qed.

(** ** A pass without patch or suggestion *)

Lemma Recreate_pass_no_input env context filePath commitSha formattedContent
    existingComments w :
  Recreate.passInput env filePath formattedContent = None ->
  calls (fst (Recreate.createViolationComments env context filePath commitSha
                formattedContent existingComments w)) = calls w.
Proof.
  unfold Recreate.passInput, Recreate.createViolationComments.
  destruct (pull_request context); [|done].
  unfold tryCatch, bind, await, warning.
  destruct (listFiles env) as [files|]; [|done].
  destruct (List.find _ files) as [file|]; [|done].
  destruct (patch file) as [[|ch pt]|]; try done.
  destruct (readFile env filePath) as [originalContent|]; [|done].
  destruct (_ =? _)%nat; done.
Qed.

Lemma SubHunks_pass_no_input env context filePath commitSha formattedContent
    existingComments w :
  SubHunks.passInput env filePath formattedContent = None ->
  calls (fst (SubHunks.createViolationComments env context filePath commitSha
                formattedContent existingComments w)) = calls w.
Proof.
  unfold SubHunks.passInput, SubHunks.createViolationComments.
  destruct (pull_request context); [|done].
  unfold tryCatch, bind, await, warning.
  destruct (listFiles env) as [files|]; [|done].
  destruct (List.find _ files) as [file|]; [|done].
  destruct (patch file) as [[|ch pt]|]; try done.
  destruct (readFile env filePath) as [originalContent|]; [|done].
  destruct (_ =? _)%nat; done.
Qed.

(** ** Two passes in a row *)

(** C1, as stated, fails: on the split example the delete-and-recreate
    pass, run again on the one annotation it has left, deletes it and
    creates it anew. *)
Lemma second_pass_recreates :
  let first :=
    callsOf (Recreate.createViolationComments envSplit prContext "split.cs" "abc123"
               splitFormatted [] emptyWorld) in
  let annotation := Recreate.commentBody ("X" +:+ nl +:+ "Y") "split.cs" in
  first = [createCall "abc123" "split.cs" (2, annotation)] /\
  leftBehind [] 1 first = [mkViolationComment 1 "split.cs" annotation false 2] /\
  callsOf (Recreate.createViolationComments envSplit prContext "split.cs" "abc123"
             splitFormatted (leftBehind [] 1 first) emptyWorld)
  = [DeleteReviewComment 1; createCall "abc123" "split.cs" (2, annotation)].
Proof. cbv zeta. split; [|split]; vm_compute; reflexivity. Qed.

(** C1, amended. On a pull request and with no call rejected, a
    delete-and-recreate pass that reaches its loops (the file is listed with a patch, can be read and
    the diff yields a suggestion) deletes every unresolved annotation it
    is given and creates every desired annotation, matched or not, so a
    second pass repeats the creations of the first. An in-place pass that
    reaches its loop never deletes, creates only on a line without
    unresolved annotation and updates only a body that differs; when its
    desired annotations sit on distinct lines, a second pass on what the
    first left behind sends nothing. A pass of either revision that does
    not reach its loops sends no call, whatever annotations it is given. *)
Theorem second_pass (env : Env) (context : Context)
    (filePath commitSha formattedContent : string) :
  noFailure env ->
  pull_request context <> None ->
  (forall prPatch hunks existingComments,
      Recreate.passInput env filePath formattedContent = Some (prPatch, hunks) ->
      callsOf (Recreate.createViolationComments env context filePath commitSha
                 formattedContent existingComments emptyWorld)
      = ((fun c => DeleteReviewComment (id c))
           <$> List.filter (fun c => negb (isResolved c)) existingComments)
        ++ (createCall commitSha filePath <$> Recreate.desired env prPatch filePath hunks)) /\
  (forall existingComments,
      Recreate.passInput env filePath formattedContent = None ->
      callsOf (Recreate.createViolationComments env context filePath commitSha
                 formattedContent existingComments emptyWorld) = []) /\
  (forall prPatch hunks existingComments nextId,
      SubHunks.passInput env filePath formattedContent = Some (prPatch, hunks) ->
      let ds := SubHunks.desired env prPatch filePath hunks in
      let first :=
        callsOf (SubHunks.createViolationComments env context filePath commitSha
                   formattedContent existingComments emptyWorld) in
      Forall (inPlaceCall existingComments ds) first /\
      (NoDup (fst <$> ds) -> NoDup (id <$> existingComments) ->
       Forall (fun c => id c < nextId) existingComments ->
       callsOf (SubHunks.createViolationComments env context filePath commitSha
                  formattedContent (leftBehind existingComments nextId first) emptyWorld)
       = [])) /\
  (forall existingComments,
      SubHunks.passInput env filePath formattedContent = None ->
      callsOf (SubHunks.createViolationComments env context filePath commitSha
                 formattedContent existingComments emptyWorld) = []).
Proof.
  intros Hnf Hpr. split; [|split; [|split]].
  - intros prPatch hunks existingComments Hin.
    unfold callsOf. rewrite (Recreate_pass_main _ _ _ _ _ _ _ _ _ Hpr Hin).
    rewrite attempted_noFailure by apply Hnf. reflexivity.
  - intros existingComments Hin. unfold callsOf.
    by rewrite Recreate_pass_no_input.
  - intros prPatch hunks existingComments nextId Hin ds first.
    assert (Hfirst : first = plan commitSha filePath existingComments ds).
    { unfold first, callsOf. by rewrite (SubHunks_pass_main _ _ _ _ _ _ _ _ _ Hnf Hpr Hin). }
    split; [rewrite Hfirst; apply plan_shape|].
    intros Hds Hids Hlt.
    unfold callsOf. rewrite (SubHunks_pass_main _ _ _ _ _ _ _ _ _ Hnf Hpr Hin).
    fold ds. rewrite Hfirst. simpl. by apply plan_idempotent.
  - intros existingComments Hin. unfold callsOf.
    by rewrite SubHunks_pass_no_input.
Qed.

Lemma second_pass_witness :
  let annotation1 := Recreate.commentBody "a b" "multi.cs" in
  let annotation9 := Recreate.commentBody "c d" "multi.cs" in
  let existingComments := [multiAtLine1; multiAtLine5; multiResolvedAtLine9] in
  callsOf (Recreate.createViolationComments envMulti prContext "multi.cs" "abc123"
             multiFormatted existingComments emptyWorld)
  = [DeleteReviewComment 100; DeleteReviewComment 101;
     createCall "abc123" "multi.cs" (1, annotation1);
     createCall "abc123" "multi.cs" (9, annotation9)] /\
  callsOf (SubHunks.createViolationComments envMulti prContext "multi.cs" "abc123"
             multiFormatted
             (leftBehind existingComments 103
                (callsOf (SubHunks.createViolationComments envMulti prContext "multi.cs"
                            "abc123" multiFormatted existingComments emptyWorld)))
             emptyWorld)
  = [] /\
  callsOf (Recreate.createViolationComments envDeletion prContext "del.cs" "abc123"
             deletionFormatted [staleAnnotation] emptyWorld)
  = [].
Proof.
  cbv zeta.
  destruct (second_pass envMulti prContext "multi.cs" "abc123" multiFormatted)
    as (Hrecreate & _ & Hinplace & _).
  { intros n. reflexivity. }
  { discriminate. }
  destruct (second_pass envDeletion prContext "del.cs" "abc123" deletionFormatted)
    as (_ & Hnone & _).
  { intros n. reflexivity. }
  { discriminate. }
  split; [|split].
  - rewrite (Hrecreate multiPatch
               (Recreate.generateFormattingHunks (structuredPatch envMulti)
                  multiOriginal multiFormatted "multi.cs")
               [multiAtLine1; multiAtLine5; multiResolvedAtLine9])
      by (vm_compute; reflexivity).
    vm_compute. reflexivity.
  - destruct (Hinplace multiPatch
                (SubHunks.generateFormattingHunks (structuredPatch envMulti)
                   multiOriginal multiFormatted "multi.cs")
                [multiAtLine1; multiAtLine5; multiResolvedAtLine9] 103) as [_ Hsecond];
      [vm_compute; reflexivity|].
    apply Hsecond.
    + refine (bool_decide_unpack _ _). vm_compute. exact I.
    + refine (bool_decide_unpack _ _). vm_compute. exact I.
    + repeat constructor.
  - apply Hnone. vm_compute. reflexivity.
Defined.

(** ** One line, two annotations *)

(** C5. On the split example the in-place pass, started without any
    annotation, anchors both sub-hunks at line 2 and creates an annotation
    for each: two unresolved annotations of [split.cs] sit on line 2 when
    the pass has completed. *)
Theorem two_annotations_on_one_line :
  let pass :=
    SubHunks.createViolationComments envSplit prContext "split.cs" "abc123"
      splitFormatted [] emptyWorld in
  lineNumber <$> SubHunks.hunkFormattingHunks splitHunk = [2; 2] /\
  snd pass = Returned tt /\
  callsOf pass
  = [createCall "abc123" "split.cs"
       (2, SubHunks.commentBody ("A" +:+ nl +:+ "X" +:+ nl +:+ "C" +:+ nl +:+ "Y") "split.cs");
     createCall "abc123" "split.cs"
       (2, SubHunks.commentBody ("X" +:+ nl +:+ "C" +:+ nl +:+ "Y" +:+ nl +:+ "E") "split.cs")] /\
  (fun c => (path c, line c, isResolved c)) <$> leftBehind [] 1 (callsOf pass)
  = [("split.cs", 2, false); ("split.cs", 2, false)].
Proof. cbv zeta. repeat split; vm_compute; reflexivity. Qed.

(** * Further properties of the code *)

(** ** The windows and anchors of the sub-hunk revision *)

Lemma changeBlocks_bounds hunk b :
  b ∈ SubHunks.changeBlocks hunk ->
  isMaximalRun (lines hunk) (SubHunks.startIndex b) (SubHunks.endIndex b).
Proof.
  intros Hb. pose proof (changeBlocks_maximal hunk) as Hmax.
  rewrite Forall_forall in Hmax. by apply Hmax.
Qed.

Lemma lineAt_in_range ls i :
  0 <= i < Z.of_nat (length ls) -> is_Some (lineAt ls i).
Proof.
  intros Hi. unfold lineAt. destruct (Z.ltb_spec i 0); [lia|].
  apply lookup_lt_is_Some. lia.
Qed.

(** X1. The context-padded window of every change block encloses the
    block and lies inside the hunk: it reaches at most three lines before
    the block and at most three after it, exactly three on a side unless
    the hunk ends sooner, so every index the anchor search and the content
    loop visit holds a line. *)
Theorem window_in_bounds (hunk : Hunk) (b : SubHunks.ChangeBlock) :
  b ∈ SubHunks.changeBlocks hunk ->
  0 <= SubHunks.windowStart b <= SubHunks.startIndex b /\
  SubHunks.startIndex b <= SubHunks.endIndex b <= SubHunks.windowEnd hunk b /\
  SubHunks.windowEnd hunk b < Z.of_nat (length (lines hunk)) /\
  SubHunks.windowEnd hunk b - SubHunks.windowStart b <= 
    SubHunks.endIndex b - SubHunks.startIndex b + 6 /\
  SubHunks.startIndex b - SubHunks.windowStart b <= 3 /\
  SubHunks.windowEnd hunk b - SubHunks.endIndex b <= 3 /\
  (SubHunks.windowStart b = 0 \/
   SubHunks.windowStart b = SubHunks.startIndex b - 3) /\
  (SubHunks.windowEnd hunk b = Z.of_nat (length (lines hunk)) - 1 \/
   SubHunks.windowEnd hunk b = SubHunks.endIndex b + 3) /\
  forall i, i ∈ indexRange (SubHunks.windowStart b) (SubHunks.windowEnd hunk b) ->
            is_Some (lineAt (lines hunk) i).
Proof.
  intros Hb. apply changeBlocks_bounds in Hb as (Hse & Hlen & _).
  unfold SubHunks.windowStart, SubHunks.windowEnd,
    SubHunks.contextBefore, SubHunks.contextAfter.
  repeat split; try lia.
  intros i Hi. unfold indexRange in Hi. apply elem_of_seqZ in Hi.
  apply lineAt_in_range. lia.
Qed.

Lemma window_in_bounds_witness :
  let b := SubHunks.mkChangeBlock 4 4 5 in
  0 <= SubHunks.windowStart b <= SubHunks.startIndex b /\
  SubHunks.startIndex b <= SubHunks.endIndex b <= SubHunks.windowEnd splitHunk b /\
  SubHunks.windowEnd splitHunk b < Z.of_nat (length (lines splitHunk)) /\
  SubHunks.windowEnd splitHunk b - SubHunks.windowStart b <=
    SubHunks.endIndex b - SubHunks.startIndex b + 6 /\
  SubHunks.startIndex b - SubHunks.windowStart b <= 3 /\
  SubHunks.windowEnd splitHunk b - SubHunks.endIndex b <= 3 /\
  (SubHunks.windowStart b = 0 \/
   SubHunks.windowStart b = SubHunks.startIndex b - 3) /\
  (SubHunks.windowEnd splitHunk b = Z.of_nat (length (lines splitHunk)) - 1 \/
   SubHunks.windowEnd splitHunk b = SubHunks.endIndex b + 3) /\
  forall i, i ∈ indexRange (SubHunks.windowStart b) (SubHunks.windowEnd splitHunk b) ->
            is_Some (lineAt (lines splitHunk) i).
Proof.
  apply (window_in_bounds splitHunk (SubHunks.mkChangeBlock 4 4 5)).
  vm_compute. right. left.
Defined.

Lemma count_range (ls : list string) (k a : nat) (acc : Z) :
  foldl (fun lineNum j =>
           match lineAt ls j with
           | Some l => if isNewFileLine l then lineNum + 1 else lineNum
           | None => lineNum
           end)
        acc (seqZ (Z.of_nat a) (Z.of_nat k))
  = acc + Z.of_nat (length (List.filter isNewFileLine (take k (drop a ls)))).
Proof.
  revert a acc. induction k as [|k IH]; intros a acc.
  - simpl. lia.
  - rewrite seqZ_cons by lia. cbn [foldl].
    replace (Z.succ (Z.of_nat a)) with (Z.of_nat (S a)) by lia.
    replace (Z.pred (Z.of_nat (S k))) with (Z.of_nat k) by lia.
    rewrite IH. unfold lineAt.
    destruct (Z.ltb_spec (Z.of_nat a) 0); [lia|]. rewrite Nat2Z.id.
    destruct (ls !! a) as [l|] eqn:Hl.
    + rewrite (drop_S _ _ _ Hl). cbn [take List.filter].
      destruct (isNewFileLine l); simpl length; lia.
    + apply lookup_ge_None in Hl.
      rewrite !drop_ge by lia. by rewrite !take_nil.
Qed.

(** The recount of the inner loop: the new-file line number at index [i]. *)
Lemma lineNumAt_count hunk i :
  SubHunks.lineNumAt hunk i = newStart hunk + newLinesBefore (lines hunk) i.
Proof.
  unfold SubHunks.lineNumAt, indexRange, newLinesBefore.
  replace (i - 1 - 0 + 1) with i by lia.
  destruct (Z.le_gt_cases i 0) as [Hneg|Hpos].
  - replace (Z.to_nat i) with 0%nat by lia.
    assert (seqZ 0 i = []) as ->
      by (unfold seqZ; by replace (Z.to_nat i) with 0%nat by lia).
    simpl. lia.
  - pose proof (count_range (lines hunk) (Z.to_nat i) 0 (newStart hunk)) as Hc.
    rewrite Z2Nat.id in Hc by lia. simpl in Hc. rewrite drop_0 in Hc. exact Hc.
Qed.

Lemma newLinesBefore_mono ls i j : i <= j -> newLinesBefore ls i <= newLinesBefore ls j.
Proof.
  intros Hij. unfold newLinesBefore.
  destruct (Z.le_gt_cases i 0) as [Hneg|Hpos].
  - replace (Z.to_nat i) with 0%nat by lia. simpl. lia.
  - replace (Z.to_nat j) with (Z.to_nat i + Z.to_nat (j - i))%nat by lia.
    rewrite <- take_take_drop, List.filter_app, length_app. lia.
Qed.

Lemma newLinesBefore_middle (pre rest : list string) line :
  newLinesBefore (pre ++ line :: rest) (Z.of_nat (length pre) + 1)
  = newLinesBefore (pre ++ line :: rest) (Z.of_nat (length pre))
    + (if isNewFileLine line then 1 else 0).
Proof.
  unfold newLinesBefore.
  replace (Z.to_nat (Z.of_nat (length pre) + 1)) with (S (length pre)) by lia.
  rewrite Nat2Z.id.
  rewrite (take_S_r _ _ line) by (by rewrite list_lookup_middle).
  rewrite List.filter_app, length_app. simpl.
  destruct (isNewFileLine line); simpl; lia.
Qed.

Lemma scanStep_currentLine st i line :
  SubHunks.currentLine (SubHunks.scanStep st i line)
  = SubHunks.currentLine st + (if isNewFileLine line then 1 else 0).
Proof.
  unfold SubHunks.scanStep.
  destruct (isChangeLine line), (SubHunks.inChangeBlock st) eqn:Hin, (isNewFileLine line);
    simpl; lia.
Qed.

Lemma scanStep_changeStartLine st i line :
  SubHunks.changeStartLine (SubHunks.scanStep st i line)
  = if isChangeLine line && negb (SubHunks.inChangeBlock st)
    then SubHunks.currentLine st else SubHunks.changeStartLine st.
Proof.
  unfold SubHunks.scanStep.
  destruct (isChangeLine line), (SubHunks.inChangeBlock st) eqn:Hin, (isNewFileLine line);
    simpl; done.
Qed.

Lemma scanStep_lineInvariant start (pre rest : list string) line st :
  let all := pre ++ line :: rest in
  let n := Z.of_nat (length pre) in
  lineInvariant start all n st ->
  lineInvariant start all (n + 1) (SubHunks.scanStep st n line).
Proof.
  intros all n (Hcur & Hopen & Hclosed). unfold lineInvariant.
  rewrite scanStep_currentLine, scanStep_inChangeBlock, scanStep_changes,
    scanStep_changeStartLine, scanStep_changeStartIndex.
  unfold all, n. rewrite newLinesBefore_middle. fold all n.
  split; [lia|].
  destruct (isChangeLine line) eqn:Hch, (SubHunks.inChangeBlock st) eqn:Hin; simpl.
  - split; [intros _; by apply Hopen | done].
  - split; [done | done].
  - split; [done|]. apply Forall_app. split; [done|].
    apply Forall_singleton. simpl. by apply Hopen.
  - split; [done | done].
Qed.

Lemma scanLines_lineInvariant start (rest pre : list string) st :
  lineInvariant start (pre ++ rest) (Z.of_nat (length pre)) st ->
  lineInvariant start (pre ++ rest) (Z.of_nat (length (pre ++ rest)))
                (SubHunks.scanLines (Z.of_nat (length pre)) rest st).
Proof.
  revert pre st. induction rest as [|line rest IH]; intros pre st Hinv; simpl.
  - by rewrite app_nil_r in *.
  - apply scanStep_lineInvariant in Hinv.
    specialize (IH (pre ++ [line]) (SubHunks.scanStep st (Z.of_nat (length pre)) line)).
    rewrite <- app_assoc, length_app in IH. simpl in IH.
    replace (Z.of_nat (length pre + 1)) with (Z.of_nat (length pre) + 1) in IH by lia.
    by apply IH.
Qed.

(** The running counter agrees with the recount: the [startLine] of a
    block is the new-file line number at its first index. *)
Lemma changeBlocks_startLine hunk b :
  b ∈ SubHunks.changeBlocks hunk ->
  SubHunks.startLine b = SubHunks.lineNumAt hunk (SubHunks.startIndex b).
Proof.
  rewrite lineNumAt_count. revert b. apply Forall_forall.
  unfold SubHunks.changeBlocks.
  pose proof (scanLines_lineInvariant (newStart hunk) (lines hunk) []
                (SubHunks.mkScanState [] (newStart hunk) false 0 0)) as Hinv.
  simpl in Hinv. change (Z.of_nat 0) with 0 in Hinv.
  destruct Hinv as (_ & Hopen & Hclosed).
  { split; [unfold newLinesBefore; simpl; lia|]. split; [done | constructor]. }
  destruct (SubHunks.inChangeBlock _) eqn:Hin; [|done].
  apply Forall_app. split; [done|]. apply Forall_singleton. simpl. by apply Hopen.
Qed.

Lemma firstChangeLine_first hunk (idxs : list Z) dflt :
  (exists i, i ∈ idxs /\ changeAt (lines hunk) i) ->
  exists (k : nat) j,
    idxs !! k = Some j /\ changeAt (lines hunk) j /\
    (forall (k' : nat) i, (k' < k)%nat -> idxs !! k' = Some i ->
                          ~ changeAt (lines hunk) i) /\
    SubHunks.firstChangeLine hunk idxs dflt = SubHunks.lineNumAt hunk j.
Proof.
  induction idxs as [|i0 rest IH]; intros (i & Hi & Hch).
  - by apply elem_of_nil in Hi.
  - cbn [SubHunks.firstChangeLine].
    destruct (lineAt (lines hunk) i0) as [l|] eqn:Hl.
    + destruct (isChangeLine l) eqn:Hc.
      * exists 0%nat, i0. split; [done|]. split; [by exists l|].
        split; [intros; lia | done].
      * assert (Hrest : exists i, i ∈ rest /\ changeAt (lines hunk) i).
        { apply elem_of_cons in Hi as [->|Hi]; [|by exists i].
          destruct Hch as (l' & Hl' & Hc'). congruence. }
        destruct (IH Hrest) as (k & j & Hk & Hj & Hbefore & Heq).
        exists (S k), j. split; [done|]. split; [done|]. split; [|done].
        intros [|k'] i' Hlt Hi'.
        -- injection Hi' as <-. intros (l' & Hl' & Hc'). congruence.
        -- apply (Hbefore k'); [lia | done].
    + assert (Hrest : exists i, i ∈ rest /\ changeAt (lines hunk) i).
      { apply elem_of_cons in Hi as [->|Hi]; [|by exists i].
        destruct Hch as (l' & Hl' & Hc'). congruence. }
      destruct (IH Hrest) as (k & j & Hk & Hj & Hbefore & Heq).
      exists (S k), j. split; [done|]. split; [done|]. split; [|done].
      intros [|k'] i' Hlt Hi'.
      * injection Hi' as <-. intros (l' & Hl' & Hc'). congruence.
      * apply (Hbefore k'); [lia | done].
Qed.

(** X2. The anchor of a sub-hunk is the new-file line number of the first
    change line inside its padded window. That line never lies after the
    block's own first line, whose number the scan has tracked correctly;
    so the anchor lies between the start of the hunk and the first line
    of the block. *)
Theorem subHunk_anchor (hunk : Hunk) (b : SubHunks.ChangeBlock) :
  b ∈ SubHunks.changeBlocks hunk ->
  exists j,
    SubHunks.windowStart b <= j <= SubHunks.startIndex b /\
    changeAt (lines hunk) j /\
    (forall i, SubHunks.windowStart b <= i < j -> ~ changeAt (lines hunk) i) /\
    lineNumber (SubHunks.subHunk hunk b) = newStart hunk + newLinesBefore (lines hunk) j /\
    SubHunks.startLine b = newStart hunk + newLinesBefore (lines hunk) (SubHunks.startIndex b) /\
    newStart hunk <= lineNumber (SubHunks.subHunk hunk b) <= SubHunks.startLine b.
Proof.
  intros Hb.
  pose proof (changeBlocks_startLine hunk b Hb) as Hstart.
  rewrite lineNumAt_count in Hstart.
  pose proof (changeBlocks_bounds hunk b Hb) as (Hse & Hlen & Hall & _).
  set (ws := SubHunks.windowStart b). set (we := SubHunks.windowEnd hunk b).
  assert (Hws : 0 <= ws <= SubHunks.startIndex b)
    by (unfold ws, SubHunks.windowStart, SubHunks.contextBefore; lia).
  assert (Hwe : SubHunks.startIndex b <= we)
    by (unfold we, SubHunks.windowEnd, SubHunks.contextAfter; lia).
  destruct (firstChangeLine_first hunk (indexRange ws we) (SubHunks.startLine b))
    as (k & j & Hk & Hj & Hbefore & Heq).
  { exists (SubHunks.startIndex b). split.
    - unfold indexRange. apply elem_of_seqZ. lia.
    - apply Hall. lia. }
  unfold indexRange in Hk, Hbefore.
  apply lookup_seqZ in Hk as [-> Hklen].
  assert (Hjs : ws + Z.of_nat k <= SubHunks.startIndex b).
  { destruct (Z.le_gt_cases (ws + Z.of_nat k) (SubHunks.startIndex b)) as [|Hgt]; [done|].
    exfalso.
    apply (Hbefore (Z.to_nat (SubHunks.startIndex b - ws)) (SubHunks.startIndex b)).
    - lia.
    - apply lookup_seqZ. split; lia.
    - apply Hall. lia. }
  exists (ws + Z.of_nat k).
  assert (Hanchor : lineNumber (SubHunks.subHunk hunk b)
                    = newStart hunk + newLinesBefore (lines hunk) (ws + Z.of_nat k)).
  { unfold SubHunks.subHunk. cbn [lineNumber]. fold ws we.
    by rewrite Heq, lineNumAt_count. }
  split; [lia|]. split; [done|]. split.
  - intros i Hi. apply (Hbefore (Z.to_nat (i - ws)) i); [lia|].
    apply lookup_seqZ. split; lia.
  - split; [done|]. split; [done|].
    rewrite Hanchor, Hstart.
    pose proof (newLinesBefore_mono (lines hunk) (ws + Z.of_nat k)
                  (SubHunks.startIndex b) Hjs).
    unfold newLinesBefore in *. lia.
Qed.

Lemma subHunk_anchor_witness :
  let b := SubHunks.mkChangeBlock 4 4 5 in
  exists j,
    SubHunks.windowStart b <= j <= SubHunks.startIndex b /\
    changeAt (lines splitHunk) j /\
    (forall i, SubHunks.windowStart b <= i < j -> ~ changeAt (lines splitHunk) i) /\
    lineNumber (SubHunks.subHunk splitHunk b)
    = newStart splitHunk + newLinesBefore (lines splitHunk) j /\
    SubHunks.startLine b
    = newStart splitHunk + newLinesBefore (lines splitHunk) (SubHunks.startIndex b) /\
    newStart splitHunk <= lineNumber (SubHunks.subHunk splitHunk b) <= SubHunks.startLine b.
Proof.
  apply (subHunk_anchor splitHunk (SubHunks.mkChangeBlock 4 4 5)).
  vm_compute. right. left.
Defined.

(** ** Extraction in the one-hunk-per-diff-hunk revision *)

Lemma Recreate_scanStep_invariant (pre rest : list string) line st :
  let all := pre ++ line :: rest in
  let n := Z.of_nat (length pre) in
  firstLastInvariant all n st ->
  firstLastInvariant all (n + 1) (Recreate.scanStep st n line).
Proof.
  intros all n Hinv.
  assert (Hline : lineAt all n = Some line) by apply lineAt_middle.
  assert (Hfl : forall st', Recreate.firstChangeIndex
                  (if isNewFileLine line
                   then Recreate.mkScanState (Recreate.firstChangeIndex st')
                          (Recreate.lastChangeIndex st') (Recreate.currentLine st' + 1)
                   else st') = Recreate.firstChangeIndex st' /\
                Recreate.lastChangeIndex
                  (if isNewFileLine line
                   then Recreate.mkScanState (Recreate.firstChangeIndex st')
                          (Recreate.lastChangeIndex st') (Recreate.currentLine st' + 1)
                   else st') = Recreate.lastChangeIndex st')
    by (intros st'; by destruct (isNewFileLine line)).
  unfold firstLastInvariant, Recreate.scanStep.
  destruct (isChangeLine line) eqn:Hc;
    match goal with |- context [if isNewFileLine line then _ else ?s] =>
      destruct (Hfl s) as [-> ->] end; cbn [Recreate.firstChangeIndex Recreate.lastChangeIndex].
  - right. assert (Hn : changeAt all n) by (by exists line).
    destruct Hinv as [[Hf Hnone]|(Hfl' & Hlast & Hfirst & Hbefore & Hafter)].
    + rewrite Hf. cbn. split; [lia|]. split; [lia|]. split; [done|].
      split; [done|]. intros i Hi; lia.
    + destruct (Z.eqb_spec (Recreate.firstChangeIndex st) (-1)) as [Heq|Hne]; [lia|].
      split; [lia|]. split; [lia|]. split; [done|]. split; [done|].
      intros i Hi; lia.
  - assert (Hn : ~ changeAt all n).
    { intros (l & Hl & Hl'). congruence. }
    destruct Hinv as [[Hf Hnone]|(Hfl' & Hlast & Hfirst & Hbefore & Hafter)].
    + left. split; [done|]. intros i Hi.
      destruct (decide (i = n)) as [->|]; [done|]. apply Hnone. lia.
    + right. split; [lia|]. split; [lia|]. split; [done|]. split; [done|].
      intros i Hi. destruct (decide (i = n)) as [->|]; [done|]. apply Hafter. lia.
Qed.

Lemma Recreate_scanLines_invariant (rest pre : list string) st :
  firstLastInvariant (pre ++ rest) (Z.of_nat (length pre)) st ->
  firstLastInvariant (pre ++ rest) (Z.of_nat (length (pre ++ rest)))
    (Recreate.scanLines (Z.of_nat (length pre)) rest st).
Proof.
  revert pre st. induction rest as [|line rest IH]; intros pre st Hinv; simpl.
  - by rewrite app_nil_r in *.
  - apply Recreate_scanStep_invariant in Hinv.
    specialize (IH (pre ++ [line]) (Recreate.scanStep st (Z.of_nat (length pre)) line)).
    rewrite <- app_assoc, length_app in IH. simpl in IH.
    replace (Z.of_nat (length pre + 1)) with (Z.of_nat (length pre) + 1) in IH by lia.
    by apply IH.
Qed.

Lemma Recreate_scan hunk :
  firstLastInvariant (lines hunk) (Z.of_nat (length (lines hunk)))
    (Recreate.scanLines 0 (lines hunk) (Recreate.mkScanState (-1) (-1) (newStart hunk))).
Proof.
  apply (Recreate_scanLines_invariant (lines hunk) []).
  left. split; [done|]. simpl. intros i Hi; lia.
Qed.

Lemma Recreate_firstChangeLine_count hunk i :
  Recreate.firstChangeLine hunk i = newStart hunk + newLinesBefore (lines hunk) i.
Proof. exact (lineNumAt_count hunk i). Qed.

Lemma collectAdditions_from (hunk : Hunk) (k a : nat) (acc : list string) :
  foldl (fun formattedLines i =>
           match lineAt (lines hunk) i with
           | Some line =>
               if isAdditionLine line then formattedLines ++ [substring1 line]
               else formattedLines
           | None => formattedLines
           end)
        acc (seqZ (Z.of_nat a) (Z.of_nat k))
  = acc ++ additions (take k (drop a (lines hunk))).
Proof.
  revert a acc. induction k as [|k IH]; intros a acc.
  - simpl. by rewrite app_nil_r.
  - rewrite seqZ_cons by lia. cbn [foldl].
    replace (Z.succ (Z.of_nat a)) with (Z.of_nat (S a)) by lia.
    replace (Z.pred (Z.of_nat (S k))) with (Z.of_nat k) by lia.
    rewrite IH. unfold lineAt.
    destruct (Z.ltb_spec (Z.of_nat a) 0); [lia|]. rewrite Nat2Z.id.
    destruct (lines hunk !! a) as [l|] eqn:Hl.
    + rewrite (drop_S _ _ _ Hl). cbn [take]. unfold additions at 2.
      cbn [List.filter]. fold (additions (take k (drop (S a) (lines hunk)))).
      destruct (isAdditionLine l); [|done].
      rewrite fmap_cons. fold (additions (take k (drop (S a) (lines hunk)))).
      by rewrite <- app_assoc.
    + apply lookup_ge_None in Hl.
      rewrite !drop_ge by lia. by rewrite !take_nil.
Qed.

Lemma additions_app l1 l2 : additions (l1 ++ l2) = additions l1 ++ additions l2.
Proof. unfold additions. by rewrite List.filter_app, fmap_app. Qed.

(** The lines of a stretch without change lines contribute no addition. *)
Lemma additions_none (ls : list string) (a k : nat) :
  (forall i, Z.of_nat a <= i < Z.of_nat (a + k) -> ~ changeAt ls i) ->
  additions (take k (drop a ls)) = [].
Proof.
  revert a. induction k as [|k IH]; intros a Hnone; [by rewrite take_0|].
  destruct (ls !! a) as [l|] eqn:Hl.
  - rewrite (drop_S _ _ _ Hl). cbn [take]. unfold additions. cbn [List.filter].
    assert (Hc : isChangeLine l = false).
    { destruct (isChangeLine l) eqn:Hc; [|done]. exfalso.
      apply (Hnone (Z.of_nat a)); [lia|]. exists l. split; [|done].
      unfold lineAt. destruct (Z.ltb_spec (Z.of_nat a) 0); [lia|]. by rewrite Nat2Z.id. }
    unfold isChangeLine in Hc. apply orb_false_iff in Hc as [-> _].
    apply IH. intros i Hi. apply Hnone. lia.
  - apply lookup_ge_None in Hl. rewrite drop_ge by lia. by rewrite take_nil.
Qed.

(** All the additions of a hunk lie between its first and its last change
    line. *)
Lemma additions_between (ls : list string) (f l : Z) :
  0 <= f <= l -> l < Z.of_nat (length ls) ->
  (forall i, 0 <= i < f -> ~ changeAt ls i) ->
  (forall i, l < i < Z.of_nat (length ls) -> ~ changeAt ls i) ->
  additions (take (Z.to_nat (l - f + 1)) (drop (Z.to_nat f) ls)) = additions ls.
Proof.
  intros Hfl Hl Hbefore Hafter.
  set (a := Z.to_nat f). set (k := Z.to_nat (l - f + 1)).
  assert (Hsplit : ls = take a ls ++ take k (drop a ls) ++ drop k (drop a ls))
    by (by rewrite take_drop, take_drop).
  rewrite Hsplit at 2. rewrite !additions_app.
  assert (additions (take a ls) = []) as ->.
  { rewrite <- (drop_0 ls) at 1. apply additions_none. intros i Hi. apply Hbefore. lia. }
  assert (additions (drop k (drop a ls)) = []) as ->.
  { rewrite drop_drop.
    rewrite <- (take_ge (drop (a + k) ls) (length ls)) by (rewrite length_drop; lia).
    apply additions_none. intros i Hi.
    destruct (Z.lt_ge_cases i (Z.of_nat (length ls))) as [Hlt|Hge].
    - apply Hafter. lia.
    - intros (x & Hx & _). apply lineAt_Some in Hx. lia. }
  by rewrite app_nil_r.
Qed.

Lemma Recreate_hunk_shape (hunk : Hunk) :
  (additions (lines hunk) = [] -> Recreate.hunkFormattingHunks hunk = []) /\
  (additions (lines hunk) <> [] ->
   exists k,
     changeAt (lines hunk) k /\
     (forall i, 0 <= i < k -> ~ changeAt (lines hunk) i) /\
     Recreate.hunkFormattingHunks hunk =
       [mkFormattingHunk (newStart hunk + newLinesBefore (lines hunk) k)
          (join nl (additions (lines hunk)))
          (oldStart hunk, oldStart hunk + oldLines hunk - 1)]).
Proof.
  unfold Recreate.hunkFormattingHunks.
  pose proof (Recreate_scan hunk) as Hinv.
  set (st := Recreate.scanLines 0 (lines hunk) _) in *.
  destruct Hinv as [[Hf Hnone]|(Hfl & Hlast & Hfirst & Hbefore & Hafter)].
  - rewrite Hf. cbn [Z.eqb Pos.eqb].
    assert (Hadds : additions (lines hunk) = []).
    { pose proof (additions_none (lines hunk) 0 (length (lines hunk))) as Ha.
      rewrite drop_0, take_ge in Ha by lia.
      apply Ha. intros i Hi. apply Hnone. lia. }
    split; [done|]. intros Hne. by destruct Hne.
  - destruct (Z.eqb_spec (Recreate.firstChangeIndex st) (-1)) as [Heq|_]; [lia|].
    assert (Hcollect :
              Recreate.collectAdditions hunk
                (indexRange (Recreate.firstChangeIndex st) (Recreate.lastChangeIndex st))
              = additions (lines hunk)).
    { unfold Recreate.collectAdditions, indexRange.
      pose proof (collectAdditions_from hunk
                    (Z.to_nat (Recreate.lastChangeIndex st - Recreate.firstChangeIndex st + 1))
                    (Z.to_nat (Recreate.firstChangeIndex st)) []) as Hc.
      rewrite !Z2Nat.id in Hc by lia. rewrite Hc. cbn [app].
      by apply additions_between. }
    rewrite Hcollect, Recreate_firstChangeLine_count.
    destruct (additions (lines hunk)) as [|x xs] eqn:Hadds.
    + split; [done|]. intros Hne. by destruct Hne.
    + split; [done|]. intros _.
      exists (Recreate.firstChangeIndex st). split; [done|]. split; [done|]. done.
Qed.

(** X3. The one-hunk-per-diff-hunk revision turns a diff hunk into at
    most one suggestion. A hunk without added lines (no change, or
    deletions only) yields none. Any other hunk yields exactly one: its
    content is every added line of the hunk and nothing else, so context
    lines between two changes are left out, and its anchor is the new-file
    line number of the first change line of the hunk. *)
Theorem Recreate_extraction (hunk : Hunk) :
  (additions (lines hunk) = [] -> Recreate.hunkFormattingHunks hunk = []) /\
  (additions (lines hunk) <> [] ->
   exists k,
     changeAt (lines hunk) k /\
     (forall i, 0 <= i < k -> ~ changeAt (lines hunk) i) /\
     Recreate.hunkFormattingHunks hunk =
       [mkFormattingHunk (newStart hunk + newLinesBefore (lines hunk) k)
          (join nl (additions (lines hunk)))
          (oldStart hunk, oldStart hunk + oldLines hunk - 1)]).
Proof. apply Recreate_hunk_shape. Qed.

(** ** The in-place pass when calls are rejected *)

Lemma attempted_prefix fails n cs :
  fst (attempted fails n cs) `prefix_of` cs /\
  (snd (attempted fails n cs) = None -> fst (attempted fails n cs) = cs) /\
  (forall e, snd (attempted fails n cs) = Some e ->
             exists c, last (fst (attempted fails n cs)) = Some c /\
                       fails (n + length (fst (attempted fails n cs)) - 1)%nat = Some e).
Proof.
  revert n. induction cs as [|c rest IH]; intros n; cbn [attempted].
  - split; [done|]. split; [done|]. intros e He. discriminate.
  - destruct (fails n) as [e0|] eqn:Hf.
    + cbn [fst snd]. split; [by exists rest|]. split; [discriminate|].
      intros e He. injection He as <-. exists c. split; [done|].
      simpl. by replace (n + 1 - 1)%nat with n by lia.
    + destruct (IH (S n)) as (Hpre & Hall & Hlast).
      destruct (attempted fails (S n) rest) as [sent e'] eqn:Hatt. cbn [fst snd] in *.
      split; [by apply prefix_cons|]. split; [intros He; by rewrite Hall|].
      intros e He. destruct (Hlast e He) as (c' & Hc' & Hfail).
      destruct sent as [|s sent']; [done|].
      exists c'. split; [exact Hc'|].
      by replace (n + length (c :: s :: sent') - 1)%nat
        with (S n + length (s :: sent') - 1)%nat by (cbn [length]; lia).
Qed.

Lemma SubHunks_loop_rejecting env prPatch filePath commitSha existingComments hunks w :
  forEach hunks (SubHunks.reconcileHunk env prPatch filePath commitSha existingComments) w
  = let r := attempted (apiFailure env) (length (calls w))
               (plan commitSha filePath existingComments
                  (SubHunks.desired env prPatch filePath hunks)) in
    (addCalls w (fst r), outcomeOf (snd r)).
Proof.
  revert w. induction hunks as [|h rest IH]; intros w.
  - simpl. unfold ret. by rewrite addCalls_nil.
  - cbn [forEach]. unfold bind. rewrite SubHunks_desired_cons.
    unfold SubHunks.reconcileHunk at 1.
    destruct (findLineInPRDiff (parseDiff env) prPatch (lineNumber h) =? 0) eqn:Hz.
    + unfold ret. apply IH.
    + rewrite plan_cons. unfold planFor, firstAt. cbn [fst snd].
      assert (Hcall : forall c,
                match callApi env c w with
                | (w', Returned _) =>
                    forEach rest
                      (SubHunks.reconcileHunk env prPatch filePath commitSha
                         existingComments) w'
                | (w', Thrown e) => (w', Thrown e)
                end
                = let r := attempted (apiFailure env) (length (calls w))
                             ([c] ++ plan commitSha filePath existingComments
                                       (SubHunks.desired env prPatch filePath rest)) in
                  (addCalls w (fst r), outcomeOf (snd r))).
      { intros c. unfold callApi. cbn [app attempted].
        destruct (apiFailure env (length (calls w))) as [e|]; [done|].
        rewrite IH. cbn [calls]. rewrite length_app. cbn [length].
        replace (length (calls w) + 1)%nat with (S (length (calls w))) by lia.
        destruct (attempted _ _ _) as [sent e]. cbn [fst snd].
        unfold addCalls. cbn [calls warnings formatterInputs failed].
        by rewrite <- app_assoc. }
      destruct (List.find _ existingComments) as [c|].
      * case_bool_decide.
        -- unfold ret. by rewrite IH.
        -- apply Hcall.
      * apply Hcall.
Qed.

(** X4. The in-place pass has one [try] around all its calls: it sends
    the calls of its plan in order up to the first rejected one, logs that
    rejection as one warning for the file, handles no later hunk and
    returns normally; what was sent before stays. With nothing rejected
    the whole plan is sent and nothing is logged. *)
Theorem SubHunks_pass_rejected (env : Env) (context : Context)
    (filePath commitSha formattedContent prPatch : string)
    (hunks : list FormattingHunk) (existingComments : list ViolationComment) (w : World) :
  pull_request context <> None ->
  SubHunks.passInput env filePath formattedContent = Some (prPatch, hunks) ->
  let todo := plan commitSha filePath existingComments
                (SubHunks.desired env prPatch filePath hunks) in
  let sent := attempted (apiFailure env) (length (calls w)) todo in
  SubHunks.createViolationComments env context filePath commitSha formattedContent
    existingComments w
  = (match snd sent with
     | Some e => addWarnings (addCalls w (fst sent)) [WarnFailedToCreate filePath e]
     | None => addCalls w (fst sent)
     end, Returned tt) /\
  fst sent `prefix_of` todo /\
  (snd sent = None -> fst sent = todo) /\
  (forall e, snd sent = Some e ->
     exists c, last (fst sent) = Some c /\
               apiFailure env (length (calls w) + length (fst sent) - 1)%nat = Some e).
Proof.
  intros Hpr Hin todo sent. split; [|apply attempted_prefix].
  unfold SubHunks.createViolationComments, SubHunks.passInput in *.
  destruct (pull_request context); [|done].
  unfold tryCatch, bind at 1, await.
  destruct (listFiles env) as [files|]; [|done].
  destruct (List.find _ files) as [file|]; [|done].
  destruct (patch file) as [[|ch pt]|]; try done.
  unfold bind at 1.
  destruct (readFile env filePath) as [originalContent|]; [|done].
  destruct (_ =? _)%nat; [done|]. injection Hin as <- <-.
  rewrite SubHunks_loop_rejecting. fold todo. fold sent. cbv zeta.
  destruct (snd sent); simpl; [|done].
  unfold warning, addWarnings. by simpl.
Qed.

Lemma SubHunks_pass_rejected_witness :
  let r := SubHunks.createViolationComments envSplitFirstCallFails prContext "split.cs"
             "abc123" splitFormatted [] emptyWorld in
  snd r = Returned tt /\
  warnings (fst r) = [WarnFailedToCreate "split.cs" "HTTP 500"] /\
  length (calls (fst r)) = 1%nat.
Proof.
  destruct (SubHunks_pass_rejected envSplitFirstCallFails prContext "split.cs" "abc123"
              splitFormatted splitPatch
              (SubHunks.generateFormattingHunks splitDiff splitOriginal splitFormatted
                 "split.cs")
              [] emptyWorld) as [Hrun _].
  - discriminate.
  - vm_compute. reflexivity.
  - cbv zeta. rewrite Hrun. vm_compute. done.
Defined.

(** ** A pass that does not reach its loops *)

(** X5. How a pass of either revision ends before it sends anything.
    Outside a pull request it does nothing. A rejected file listing or an
    unreadable file is logged as one warning carrying the error. A file
    missing from the listing, or listed without patch or with an empty
    one, is logged as not found in the diff. A diff that yields no
    suggestion ends the pass silently: no call is sent, so the
    annotations given to the pass stay as they are. In every case the
    pass returns normally. *)
Theorem pass_early_exits (env : Env) (context : Context)
    (filePath commitSha formattedContent : string)
    (existingComments : list ViolationComment) (w : World) :
  let recreate :=
    Recreate.createViolationComments env context filePath commitSha formattedContent
      existingComments w in
  let inPlace :=
    SubHunks.createViolationComments env context filePath commitSha formattedContent
      existingComments w in
  let listed files := List.find (fun f => bool_decide (filename f = filePath)) files in
  (pull_request context = None ->
   recreate = (w, Returned tt) /\ inPlace = (w, Returned tt)) /\
  (pull_request context <> None ->
   (forall e, listFiles env = Thrown e ->
      recreate = (addWarnings w [WarnFailedToCreate filePath e], Returned tt) /\
      inPlace = (addWarnings w [WarnFailedToCreate filePath e], Returned tt)) /\
   (forall files, listFiles env = Returned files ->
      (listed files = None \/
       exists file, listed files = Some file /\
                    (patch file = None \/ patch file = Some EmptyString)) ->
      recreate = (addWarnings w [WarnFileNotInDiff filePath], Returned tt) /\
      inPlace = (addWarnings w [WarnFileNotInDiff filePath], Returned tt)) /\
   (forall files file c prPatch, listFiles env = Returned files ->
      listed files = Some file -> patch file = Some (String c prPatch) ->
      (forall e, readFile env filePath = Thrown e ->
         recreate = (addWarnings w [WarnFailedToCreate filePath e], Returned tt) /\
         inPlace = (addWarnings w [WarnFailedToCreate filePath e], Returned tt)) /\
      (forall originalContent, readFile env filePath = Returned originalContent ->
         (Recreate.generateFormattingHunks (structuredPatch env)
            originalContent formattedContent filePath = [] ->
          recreate = (w, Returned tt)) /\
         (SubHunks.generateFormattingHunks (structuredPatch env)
            originalContent formattedContent filePath = [] ->
          inPlace = (w, Returned tt))))).
Proof.
  cbv zeta.
  unfold Recreate.createViolationComments, SubHunks.createViolationComments.
  split.
  - intros ->. done.
  - intros Hpr. destruct (pull_request context) as [pr|]; [clear Hpr|done].
    unfold tryCatch, bind, await, warning, addWarnings.
    split; [|split].
    + intros e ->. done.
    + intros files -> [->|(file & -> & [->| ->])]; done.
    + intros files file c prPatch -> -> ->. split.
      * intros e ->. done.
      * intros originalContent ->. split; intros ->; done.
Qed.

(** ** The framing of [formatFiles] *)

Lemma join_empty_sep (l : list string) : join "" l = foldr String.append "" l.
Proof.
  induction l as [|x [|y rest] IH]; [done| |].
  - cbn [join foldr]. by rewrite append_nil_r.
  - change (join "" (x :: y :: rest)) with (x +:+ "" +:+ join "" (y :: rest)).
    rewrite IH. reflexivity.
Qed.

Lemma buildInputParts_reads env files contents acc w :
  Forall2 (fun f c => readFile env f = Returned c) files contents ->
  buildInputParts env files acc w
  = (w, Returned (acc ++ concat (zip_with
                                   (fun f c => [f; String ETX EmptyString;
                                                c; String ETX EmptyString])
                                   files contents))).
Proof.
  intros Hread. revert acc. induction Hread as [|f c files contents Hf _ IH]; intros acc.
  - simpl. unfold ret. by rewrite app_nil_r.
  - cbn [buildInputParts]. unfold bind, await. rewrite Hf, IH.
    cbn [zip_with concat]. by rewrite <- app_assoc.
Qed.

Lemma framed_parts (files contents : list string) :
  foldr String.append ""
        (concat (zip_with (fun f c => [f; String ETX EmptyString; c; String ETX EmptyString])
                          files contents))
  = framed (interleave files contents).
Proof.
  revert contents. induction files as [|f files IH]; intros [|c contents]; try done.
  unfold interleave. cbn [zip_with concat app foldr framed].
  fold (interleave files contents). fold (framed (interleave files contents)).
  rewrite IH. reflexivity.
Qed.

Lemma split_segment (s rest : string) :
  hasChar ETX s = false ->
  split ETX (s +:+ String ETX rest) = s :: split ETX rest.
Proof.
  induction s as [|x t IH]; intros Hs.
  - change ("" +:+ String ETX rest) with (String ETX rest).
    cbn [split]. by rewrite bool_decide_eq_true_2.
  - cbn [hasChar] in Hs. apply orb_false_iff in Hs as [Hx Ht].
    change (String x t +:+ String ETX rest) with (String x (t +:+ String ETX rest)).
    cbn [split]. rewrite Hx, (IH Ht). done.
Qed.

(** Reading a framed text back gives its segments, and one empty string
    for what follows the last delimiter. *)
Lemma split_framed (segs : list string) :
  Forall (fun s => hasChar ETX s = false) segs ->
  split ETX (framed segs) = segs ++ [EmptyString].
Proof.
  induction 1 as [|s segs Hs _ IH]; [done|].
  cbn [framed foldr]. fold (framed segs). by rewrite split_segment, IH.
Qed.

Lemma pairResults_aligned (files results : list string) :
  NoDup files -> length results = length files ->
  forall (i : nat) f c, files !! i = Some f -> results !! i = Some c ->
                        pairResults files results !! f = Some c.
Proof.
  intros Hnd Hlen i f c Hf Hc.
  pose proof (pairResults_prefix files results
                (Nat.min (length files) (length results)) (Nat.le_refl _)) as [_ Hlook].
  fold (pairResults files results) in Hlook.
  rewrite <- Hc. apply Hlook; [|done|].
  - apply lookup_lt_Some in Hf. lia.
  - rewrite Hlen, Nat.min_id, take_ge by lia.
    intros Hin. apply list_elem_of_lookup in Hin as [j Hj].
    rewrite lookup_drop in Hj.
    pose proof (NoDup_lookup _ _ _ _ Hnd Hf Hj). lia.
Qed.

(** X6. When every file can be read and the formatter answers in the
    framing it is sent (segments closed by the delimiter), [formatFiles]
    runs the formatter once, on the framed paths and contents, and pairs
    the paths with the non-empty segments of the answer. What is sent
    reads back as the paths and contents when none of them holds the
    delimiter. With distinct paths and one non-empty segment for each,
    every path is mapped to its own segment. *)
Theorem formatFiles_framed (env : Env) (files contents segs : list string) (w : World) :
  files <> [] ->
  Forall2 (fun f c => readFile env f = Returned c) files contents ->
  pipeFiles env (framed (interleave files contents)) = Returned (framed segs) ->
  Forall (fun s => hasChar ETX s = false) segs ->
  let input := framed (interleave files contents) in
  exists formattedMap,
    formatFiles env files w = (addFormatterInput w input, Returned formattedMap) /\
    formattedMap = pairResults files (List.filter nonEmpty segs) /\
    (Forall (fun s => hasChar ETX s = false) (interleave files contents) ->
     split ETX input = interleave files contents ++ [EmptyString]) /\
    (NoDup files -> length segs = length files ->
     Forall (fun s => nonEmpty s = true) segs ->
     forall (i : nat) f c, files !! i = Some f -> segs !! i = Some c ->
                           formattedMap !! f = Some c).
Proof.
  intros Hne Hread Hpipe Hsegs input.
  exists (pairResults files (List.filter nonEmpty segs)).
  split; [|split; [done|split]].
  - unfold formatFiles. destruct files as [|f0 rest]; [done|]. cbn [length Nat.eqb].
    unfold bind. rewrite (buildInputParts_reads _ _ _ _ _ Hread). cbn [app].
    rewrite join_empty_sep, framed_parts. subst input.
    unfold execPipeFiles. rewrite Hpipe.
    rewrite split_framed by done. unfold ret, addFormatterInput. do 3 f_equal.
    rewrite List.filter_app. cbn [List.filter String.length Nat.eqb negb].
    rewrite app_nil_r. reflexivity.
  - apply split_framed.
  - intros Hnd Hlen Hall i f c Hf Hc.
    assert (Hfilter : List.filter nonEmpty segs = segs).
    { clear -Hall. induction Hall as [|s segs Hs _ IH]; [done|].
      cbn [List.filter]. by rewrite Hs, IH. }
    rewrite Hfilter. by apply (pairResults_aligned files segs Hnd Hlen i).
Qed.

Lemma formatFiles_framed_witness :
  exists formattedMap,
    formatFiles envTwoFiles ["a.cs"; "b.cs"] emptyWorld
    = (addFormatterInput emptyWorld
         (framed ["a.cs"; "class  A { }"; "b.cs"; "class  B { }"]),
       Returned formattedMap) /\
    formattedMap !! "a.cs" = Some "class A { }" /\
    formattedMap !! "b.cs" = Some "class B { }".
Proof.
  destruct (formatFiles_framed envTwoFiles ["a.cs"; "b.cs"]
              ["class  A { }"; "class  B { }"] ["class A { }"; "class B { }"] emptyWorld)
    as (formattedMap & Hrun & _ & _ & Hlook).
  - discriminate.
  - repeat constructor.
  - reflexivity.
  - repeat constructor.
  - exists formattedMap. split; [exact Hrun|].
    assert (Hnd : NoDup ["a.cs"; "b.cs"]).
    { apply NoDup_cons. split; [|apply NoDup_singleton].
      intros Hin. apply list_elem_of_singleton in Hin. discriminate. }
    split.
    + apply (Hlook Hnd eq_refl ltac:(repeat constructor) 0%nat); reflexivity.
    + apply (Hlook Hnd eq_refl ltac:(repeat constructor) 1%nat); reflexivity.
Defined.

Lemma buildInputParts_unreadable env pre f post contents e acc w :
  Forall2 (fun f c => readFile env f = Returned c) pre contents ->
  readFile env f = Thrown e ->
  buildInputParts env (pre ++ f :: post) acc w = (w, Thrown e).
Proof.
  intros Hread Hf. revert acc.
  induction Hread as [|f0 c pre contents Hf0 _ IH]; intros acc.
  - cbn [app buildInputParts]. unfold bind, await. by rewrite Hf.
  - cbn [app buildInputParts]. unfold bind, await. rewrite Hf0. apply IH.
Qed.

(** X7. [formatFiles] fails as a whole. When a file cannot be read, the
    error of the first such file is thrown and the formatter is not run,
    whatever the other files are; when the formatter cannot be run, its
    error is thrown after it has been handed the framed input. No call
    to GitHub is made and nothing is logged either way. *)
Theorem formatFiles_failure (env : Env) (w : World) :
  (forall pre f post contents e,
      Forall2 (fun f c => readFile env f = Returned c) pre contents ->
      readFile env f = Thrown e ->
      formatFiles env (pre ++ f :: post) w = (w, Thrown e)) /\
  (forall files contents e,
      files <> [] ->
      Forall2 (fun f c => readFile env f = Returned c) files contents ->
      pipeFiles env (framed (interleave files contents)) = Thrown e ->
      formatFiles env files w
      = (addFormatterInput w (framed (interleave files contents)), Thrown e)).
Proof.
  split.
  - intros pre f post contents e Hread Hf. unfold formatFiles.
    destruct (pre ++ f :: post) as [|x l] eqn:Hfiles; [by destruct pre|].
    cbn [length Nat.eqb]. rewrite <- Hfiles. unfold bind.
    by rewrite (buildInputParts_unreadable _ _ _ _ _ _ _ _ Hread Hf).
  - intros files contents e Hne Hread Hpipe. unfold formatFiles.
    destruct files as [|f0 rest]; [done|]. cbn [length Nat.eqb].
    unfold bind. rewrite (buildInputParts_reads _ _ _ _ _ Hread). cbn [app].
    rewrite join_empty_sep, framed_parts.
    unfold execPipeFiles. by rewrite Hpipe.
Qed.

(** ** A formatter that prints nothing *)

Lemma identifyUnformatted_empty_map env files contents acc w :
  Forall2 (fun f c => readFile env f = Returned c) files contents ->
  identifyUnformatted env files ∅ acc w = (w, Returned acc).
Proof.
  induction 1 as [|f c files contents Hf _ IH]; [done|].
  cbn [identifyUnformatted]. unfold bind, await. rewrite Hf.
  by rewrite lookup_empty.
Qed.

Lemma toResolve_all existingComments :
  toResolve existingComments (path <$> existingComments)
  = List.filter (fun c => negb (isResolved c)) existingComments.
Proof.
  unfold toResolve. apply filter_ext_in. intros c Hc.
  rewrite bool_decide_eq_true_2; [by rewrite andb_true_r|].
  apply list_elem_of_fmap. exists c. split; [done | by apply list_elem_of_In].
Qed.

Lemma filter_true {A} (l : list A) : List.filter (fun _ => true) l = l.
Proof. induction l as [|x l IH]; [done|]. cbn [List.filter]. by rewrite IH. Qed.

(** X8. A formatter that prints no segment makes the run pass: whatever
    the files contain, [formatFiles] returns the empty map, no file counts
    as unformatted, no pass of [createViolationComments] is started and no
    failure is reported, and every unresolved annotation of the pull
    request is sent the reply that marks it fixed. *)
Theorem silent_formatter
    (createVC : Env -> Context -> string -> string -> string ->
                list ViolationComment -> Eff unit)
    (env : Env) (context : Context) (files contents : list string)
    (existingComments : list ViolationComment) (stdout : string) (w : World) :
  noFailure env ->
  pull_request context <> None ->
  files <> [] ->
  Forall2 (fun f c => readFile env f = Returned c) files contents ->
  pipeFiles env (framed (interleave files contents)) = Returned stdout ->
  List.filter nonEmpty (split ETX stdout) = [] ->
  let w1 := addFormatterInput w (framed (interleave files contents)) in
  formatFiles env files w = (w1, Returned ∅) /\
  reconcileRun createVC env context files existingComments ∅ w1
  = (addCalls w1 (replyTo <$> List.filter (fun c => negb (isResolved c)) existingComments),
     Returned tt).
Proof.
  intros Hnf Hpr Hne Hread Hpipe Hsilent w1. split.
  - unfold formatFiles. destruct files as [|f0 rest]; [done|]. cbn [length Nat.eqb].
    unfold bind. rewrite (buildInputParts_reads _ _ _ _ _ Hread). cbn [app].
    rewrite join_empty_sep, framed_parts.
    unfold execPipeFiles. rewrite Hpipe. fold nonEmpty. rewrite Hsilent.
    unfold pairResults. cbn [length]. by rewrite Nat.min_0_r.
  - unfold reconcileRun. destruct (pull_request context) as [pr|] eqn:Hctx; [|done].
    unfold tryCatch, bind at 1.
    rewrite (identifyUnformatted_empty_map _ _ _ _ _ Hread).
    cbn [List.filter forEach].
    assert (Hfixed : List.filter (fun file : string => negb (bool_decide (file ∈ [])))
                                 (path <$> existingComments)
                     = path <$> existingComments).
    { rewrite <- (filter_true (path <$> existingComments)) at 2.
      apply filter_ext. intros file. rewrite bool_decide_eq_false_2; [done|].
      apply not_elem_of_nil. }
    rewrite Hfixed. unfold bind at 1.
    assert (Hres : (if (0 <? length (path <$> existingComments))%nat
                    then resolveFixedComments env context existingComments
                           (path <$> existingComments)
                    else ret tt) w1
                   = (addCalls w1 (replyTo <$> List.filter (fun c => negb (isResolved c))
                                                 existingComments),
                      Returned tt)).
    { destruct existingComments as [|c rest].
      - simpl. unfold ret. by rewrite addCalls_nil.
      - rewrite length_fmap. cbn [length Nat.ltb Nat.leb].
        rewrite resolveFixedComments_calls by (by rewrite Hctx).
        rewrite toResolve_all, attempted_noFailure by apply Hnf. done. }
    rewrite Hres. reflexivity.
Qed.

Lemma silent_formatter_witness :
  formatFiles envSilent ["a.cs"; "b.cs"] emptyWorld
  = (addFormatterInput emptyWorld (framed ["a.cs"; "class  A { }"; "b.cs"; "class  B { }"]),
     Returned ∅) /\
  reconcileRun Recreate.createViolationComments envSilent prContext ["a.cs"; "b.cs"]
    [annotationAtLine5; annotationOnQ] ∅
    (addFormatterInput emptyWorld (framed ["a.cs"; "class  A { }"; "b.cs"; "class  B { }"]))
  = (addCalls
       (addFormatterInput emptyWorld
          (framed ["a.cs"; "class  A { }"; "b.cs"; "class  B { }"]))
       [replyTo annotationAtLine5; replyTo annotationOnQ],
     Returned tt).
Proof.
  apply (silent_formatter Recreate.createViolationComments envSilent prContext
           ["a.cs"; "b.cs"] ["class  A { }"; "class  B { }"]
           [annotationAtLine5; annotationOnQ] EmptyString emptyWorld).
  - intros n. reflexivity.
  - discriminate.
  - discriminate.
  - repeat constructor.
  - reflexivity.
  - reflexivity.
Defined.

(** ** The verdict of the run *)

Lemma keepsFailed_ret {A} (a : A) : keepsFailed (ret a).
Proof. done. Qed.

Lemma keepsFailed_await {A} (o : Outcome A) : keepsFailed (await o).
Proof. done. Qed.

Lemma keepsFailed_warning x : keepsFailed (warning x).
Proof. done. Qed.

Lemma keepsFailed_callApi env c : keepsFailed (callApi env c).
Proof. intros w. unfold callApi. by destruct (apiFailure env _). Qed.

Lemma keepsFailed_bind {A B} (m : Eff A) (k : A -> Eff B) :
  keepsFailed m -> (forall a, keepsFailed (k a)) -> keepsFailed (bind m k).
Proof.
  intros Hm Hk w. unfold bind. specialize (Hm w).
  destruct (m w) as [w1 [a|e]]; simpl in *; [|done].
  by rewrite Hk.
Qed.

Lemma keepsFailed_tryCatch {A} (m : Eff A) (h : string -> Eff A) :
  keepsFailed m -> (forall e, keepsFailed (h e)) -> keepsFailed (tryCatch m h).
Proof.
  intros Hm Hh w. unfold tryCatch. specialize (Hm w).
  destruct (m w) as [w1 [a|e]]; simpl in *; [done|].
  by rewrite Hh.
Qed.

Lemma keepsFailed_forEach {X} (l : list X) (body : X -> Eff unit) :
  (forall x, keepsFailed (body x)) -> keepsFailed (forEach l body).
Proof.
  intros Hb. induction l as [|x rest IH]; simpl; [apply keepsFailed_ret|].
  apply keepsFailed_bind; [apply Hb | intros _; apply IH].
Qed.

Lemma Recreate_pass_keepsFailed env context filePath commitSha formattedContent
    existingComments :
  keepsFailed (Recreate.createViolationComments env context filePath commitSha
                 formattedContent existingComments).
Proof.
  unfold Recreate.createViolationComments.
  destruct (pull_request context); [|apply keepsFailed_ret].
  apply keepsFailed_tryCatch; [|intros; apply keepsFailed_warning].
  apply keepsFailed_bind; [apply keepsFailed_await|]. intros files.
  destruct (List.find _ files) as [file|]; [|apply keepsFailed_warning].
  destruct (patch file) as [[|ch prPatch]|]; try apply keepsFailed_warning.
  apply keepsFailed_bind; [apply keepsFailed_await|]. intros originalContent.
  destruct (_ =? _)%nat; [apply keepsFailed_ret|].
  apply keepsFailed_bind.
  - apply keepsFailed_forEach. intros x.
    apply keepsFailed_tryCatch; [apply keepsFailed_callApi|].
    intros; apply keepsFailed_warning.
  - intros _. apply keepsFailed_forEach. intros h.
    unfold Recreate.createForHunk. destruct (_ =? 0); [apply keepsFailed_ret|].
    apply keepsFailed_callApi.
Qed.

Lemma SubHunks_pass_keepsFailed env context filePath commitSha formattedContent
    existingComments :
  keepsFailed (SubHunks.createViolationComments env context filePath commitSha
                 formattedContent existingComments).
Proof.
  unfold SubHunks.createViolationComments.
  destruct (pull_request context); [|apply keepsFailed_ret].
  apply keepsFailed_tryCatch; [|intros; apply keepsFailed_warning].
  apply keepsFailed_bind; [apply keepsFailed_await|]. intros files.
  destruct (List.find _ files) as [file|]; [|apply keepsFailed_warning].
  destruct (patch file) as [[|ch prPatch]|]; try apply keepsFailed_warning.
  apply keepsFailed_bind; [apply keepsFailed_await|]. intros originalContent.
  destruct (_ =? _)%nat; [apply keepsFailed_ret|].
  apply keepsFailed_forEach. intros h.
  unfold SubHunks.reconcileHunk. destruct (_ =? 0); [apply keepsFailed_ret|].
  destruct (List.find _ existingComments) as [c|]; [|apply keepsFailed_callApi].
  case_bool_decide; [apply keepsFailed_ret | apply keepsFailed_callApi].
Qed.

Lemma SubHunks_pass_returns env context filePath commitSha formattedContent
    existingComments w :
  snd (SubHunks.createViolationComments env context filePath commitSha
         formattedContent existingComments w) = Returned tt.
Proof.
  unfold SubHunks.createViolationComments.
  destruct (pull_request context); [|done].
  unfold tryCatch. destruct (bind _ _ w) as [w' [[]|e]]; done.
Qed.

(** A loop of passes that neither throw nor report a failure does
    neither. *)
Lemma forEach_quiet {X} (l : list X) (body : X -> Eff unit) w :
  (forall x w, snd (body x w) = Returned tt) ->
  (forall x, keepsFailed (body x)) ->
  snd (forEach l body w) = Returned tt /\ failed (fst (forEach l body w)) = failed w.
Proof.
  intros Hret Hkeep. revert w. induction l as [|x rest IH]; intros w; [done|].
  cbn [forEach]. unfold bind.
  pose proof (Hret x w) as Hr. pose proof (Hkeep x w) as Hk.
  destruct (body x w) as [w1 [[]|e]]; simpl in *; [|done].
  destruct (IH w1) as [IH1 IH2]. by rewrite IH1, IH2.
Qed.

Lemma run_verdict
    (createVC : Env -> Context -> string -> string -> string ->
                list ViolationComment -> Eff unit)
    env context filePaths existingComments (formattedMap : gmap string string)
    unformattedFiles w :
  (forall e c f s t x w, snd (createVC e c f s t x w) = Returned tt) ->
  (forall e c f s t x, keepsFailed (createVC e c f s t x)) ->
  pull_request context <> None ->
  identifyUnformatted env filePaths formattedMap [] w = (w, Returned unformattedFiles) ->
  let fixedFiles :=
    List.filter (fun file => negb (bool_decide (file ∈ unformattedFiles)))
                (path <$> existingComments) in
  let replied := attempted (apiFailure env) (length (calls w))
                   (replyTo <$> toResolve existingComments fixedFiles) in
  let r := reconcileRun createVC env context filePaths existingComments formattedMap w in
  snd r = Returned tt /\
  failed (fst r) = failed w ++ verdict replied (length unformattedFiles).
Proof.
  intros Hret Hkeep Hpr Hid fixedFiles replied. cbv zeta.
  cut (exists w', reconcileRun createVC env context filePaths existingComments
                    formattedMap w = (w', Returned tt) /\
                  failed w' = failed w ++ verdict replied (length unformattedFiles)).
  { intros (w' & -> & Hw'). by split. }
  unfold reconcileRun. destruct (pull_request context) as [pr|] eqn:Hctx; [|done].
  unfold tryCatch, bind at 1. rewrite Hid. fold fixedFiles.
  assert (Hres : (if (0 <? length fixedFiles)%nat
                  then resolveFixedComments env context existingComments fixedFiles
                  else ret tt) w
                 = (addCalls w (fst replied), outcomeOf (snd replied))).
  { destruct fixedFiles as [|f rest] eqn:Hfixed.
    - subst replied. rewrite toResolve_nil. simpl. unfold ret. by rewrite addCalls_nil.
    - cbn [length Nat.ltb Nat.leb].
      rewrite resolveFixedComments_calls by (by rewrite Hctx). done. }
  unfold bind at 1. rewrite Hres. unfold verdict.
  destruct (snd replied) as [e|]; cbn [outcomeOf].
  - eexists. split; [reflexivity|]. reflexivity.
  - unfold bind.
    match goal with |- context [forEach ?l ?b ?w0] =>
      destruct (forEach_quiet l b w0) as [Hr Hf] end.
    + intros x w0. destruct (formattedMap !! x); [apply Hret | done].
    + intros x. destruct (formattedMap !! x); [apply Hkeep | apply keepsFailed_ret].
    + destruct (forEach _ _ _) as [w3 [[]|e]]; simpl in Hr, Hf; [|done].
      destruct (0 <? length unformattedFiles)%nat.
      * eexists. split; [reflexivity|]. simpl. by rewrite Hf.
      * eexists. split; [reflexivity|]. simpl. by rewrite Hf, app_nil_r.
Qed.

(** X9. What the run reports is decided by the replies and by the number
    of unformatted files alone. If a reply is rejected the run reports
    that error. Otherwise it reports the violations exactly when a file is
    unformatted, with their number, however many deletions, updates or
    creations were rejected on the way; no error of a pass reaches the
    report, and the run itself never throws. This holds with either
    revision of [createViolationComments]. *)
Theorem verdict_from_count (env : Env) (context : Context) (filePaths : list string)
    (existingComments : list ViolationComment) (formattedMap : gmap string string)
    (unformattedFiles : list string) (w : World) :
  pull_request context <> None ->
  identifyUnformatted env filePaths formattedMap [] w = (w, Returned unformattedFiles) ->
  let fixedFiles :=
    List.filter (fun file => negb (bool_decide (file ∈ unformattedFiles)))
                (path <$> existingComments) in
  let replied := attempted (apiFailure env) (length (calls w))
                   (replyTo <$> toResolve existingComments fixedFiles) in
  let recreate :=
    reconcileRun Recreate.createViolationComments env context filePaths
      existingComments formattedMap w in
  let inPlace :=
    reconcileRun SubHunks.createViolationComments env context filePaths
      existingComments formattedMap w in
  (snd recreate = Returned tt /\
   failed (fst recreate) = failed w ++ verdict replied (length unformattedFiles)) /\
  (snd inPlace = Returned tt /\
   failed (fst inPlace) = failed w ++ verdict replied (length unformattedFiles)).
Proof.
  intros Hpr Hid. cbv zeta. split.
  - apply run_verdict; try done.
    + intros; apply Recreate_pass_returns.
    + intros; apply Recreate_pass_keepsFailed.
  - apply run_verdict; try done.
    + intros; apply SubHunks_pass_returns.
    + intros; apply SubHunks_pass_keepsFailed.
Qed.

Lemma verdict_from_count_witness :
  failed (fst (reconcileRun Recreate.createViolationComments envSplitFirstCallFails
                 prContext ["split.cs"] [] splitFormattedMap emptyWorld))
  = [FoundViolations 1] /\
  failed (fst (reconcileRun SubHunks.createViolationComments envSplitFirstCallFails
                 prContext ["split.cs"] [] splitFormattedMap emptyWorld))
  = [FoundViolations 1].
Proof.
  destruct (verdict_from_count envSplitFirstCallFails prContext ["split.cs"] []
              splitFormattedMap ["split.cs"] emptyWorld)
    as [[_ Hrecreate] [_ HinPlace]].
  - discriminate.
  - vm_compute. reflexivity.
  - split; [exact Hrecreate | exact HinPlace].
Defined.

(** ** What the in-place pass leaves behind *)

(** X10. On a pull request, with no call rejected, the desired
    annotations on distinct lines and the existing ids distinct and below
    the next id of the store, an in-place pass that has its patch and hunks leaves the
    comment store in the desired state: on every desired line the first
    unresolved annotation carries the desired body; on every other line
    the first unresolved annotation is the one that was there, with its
    body; ids stay distinct. *)
Theorem inPlace_pass_converges (env : Env) (context : Context)
    (filePath commitSha formattedContent prPatch : string)
    (hunks : list FormattingHunk) (existingComments : list ViolationComment)
    (nextId : Z) :
  noFailure env ->
  pull_request context <> None ->
  SubHunks.passInput env filePath formattedContent = Some (prPatch, hunks) ->
  NoDup (fst <$> SubHunks.desired env prPatch filePath hunks) ->
  NoDup (id <$> existingComments) ->
  Forall (fun c => id c < nextId) existingComments ->
  let ds := SubHunks.desired env prPatch filePath hunks in
  let after :=
    leftBehind existingComments nextId
      (callsOf (SubHunks.createViolationComments env context filePath commitSha
                  formattedContent existingComments emptyWorld)) in
  (forall d, d ∈ ds -> exists c, firstAt (fst d) after = Some c /\ body c = snd d) /\
  (forall l, l ∉ (fst <$> ds) ->
     match firstAt l existingComments, firstAt l after with
     | Some c, Some c' => id c = id c' /\ body c = body c'
     | None, None => True
     | _, _ => False
     end) /\
  NoDup (id <$> after).
Proof.
  intros Hnf Hpr Hin Hds Hids Hlt ds after.
  assert (Hinit : passInvariant existingComments existingComments nextId []).
  { split; [done|]. split; [done|]. split.
    - intros d Hd. by apply elem_of_nil in Hd.
    - intros l _. by destruct (firstAt l existingComments). }
  pose proof (plan_steps commitSha filePath existingComments ds [] existingComments
                nextId Hinit Hds) as (Hnd & _ & Hdone & Hrest).
  cbn [app] in Hdone, Hrest.
  assert (Hafter : after = comments (applyCalls (mkStore existingComments nextId)
                                        (plan commitSha filePath existingComments ds))).
  { unfold after, callsOf.
    rewrite (SubHunks_pass_main _ _ _ _ _ _ _ _ _ Hnf Hpr Hin). reflexivity. }
  rewrite Hafter. split; [done|]. split; done.
Qed.

Lemma inPlace_pass_converges_witness :
  let ds := SubHunks.desired envMulti multiPatch "multi.cs"
              (SubHunks.generateFormattingHunks (structuredPatch envMulti)
                 multiOriginal multiFormatted "multi.cs") in
  let existingComments := [multiAtLine1; multiAtLine5] in
  let after :=
    leftBehind existingComments 102
      (callsOf (SubHunks.createViolationComments envMulti prContext "multi.cs" "abc123"
                  multiFormatted existingComments emptyWorld)) in
  (forall d, d ∈ ds -> exists c, firstAt (fst d) after = Some c /\ body c = snd d) /\
  (forall l, l ∉ (fst <$> ds) ->
     match firstAt l existingComments, firstAt l after with
     | Some c, Some c' => id c = id c' /\ body c = body c'
     | None, None => True
     | _, _ => False
     end) /\
  NoDup (id <$> after).
Proof.
  apply (inPlace_pass_converges envMulti prContext "multi.cs" "abc123" multiFormatted
           multiPatch
           (SubHunks.generateFormattingHunks (structuredPatch envMulti)
              multiOriginal multiFormatted "multi.cs")
           [multiAtLine1; multiAtLine5] 102).
  - intros n. reflexivity.
  - discriminate.
  - vm_compute. reflexivity.
  - refine (bool_decide_unpack _ _). vm_compute. exact I.
  - refine (bool_decide_unpack _ _). vm_compute. exact I.
  - repeat constructor.
Defined.

(** On that input the pass rewrites the annotation of line 1, creates
    one at line 9 and leaves the annotation of line 5 alone. *)
Lemma inPlace_pass_on_multi :
  callsOf (SubHunks.createViolationComments envMulti prContext "multi.cs" "abc123"
             multiFormatted [multiAtLine1; multiAtLine5] emptyWorld)
  = [UpdateReviewComment 100
       (SubHunks.commentBody (join nl ["a b"; "1"; "2"; "3"]) "multi.cs");
     createCall "abc123" "multi.cs"
       (9, SubHunks.commentBody (join nl ["5"; "6"; "7"; "c d"]) "multi.cs")].
Proof. vm_compute. reflexivity. Qed.

(** ** What the delete-and-recreate pass leaves behind *)

Lemma applyCalls_deletes (us cs : list ViolationComment) n :
  applyCalls (mkStore cs n) ((fun c => DeleteReviewComment (id c)) <$> us)
  = mkStore (List.filter (fun c => negb (bool_decide (id c ∈ (id <$> us)))) cs) n.
Proof.
  revert cs. induction us as [|u rest IH]; intros cs.
  - simpl. f_equal. rewrite <- (filter_true cs) at 1. apply filter_ext.
    intros c. reflexivity.
  - rewrite fmap_cons. unfold applyCalls. cbn [foldl applyCall comments nextCommentId].
    fold (applyCalls (mkStore (List.filter (fun c => negb (id c =? id u)) cs) n)
            ((fun c => DeleteReviewComment (id c)) <$> rest)).
    rewrite IH. f_equal. clear IH.
    induction cs as [|c cs IHcs]; [done|].
    cbn [List.filter]. rewrite fmap_cons.
    destruct (Z.eqb_spec (id c) (id u)) as [Heq|Hne]; cbn [negb].
    + rewrite (bool_decide_eq_true_2 (id c ∈ id u :: (id <$> rest)))
        by (rewrite Heq; left).
      cbn [negb]. apply IHcs.
    + cbn [List.filter]. rewrite IHcs. rewrite fmap_cons.
      assert (Hiff : bool_decide (id c ∈ id u :: (id <$> rest))
                     = bool_decide (id c ∈ (id <$> rest))).
      { apply bool_decide_ext. rewrite elem_of_cons. tauto. }
      by rewrite Hiff.
Qed.

Lemma applyCalls_creates commitSha filePath (ds : list (Z * string)) cs n :
  applyCalls (mkStore cs n) (createCall commitSha filePath <$> ds)
  = mkStore (cs ++ createdFrom filePath n ds) (n + Z.of_nat (length ds)).
Proof.
  revert cs n. induction ds as [|d rest IH]; intros cs n.
  - simpl. rewrite app_nil_r. f_equal. lia.
  - rewrite fmap_cons. unfold applyCalls. cbn [foldl].
    unfold applyCall at 2, createCall at 1. cbn [comments nextCommentId].
    fold (applyCalls
            (mkStore (cs ++ [mkViolationComment n filePath (snd d) false (fst d)]) (n + 1))
            (createCall commitSha filePath <$> rest)).
    rewrite IH. cbn [createdFrom length]. rewrite <- app_assoc. cbn [app].
    f_equal. lia.
Qed.

Lemma unresolved_ids (cs : list ViolationComment) :
  NoDup (id <$> cs) ->
  List.filter
    (fun c => negb (bool_decide
                      (id c ∈ (id <$> List.filter (fun c => negb (isResolved c)) cs))))
    cs
  = List.filter isResolved cs.
Proof.
  intros Hnd. apply filter_ext_in. intros c Hc. apply list_elem_of_In in Hc.
  destruct (isResolved c) eqn:Hres.
  - rewrite bool_decide_eq_false_2; [done|].
    intros Hin. apply list_elem_of_fmap in Hin as (u & Hid & Hu).
    apply list_elem_of_In, filter_In in Hu as [Hu Hur].
    apply list_elem_of_In in Hu.
    assert (c = u) as -> by (by apply (NoDup_fmap_inj_on id cs)).
    by rewrite Hres in Hur.
  - rewrite bool_decide_eq_true_2; [done|].
    apply list_elem_of_fmap. exists c. split; [done|].
    apply list_elem_of_In, filter_In. split; [by apply list_elem_of_In | by rewrite Hres].
Qed.

Lemma createdFrom_unresolved filePath n ds :
  List.filter (fun c => negb (isResolved c)) (createdFrom filePath n ds)
  = createdFrom filePath n ds /\
  (fun c => (line c, body c)) <$> createdFrom filePath n ds = ds /\
  Forall (fun c => path c = filePath /\ n <= id c) (createdFrom filePath n ds).
Proof.
  revert n. induction ds as [|[l b] rest IH]; intros n; [done|].
  destruct (IH (n + 1)) as (IH1 & IH2 & IH3).
  cbn [createdFrom List.filter isResolved negb fst snd]. rewrite IH1, fmap_cons, IH2.
  split; [done|]. split; [done|]. constructor; [split; [done | simpl; lia]|].
  eapply Forall_impl; [exact IH3|]. simpl. intros c [? ?]. split; [done | lia].
Qed.

Lemma filter_unresolved_resolved (cs : list ViolationComment) :
  List.filter (fun c => negb (isResolved c)) (List.filter isResolved cs) = [].
Proof.
  induction cs as [|c cs IH]; [done|].
  cbn [List.filter]. destruct (isResolved c) eqn:Hres; [|done].
  cbn [List.filter]. by rewrite Hres.
Qed.

(** X11. On a pull request, with no call rejected and distinct ids, what
    a delete-and-recreate pass leaves in the comment store. A pass that
    reaches its loops replaces the unresolved annotations it is given:
    the store then holds the resolved ones as they were, followed by one
    new unresolved annotation for every desired (line, body), in order,
    on the file of the pass and under fresh ids; the unresolved
    annotations are exactly the desired ones, at most one to a line when
    the desired lines are distinct. A pass that does not reach its loops
    (no listed patch, unreadable file, or a diff without suggestion)
    leaves the store as it was, unresolved annotations included. *)
Theorem Recreate_pass_replaces (env : Env) (context : Context)
    (filePath commitSha formattedContent : string)
    (existingComments : list ViolationComment) (nextId : Z) :
  noFailure env ->
  pull_request context <> None ->
  NoDup (id <$> existingComments) ->
  let after :=
    leftBehind existingComments nextId
      (callsOf (Recreate.createViolationComments env context filePath commitSha
                  formattedContent existingComments emptyWorld)) in
  (Recreate.passInput env filePath formattedContent = None ->
   after = existingComments) /\
  (forall prPatch hunks,
     Recreate.passInput env filePath formattedContent = Some (prPatch, hunks) ->
     let ds := Recreate.desired env prPatch filePath hunks in
     after = List.filter isResolved existingComments ++ createdFrom filePath nextId ds /\
     (fun c => (line c, body c)) <$> List.filter (fun c => negb (isResolved c)) after = ds /\
     (NoDup (fst <$> ds) ->
      NoDup (line <$> List.filter (fun c => negb (isResolved c)) after))).
Proof.
  intros Hnf Hpr Hnd after. split.
  { intros Hin. unfold after, callsOf.
    rewrite Recreate_pass_no_input by done. reflexivity. }
  intros prPatch hunks Hin ds.
  assert (Hafter : after = List.filter isResolved existingComments
                           ++ createdFrom filePath nextId ds).
  { unfold after, callsOf, leftBehind.
    rewrite (Recreate_pass_main _ _ _ _ _ _ _ _ _ Hpr Hin).
    rewrite attempted_noFailure by apply Hnf.
    cbn [snd fst addCalls addWarnings calls emptyWorld app].
    unfold applyCalls. rewrite foldl_app.
    fold (applyCalls (mkStore existingComments nextId)
            ((fun c => DeleteReviewComment (id c))
               <$> List.filter (fun c => negb (isResolved c)) existingComments)).
    rewrite applyCalls_deletes, unresolved_ids by done.
    fold (applyCalls (mkStore (List.filter isResolved existingComments) nextId)
            (createCall commitSha filePath <$> Recreate.desired env prPatch filePath hunks)).
    by rewrite applyCalls_creates. }
  destruct (createdFrom_unresolved filePath nextId ds) as (Hunres & Hds & _).
  assert (Hlive : List.filter (fun c => negb (isResolved c)) after
                  = createdFrom filePath nextId ds).
  { rewrite Hafter, List.filter_app, filter_unresolved_resolved, Hunres. done. }
  split; [done|]. split; [by rewrite Hlive|].
  intros Hlines. rewrite Hlive.
  assert (Hfst : line <$> createdFrom filePath nextId ds = fst <$> ds).
  { rewrite <- Hds at 2. rewrite <- list_fmap_compose. done. }
  by rewrite Hfst.
Qed.

Lemma Recreate_pass_replaces_witness :
  let existingComments := [multiAtLine1; multiAtLine5; multiResolvedAtLine9] in
  leftBehind existingComments 103
    (callsOf (Recreate.createViolationComments envMulti prContext "multi.cs" "abc123"
                multiFormatted existingComments emptyWorld))
  = [multiResolvedAtLine9;
     mkViolationComment 103 "multi.cs" (Recreate.commentBody "a b" "multi.cs") false 1;
     mkViolationComment 104 "multi.cs" (Recreate.commentBody "c d" "multi.cs") false 9] /\
  leftBehind [staleAnnotation] 51
    (callsOf (Recreate.createViolationComments envDeletion prContext "del.cs" "abc123"
                deletionFormatted [staleAnnotation] emptyWorld))
  = [staleAnnotation].
Proof.
  cbv zeta. split.
  - destruct (Recreate_pass_replaces envMulti prContext "multi.cs" "abc123" multiFormatted
                [multiAtLine1; multiAtLine5; multiResolvedAtLine9] 103)
      as [_ Hsome].
    + intros n. reflexivity.
    + discriminate.
    + refine (bool_decide_unpack _ _). vm_compute. exact I.
    + destruct (Hsome multiPatch
                  (Recreate.generateFormattingHunks (structuredPatch envMulti)
                     multiOriginal multiFormatted "multi.cs")) as [Hafter _];
        [vm_compute; reflexivity|].
      rewrite Hafter. vm_compute. reflexivity.
  - destruct (Recreate_pass_replaces envDeletion prContext "del.cs" "abc123"
                deletionFormatted [staleAnnotation] 51) as [Hnone _].
    + intros n. reflexivity.
    + discriminate.
    + apply NoDup_singleton.
    + apply Hnone. vm_compute. reflexivity.
Defined.

(** ** The anchors of the delete-and-recreate revision *)

Lemma newLinesBefore_all (ls : list string) :
  newLinesBefore ls (Z.of_nat (length ls)) = Z.of_nat (length (List.filter isNewFileLine ls)).
Proof. unfold newLinesBefore. by rewrite Nat2Z.id, take_ge by lia. Qed.

Lemma newLinesBefore_nonneg ls i : 0 <= newLinesBefore ls i.
Proof. unfold newLinesBefore. lia. Qed.

(** The anchor of the suggestion of a hunk lies among the new-file lines
    of the hunk. *)
Lemma Recreate_anchor_range hunk fh :
  fh ∈ Recreate.hunkFormattingHunks hunk ->
  newStart hunk <= lineNumber fh < newStart hunk + newLineCount hunk.
Proof.
  intros Hfh. destruct (Recreate_hunk_shape hunk) as [Hnone Hsome].
  destruct (additions (lines hunk)) as [|x xs] eqn:Hadds.
  { rewrite Hnone in Hfh by done. by apply elem_of_nil in Hfh. }
  destruct Hsome as (k & Hk & Hbefore & Heq); [done|].
  rewrite Heq in Hfh. apply list_elem_of_singleton in Hfh as ->. cbn [lineNumber].
  pose proof (newLinesBefore_nonneg (lines hunk) k).
  split; [lia|].
  (* an added line sits at or after the first change line *)
  assert (Hadd : exists l, l ∈ lines hunk /\ isAdditionLine l = true).
  { assert (Hin : x ∈ additions (lines hunk)) by (rewrite Hadds; left).
    apply list_elem_of_fmap in Hin as (l & _ & Hl).
    apply list_elem_of_In, filter_In in Hl as [Hl Ha].
    exists l. split; [by apply list_elem_of_In | done]. }
  destruct Hadd as (l & Hl & Ha).
  apply list_elem_of_split in Hl as (pre & rest & Hsplit).
  assert (Hka : k <= Z.of_nat (length pre)).
  { destruct (Z.le_gt_cases k (Z.of_nat (length pre))) as [|Hgt]; [done|].
    exfalso. apply (Hbefore (Z.of_nat (length pre))); [lia|].
    exists l. split; [rewrite Hsplit; apply lineAt_middle|].
    unfold isChangeLine. by rewrite Ha. }
  pose proof (newLinesBefore_mono (lines hunk) k (Z.of_nat (length pre)) Hka) as H1.
  pose proof (newLinesBefore_middle pre rest l) as H2. rewrite <- Hsplit in H2.
  assert (Hnew : isNewFileLine l = true)
    by (unfold isNewFileLine; rewrite Ha; apply orb_true_r).
  rewrite Hnew in H2.
  pose proof (newLinesBefore_mono (lines hunk) (Z.of_nat (length pre) + 1)
                (Z.of_nat (length (lines hunk)))) as H3.
  rewrite newLinesBefore_all in H3. unfold newLineCount.
  assert (Z.of_nat (length pre) + 1 <= Z.of_nat (length (lines hunk))).
  { rewrite Hsplit, length_app. cbn [length]. lia. }
  lia.
Qed.

Lemma Recreate_anchors_sorted (hunks : list Hunk) :
  hunksInOrder hunks ->
  increasing (lineNumber <$> concat (Recreate.hunkFormattingHunks <$> hunks)).
Proof.
  induction hunks as [|h rest IH]; intros Hord; [done|].
  destruct Hord as [Hh Hrest]. specialize (IH Hrest).
  rewrite fmap_cons. cbn [concat].
  pose proof (Recreate_anchor_range h) as Hrange.
  assert (Hshape : Recreate.hunkFormattingHunks h = []
                   \/ exists fh, Recreate.hunkFormattingHunks h = [fh]).
  { unfold Recreate.hunkFormattingHunks.
    destruct (_ =? -1); [by left|]. destruct (_ =? 0)%nat; [by left|]. right. by eexists. }
  destruct Hshape as [->|[fh Heq]]; [done|].
  rewrite Heq in *. cbn [app fmap list_fmap increasing]. split; [|exact IH].
  apply Forall_fmap, Forall_forall. intros fh' Hfh'. cbn.
  apply list_elem_of_In, in_concat in Hfh' as (l & Hl & Hin).
  apply list_elem_of_In, list_elem_of_fmap in Hl as (h' & -> & Hh').
  apply list_elem_of_In in Hin.
  pose proof (Recreate_anchor_range h' fh' Hin) as Hr'.
  rewrite Forall_forall in Hh. specialize (Hh h' Hh').
  specialize (Hrange fh ltac:(left)). lia.
Qed.

Lemma increasing_NoDup (l : list Z) : increasing l -> NoDup l.
Proof.
  induction l as [|x rest IH]; intros Hinc; [apply NoDup_nil_2|].
  destruct Hinc as [Hx Hrest]. apply NoDup_cons. split; [|by apply IH].
  intros Hin. rewrite Forall_forall in Hx. specialize (Hx x Hin). lia.
Qed.

Lemma Recreate_desired_lines env prPatch filePath hunks :
  fst <$> Recreate.desired env prPatch filePath hunks
  = lineNumber <$> List.filter
      (fun h => negb (findLineInPRDiff (parseDiff env) prPatch (lineNumber h) =? 0)) hunks.
Proof.
  unfold Recreate.desired. rewrite <- list_fmap_compose.
  apply list_eq. intros i. rewrite !list_lookup_fmap.
  destruct (List.filter _ hunks !! i) as [h|] eqn:Hi; [|done].
  cbn. f_equal.
  apply list_elem_of_lookup_2, list_elem_of_In, filter_In in Hi as [_ Hvis].
  rewrite findLineInPRDiff_visible in *.
  case_bool_decide; [done|]. done.
Qed.

(** X12. When the hunks of the line diff come in the order of the new
    file, none starting before the previous one's lines are over, the
    suggestions of the delete-and-recreate revision have increasing
    anchors, each inside the new-file lines of its own diff hunk; so the
    annotations a pass wants to create sit on pairwise distinct lines. *)
Theorem Recreate_anchors_increasing (env : Env)
    (originalContent formattedContent filePath prPatch : string) :
  hunksInOrder (structuredPatch env filePath originalContent formattedContent) ->
  let hunks :=
    Recreate.generateFormattingHunks (structuredPatch env)
      originalContent formattedContent filePath in
  increasing (lineNumber <$> hunks) /\
  (forall fh, fh ∈ hunks ->
     exists h, h ∈ structuredPatch env filePath originalContent formattedContent /\
               newStart h <= lineNumber fh < newStart h + newLineCount h) /\
  NoDup (fst <$> Recreate.desired env prPatch filePath hunks).
Proof.
  intros Hord hunks.
  assert (Hhunks : hunks = concat (Recreate.hunkFormattingHunks
                                     <$> structuredPatch env filePath originalContent
                                           formattedContent)).
  { unfold hunks, Recreate.generateFormattingHunks. by rewrite foldl_app_concat. }
  assert (Hinc : increasing (lineNumber <$> hunks))
    by (rewrite Hhunks; by apply Recreate_anchors_sorted).
  split; [done|]. split.
  - intros fh Hfh. rewrite Hhunks in Hfh.
    apply list_elem_of_In, in_concat in Hfh as (l & Hl & Hin).
    apply list_elem_of_In, list_elem_of_fmap in Hl as (h & -> & Hh).
    exists h. split; [done|]. apply Recreate_anchor_range. by apply list_elem_of_In.
  - rewrite Recreate_desired_lines. apply NoDup_fmap_filter. by apply increasing_NoDup.
Qed.

Lemma Recreate_anchors_increasing_witness :
  let hunks :=
    Recreate.generateFormattingHunks (structuredPatch envMulti)
      multiOriginal multiFormatted "multi.cs" in
  increasing (lineNumber <$> hunks) /\
  (forall fh, fh ∈ hunks ->
     exists h, h ∈ structuredPatch envMulti "multi.cs" multiOriginal multiFormatted /\
               newStart h <= lineNumber fh < newStart h + newLineCount h) /\
  NoDup (fst <$> Recreate.desired envMulti multiPatch "multi.cs" hunks).
Proof.
  apply (Recreate_anchors_increasing envMulti multiOriginal multiFormatted "multi.cs"
           multiPatch).
  vm_compute. split; [|split; [constructor | exact I]].
  constructor; [|constructor]. intros H. discriminate H.
Defined.

(** ** The whole run *)

Lemma tryCatch_bind_returned {A B} (m : Eff A) (k : A -> Eff B) h w w' a :
  m w = (w', Returned a) -> tryCatch (bind m k) h w = tryCatch (k a) h w'.
Proof. intros Hm. unfold tryCatch, bind. by rewrite Hm. Qed.

Lemma tryCatch_bind_thrown {A B} (m : Eff A) (k : A -> Eff B) h w w' e :
  m w = (w', Thrown e) -> tryCatch (bind m k) h w = h e w'.
Proof. intros Hm. unfold tryCatch, bind. by rewrite Hm. Qed.

(** A [try] inside a [try] with the same handler changes nothing when
    the handler does not throw. *)
Lemma tryCatch_nested (m : Eff unit) (x : string -> RunFailure) w :
  tryCatch (tryCatch m (fun e => setFailed (x e))) (fun e => setFailed (x e)) w
  = tryCatch m (fun e => setFailed (x e)) w.
Proof. unfold tryCatch. by destruct (m w) as [w' [a|e]]. Qed.

Lemma keepsFailed_getExistingComments env context :
  keepsFailed (getExistingComments env context).
Proof.
  unfold getExistingComments. destruct (pull_request context); [|apply keepsFailed_ret].
  apply keepsFailed_bind; [apply keepsFailed_await | intros; apply keepsFailed_ret].
Qed.

Lemma keepsFailed_getChangedCSharpFiles listing context :
  keepsFailed (getChangedCSharpFiles listing context).
Proof.
  unfold getChangedCSharpFiles. destruct (pull_request context); [|apply keepsFailed_await].
  apply keepsFailed_bind; [apply keepsFailed_await | intros; apply keepsFailed_ret].
Qed.

Lemma keepsFailed_formatFiles env files : keepsFailed (formatFiles env files).
Proof.
  unfold formatFiles. destruct (_ =? _)%nat; [apply keepsFailed_ret|].
  apply keepsFailed_bind.
  - intros w. by rewrite buildInputParts_world.
  - intros parts. apply keepsFailed_bind; [done | intros; apply keepsFailed_ret].
Qed.

Lemma keepsFailed_identifyUnformatted env filePaths (formattedMap : gmap string string) acc :
  keepsFailed (identifyUnformatted env filePaths formattedMap acc).
Proof.
  revert acc. induction filePaths as [|f rest IH]; intros acc; [apply keepsFailed_ret|].
  cbn [identifyUnformatted]. apply keepsFailed_bind; [apply keepsFailed_await|].
  intros originalContent. destruct (formattedMap !! f); [|apply IH].
  destruct (_ && _); apply IH.
Qed.

Lemma keepsFailed_resolveFixedComments env context existingComments fixedFiles :
  keepsFailed (resolveFixedComments env context existingComments fixedFiles).
Proof.
  unfold resolveFixedComments. destruct (pull_request context); [|apply keepsFailed_ret].
  destruct (_ =? _)%nat; [apply keepsFailed_ret|].
  apply keepsFailed_forEach. intros c. apply keepsFailed_callApi.
Qed.

Lemma reportsOnce_keeps {A} (m : Eff A) : keepsFailed m -> reportsOnce m.
Proof.
  intros Hm w. specialize (Hm w). destruct (m w) as [w' [a|e]]; simpl in Hm; [by left | done].
Qed.

Lemma reportsOnce_bind {A B} (m : Eff A) (k : A -> Eff B) :
  keepsFailed m -> (forall a, reportsOnce (k a)) -> reportsOnce (bind m k).
Proof.
  intros Hm Hk w. unfold bind. specialize (Hm w).
  destruct (m w) as [w1 [a|e]]; simpl in Hm; [|done].
  specialize (Hk a w1). destruct (k a w1) as [w2 [b|e]]; by rewrite <- Hm.
Qed.

Lemma reportsOnce_setFailed x : reportsOnce (setFailed x).
Proof. intros w. right. by exists x. Qed.

Lemma run_reportsOnce
    (createVC : Env -> Context -> string -> string -> string ->
                list ViolationComment -> Eff unit)
    env action context w :
  (forall e c f s t x, keepsFailed (createVC e c f s t x)) ->
  let r := run createVC env action context w in
  snd r = Returned tt /\
  (failed (fst r) = failed w \/ exists x, failed (fst r) = failed w ++ [x]).
Proof.
  intros Hkeep. cbv zeta. unfold run.
  match goal with |- context [tryCatch ?m ?h w] =>
    assert (Hbody : reportsOnce m) end.
  { destruct (pull_request context) as [pr|]; [|apply reportsOnce_keeps, keepsFailed_ret].
    apply reportsOnce_bind; [apply keepsFailed_await|]. intros command.
    apply reportsOnce_bind; [apply keepsFailed_await|]. intros githubToken.
    destruct (negb _); [apply reportsOnce_keeps, keepsFailed_await|].
    apply reportsOnce_bind.
    { apply keepsFailed_bind; [apply keepsFailed_await | intros; apply keepsFailed_ret]. }
    intros _. apply reportsOnce_bind; [apply keepsFailed_getChangedCSharpFiles|].
    intros changedFiles.
    destruct (_ =? _)%nat; [apply reportsOnce_keeps, keepsFailed_ret|].
    apply reportsOnce_bind; [apply keepsFailed_getExistingComments|].
    intros existingComments.
    apply reportsOnce_bind; [apply keepsFailed_formatFiles|]. intros formattedMap.
    apply reportsOnce_bind; [apply keepsFailed_identifyUnformatted|].
    intros unformattedFiles.
    apply reportsOnce_bind.
    { destruct (_ <? _)%nat;
        [apply keepsFailed_resolveFixedComments | apply keepsFailed_ret]. }
    intros _. apply reportsOnce_bind.
    { apply keepsFailed_forEach. intros file.
      destruct (formattedMap !! file); [apply Hkeep | apply keepsFailed_ret]. }
    intros _. destruct (_ <? _)%nat;
      [apply reportsOnce_setFailed | apply reportsOnce_keeps, keepsFailed_ret]. }
  unfold tryCatch. specialize (Hbody w).
  destruct (_ w) as [w' [[]|e]]; [by split|].
  split; [done|]. right. exists (RunError e). simpl. by rewrite Hbody.
Qed.

(** X13. Whatever the inputs, the listing, the files, the formatter and
    the GitHub client do, [run] returns normally and calls
    [core.setFailed] at most once, with either revision of
    [createViolationComments]. *)
Theorem run_reports_once (env : Env) (action : Action) (context : Context) (w : World) :
  let recreate := run Recreate.createViolationComments env action context w in
  let inPlace := run SubHunks.createViolationComments env action context w in
  (snd recreate = Returned tt /\
   (failed (fst recreate) = failed w \/
    exists x, failed (fst recreate) = failed w ++ [x])) /\
  (snd inPlace = Returned tt /\
   (failed (fst inPlace) = failed w \/
    exists x, failed (fst inPlace) = failed w ++ [x])).
Proof.
  cbv zeta. split.
  - apply run_reportsOnce. intros; apply Recreate_pass_keepsFailed.
  - apply run_reportsOnce. intros; apply SubHunks_pass_keepsFailed.
Qed.

Lemma changed_paths (listed : list ListedFile) :
  changed_path
    <$> ((fun file =>
            mkChangedFile (listed_filename file) (listed_sha file) (listed_status file))
         <$> List.filter isCSharpFile listed)
  = changedPaths listed.
Proof. unfold changedPaths. by rewrite <- list_fmap_compose. Qed.

(** The front of [run], up to the formatter. *)
Lemma run_front
    (createVC : Env -> Context -> string -> string -> string ->
                list ViolationComment -> Eff unit)
    (env : Env) (action : Action) (context : Context) (pr : PullRequest)
    (token : string) (listed : list ListedFile) (w : World) :
  pull_request context = Some pr ->
  commandInput action = Returned "check" ->
  tokenInput action = Returned token ->
  (forall args, exists code, dotnet action args = Returned code) ->
  pullsListFiles action = Returned listed ->
  let filePaths := changedPaths listed in
  (filePaths = [] -> run createVC env action context w = (w, Returned tt)) /\
  (filePaths <> [] ->
   (forall e, listReviewComments env = Thrown e ->
      run createVC env action context w = setFailed (RunError e) w) /\
   (forall fetched, listReviewComments env = Returned fetched ->
      run createVC env action context w
      = tryCatch
          (do formattedMap <- formatFiles env filePaths;
           reconcileRun createVC env context filePaths (actionComments fetched)
             formattedMap)
          (fun message => setFailed (RunError message)) w)).
Proof.
  intros Hpr Hcmd Htoken Hdotnet Hlist filePaths.
  unfold run. rewrite Hpr.
  rewrite (tryCatch_bind_returned _ _ _ w w "check") by (unfold await; by rewrite Hcmd).
  rewrite (tryCatch_bind_returned _ _ _ w w token) by (unfold await; by rewrite Htoken).
  rewrite bool_decide_eq_true_2 by done. cbn [negb].
  rewrite (tryCatch_bind_returned _ _ _ w w tt).
  2:{ unfold installCSharpier, bind, await.
      match goal with |- context [dotnet action ?args] =>
        destruct (Hdotnet args) as [code ->] end. done. }
  rewrite (tryCatch_bind_returned _ _ _ w w
             ((fun file =>
                 mkChangedFile (listed_filename file) (listed_sha file) (listed_status file))
              <$> List.filter isCSharpFile listed)).
  2:{ unfold getChangedCSharpFiles. rewrite Hpr, Hlist. done. }
  rewrite changed_paths. fold filePaths.
  rewrite length_fmap.
  assert (Hlen : length (List.filter isCSharpFile listed) = length filePaths)
    by (unfold filePaths, changedPaths; by rewrite length_fmap).
  rewrite Hlen. split.
  - intros ->. done.
  - intros Hne. destruct filePaths as [|f0 rest] eqn:Hpaths; [done|].
    cbn [length Nat.eqb]. split.
    + intros e He. rewrite (tryCatch_bind_thrown _ _ _ w w e); [done|].
      unfold getExistingComments. rewrite Hpr. unfold bind, await. by rewrite He.
    + intros fetched Hfetched.
      rewrite (tryCatch_bind_returned _ _ _ w w (actionComments fetched)).
      2:{ unfold getExistingComments. rewrite Hpr. unfold bind, await. by rewrite Hfetched. }
      destruct (formatFiles env (f0 :: rest) w) as [w1 [formattedMap|e]] eqn:Hfmt.
      * rewrite !(tryCatch_bind_returned _ _ _ w w1 formattedMap Hfmt).
        unfold reconcileRun. rewrite Hpr. by rewrite tryCatch_nested.
      * by rewrite !(tryCatch_bind_thrown _ _ _ w w1 e Hfmt).
Qed.

(** X14. How [run] composes its parts on a pull request, asked to check,
    with the tool installed and the listing fetched. The files it works on
    are the listed files named [.cs] or [.csx] that are not removed, in
    listing order. With no such file it ends at once: no comment is
    fetched, the formatter is not run, nothing is reported. Otherwise a
    rejected comment listing is reported as the error of the run, and a
    successful one gives the annotations carrying the marker, with which
    the run is [formatFiles] on those paths followed by the
    reconciliation, any error being reported once. *)
Theorem run_pipeline
    (createVC : Env -> Context -> string -> string -> string ->
                list ViolationComment -> Eff unit)
    (env : Env) (action : Action) (context : Context) (pr : PullRequest)
    (token : string) (listed : list ListedFile) (w : World) :
  pull_request context = Some pr ->
  commandInput action = Returned "check" ->
  tokenInput action = Returned token ->
  (forall args, exists code, dotnet action args = Returned code) ->
  pullsListFiles action = Returned listed ->
  let filePaths := changedPaths listed in
  (filePaths = [] -> run createVC env action context w = (w, Returned tt)) /\
  (filePaths <> [] ->
   (forall e, listReviewComments env = Thrown e ->
      run createVC env action context w = setFailed (RunError e) w) /\
   (forall fetched, listReviewComments env = Returned fetched ->
      run createVC env action context w
      = tryCatch
          (do formattedMap <- formatFiles env filePaths;
           reconcileRun createVC env context filePaths (actionComments fetched)
             formattedMap)
          (fun message => setFailed (RunError message)) w)).
Proof. apply run_front. Qed.

Lemma run_pipeline_witness :
  run Recreate.createViolationComments envTwoFiles checkAction prContext emptyWorld
  = tryCatch
      (do formattedMap <- formatFiles envTwoFiles ["a.cs"; "b.cs"];
       reconcileRun Recreate.createViolationComments envTwoFiles prContext
         ["a.cs"; "b.cs"] [] formattedMap)
      (fun message => setFailed (RunError message)) emptyWorld.
Proof.
  destruct (run_pipeline Recreate.createViolationComments envTwoFiles checkAction
              prContext (mkPullRequest 6 "abc123") "token"
              [mkListedFile "a.cs" "1" "modified";
               mkListedFile "old.cs" "2" "removed";
               mkListedFile "README.md" "3" "modified";
               mkListedFile "b.cs" "4" "added"]
              emptyWorld) as [_ Hrun].
  - reflexivity.
  - reflexivity.
  - reflexivity.
  - intros args. exists 0. reflexivity.
  - reflexivity.
  - destruct Hrun as [_ Hrun]; [vm_compute; discriminate|].
    exact (Hrun [] eq_refl).
Defined.

(** ** Which files count as unformatted *)

Lemma identifyUnformatted_reads env filePaths contents
    (formattedMap : gmap string string) acc w :
  Forall2 (fun f c => readFile env f = Returned c) filePaths contents ->
  identifyUnformatted env filePaths formattedMap acc w
  = (w, Returned (acc ++ (fst <$> List.filter (isUnformatted formattedMap)
                                      (zip filePaths contents)))).
Proof.
  intros Hread. revert acc.
  induction Hread as [|f c filePaths contents Hf _ IH]; intros acc.
  - simpl. unfold ret. by rewrite app_nil_r.
  - cbn [identifyUnformatted zip zip_with List.filter]. unfold bind, await. rewrite Hf.
    destruct (formattedMap !! f) as [fc|] eqn:Hm.
    + assert (Hu : isUnformatted formattedMap (f, c)
                   = negb (String.length fc =? 0)%nat && negb (bool_decide (c = fc)))
        by (unfold isUnformatted, nonEmpty; cbn [fst snd]; by rewrite Hm).
      rewrite Hu. destruct (_ && _); [|apply IH].
      rewrite IH, fmap_cons. cbn [fst]. by rewrite <- app_assoc.
    + assert (Hu : isUnformatted formattedMap (f, c) = false)
        by (unfold isUnformatted; cbn [fst snd]; by rewrite Hm).
      rewrite Hu. apply IH.
Qed.

Lemma identifyUnformatted_unreadable env pre f post contents
    (formattedMap : gmap string string) e acc w :
  Forall2 (fun f c => readFile env f = Returned c) pre contents ->
  readFile env f = Thrown e ->
  identifyUnformatted env (pre ++ f :: post) formattedMap acc w = (w, Thrown e).
Proof.
  intros Hread Hf. revert acc.
  induction Hread as [|f0 c pre contents Hf0 _ IH]; intros acc.
  - cbn [app identifyUnformatted]. unfold bind, await. by rewrite Hf.
  - cbn [app identifyUnformatted]. unfold bind, await. rewrite Hf0.
    destruct (formattedMap !! f0) as [fc|]; [|apply IH].
    destruct (_ && _); apply IH.
Qed.

(** X15. The loop of [run] that collects the unformatted files keeps, in
    order and with repetitions, exactly the paths for which the formatter
    has returned a non-empty content different from the file's; a path
    without entry in the map, or with an empty content, never counts.
    When a file cannot be read the loop throws the error of the first such
    file, so the run reports that error and sends no call. *)
Theorem unformatted_files (env : Env) (formattedMap : gmap string string) (w : World) :
  (forall filePaths contents,
      Forall2 (fun f c => readFile env f = Returned c) filePaths contents ->
      identifyUnformatted env filePaths formattedMap [] w
      = (w, Returned (fst <$> List.filter (isUnformatted formattedMap)
                                (zip filePaths contents)))) /\
  (forall createVC context pre f post contents existingComments e,
      pull_request context <> None ->
      Forall2 (fun f c => readFile env f = Returned c) pre contents ->
      readFile env f = Thrown e ->
      identifyUnformatted env (pre ++ f :: post) formattedMap [] w = (w, Thrown e) /\
      reconcileRun createVC env context (pre ++ f :: post) existingComments formattedMap w
      = setFailed (RunError e) w).
Proof.
  split.
  - intros filePaths contents Hread.
    by rewrite (identifyUnformatted_reads _ _ _ _ _ _ Hread).
  - intros createVC context pre f post contents existingComments e Hpr Hread Hf.
    pose proof (identifyUnformatted_unreadable env pre f post contents formattedMap
                  e [] w Hread Hf) as Hid.
    split; [done|].
    unfold reconcileRun. destruct (pull_request context); [|done].
    by rewrite (tryCatch_bind_thrown _ _ _ w w e Hid).
Qed.

(** * The suggested content in both revisions *)

(** A change line that belongs to the new file is an added line. *)
Lemma change_new_is_addition l :
  isChangeLine l = true -> isNewFileLine l = isAdditionLine l.
Proof.
  unfold isChangeLine, isNewFileLine, isAdditionLine, isDeletionLine, isContextLine,
    startsWith.
  destruct l as [|c t]; [done|].
  destruct c as [[] [] [] [] [] [] [] []]; cbv; try done.
Qed.

Lemma newSide_of_changes (ls : list string) :
  Forall (fun l => isChangeLine l = true) ls -> newSide ls = additions ls.
Proof.
  induction 1 as [|l ls Hl _ IH]; [done|].
  unfold newSide, additions in *. cbn [List.filter].
  rewrite (change_new_is_addition l Hl).
  destruct (isAdditionLine l); [|exact IH]. by rewrite !fmap_cons, IH.
Qed.

Lemma prefix_append (sub rest : string) : String.prefix sub (sub +:+ rest) = true.
Proof.
  induction sub as [|c t IH]; [by destruct rest|].
  change (String c t +:+ rest) with (String c (t +:+ rest)).
  cbn [String.prefix]. by destruct (Ascii.ascii_dec c c).
Qed.

(** [includes] finds every occurrence. *)
Lemma includes_complete (s sub before after : string) :
  s = before +:+ sub +:+ after -> includes s sub = true.
Proof.
  intros ->. induction before as [|c t IH].
  - change ("" +:+ sub +:+ after) with (sub +:+ after).
    destruct (sub +:+ after) eqn:Heq; cbn [includes]; rewrite <- Heq, prefix_append; done.
  - change (String c t +:+ sub +:+ after) with (String c (t +:+ sub +:+ after)).
    cbn [includes]. rewrite IH. apply orb_true_r.
Qed.

(** The suggestion of the one-hunk-per-diff-hunk revision holds the added
    lines of its diff hunk; when the change lines of the hunk form one
    run, these are consecutive lines of the formatted text, from the
    anchor line on. *)
Lemma Recreate_content_slice (formatted : string) (h : Hunk) (fh : FormattingHunk) :
  matchesFormatted formatted h ->
  fh ∈ Recreate.hunkFormattingHunks h ->
  content fh = join nl (additions (lines h)) /\
  forall first last,
    isMaximalRun (lines h) first last ->
    (forall i, changeAt (lines h) i -> first <= i <= last) ->
    let slice :=
      take (length (additions (lines h)))
           (drop (Z.to_nat (lineNumber fh - 1)) (split LF formatted)) in
    additions (lines h) = slice /\
    content fh = join nl slice /\
    exists before after, formatted = before +:+ content fh +:+ after.
Proof.
  intros [Hstart Hnew] Hfh.
  destruct (Recreate_hunk_shape h) as [Hnone Hsome].
  destruct (decide (additions (lines h) = [])) as [Hnil|Hne].
  { rewrite (Hnone Hnil) in Hfh. by apply elem_of_nil in Hfh. }
  destruct (Hsome Hne) as (k & Hk & Hbefore & Heq).
  rewrite Heq in Hfh. apply list_elem_of_singleton in Hfh as ->.
  cbn [content lineNumber]. split; [done|].
  intros first last (Hfl & Hlast & Hall & _ & _) Hcover.
  assert (Hkf : k = first).
  { pose proof (Hcover k Hk) as Hkr.
    destruct (Z.eq_dec k first) as [|Hnk]; [done|]. exfalso.
    apply (Hbefore first); [lia|]. apply Hall. lia. }
  subst k.
  set (a := Z.to_nat first). set (n := Z.to_nat (last - first + 1)).
  set (L := split LF formatted).
  assert (Hsplit : lines h = take a (lines h) ++ take n (drop a (lines h))
                             ++ drop n (drop a (lines h)))
    by (by rewrite !take_drop).
  assert (Hrun : Forall (fun l => isChangeLine l = true) (take n (drop a (lines h)))).
  { apply Forall_lookup. intros j l Hj.
    apply lookup_take_Some in Hj as [Hj Hjn]. rewrite lookup_drop in Hj.
    destruct (Hall (first + Z.of_nat j)) as (l' & Hl' & Hc); [lia|].
    unfold lineAt in Hl'. destruct (Z.ltb_spec (first + Z.of_nat j) 0); [lia|].
    replace (Z.to_nat (first + Z.of_nat j)) with (a + j)%nat in Hl' by lia.
    congruence. }
  assert (Hadd : additions (lines h) = newSide (take n (drop a (lines h)))).
  { rewrite (newSide_of_changes _ Hrun). symmetry. apply additions_between; [lia|lia| |].
    - intros i Hi Hc. apply Hcover in Hc. lia.
    - intros i Hi Hc. apply Hcover in Hc. lia. }
  assert (Hslice : newSide (take n (drop a (lines h))) =
                   take (length (newSide (take n (drop a (lines h)))))
                        (drop (Z.to_nat (newStart h - 1)
                               + length (newSide (take a (lines h)))) L)).
  { apply (slice_of_slice _ _ (newSide (drop n (drop a (lines h))))).
    rewrite <- !newSide_app, <- Hsplit. exact Hnew. }
  assert (Hanchor : Z.to_nat (newStart h + newLinesBefore (lines h) first - 1)
                    = (Z.to_nat (newStart h - 1)
                       + length (newSide (take a (lines h))))%nat).
  { unfold newLinesBefore, newSide. rewrite length_fmap. fold a. lia. }
  cbv zeta. rewrite Hanchor, Hadd.
  split; [exact Hslice|]. split; [by rewrite <- Hslice|].
  rewrite Hslice.
  destruct (join_slice L
              (Z.to_nat (newStart h - 1) + length (newSide (take a (lines h))))
              (length (newSide (take n (drop a (lines h)))))) as (before & after & Hjoin).
  exists before, after. unfold L in *. by rewrite <- Hjoin, join_split.
Qed.

(** C3, as stated, fails on [generateFormattingHunks] of
    [comment-manager.ts]: on the split example its one suggestion is X, Y,
    the added lines without the line C between them, which is no
    contiguous part of the formatted text A, X, C, Y, E. *)
Lemma content_not_a_slice :
  matchesFormatted splitFormatted splitHunk /\
  Recreate.generateFormattingHunks (structuredPatch envSplit)
    splitOriginal splitFormatted "split.cs"
  = [mkFormattingHunk 2 ("X" +:+ nl +:+ "Y") (1, 5)] /\
  ~ exists before after,
      splitFormatted = before +:+ ("X" +:+ nl +:+ "Y") +:+ after.
Proof.
  split; [|split].
  - split; [vm_compute; discriminate | vm_compute; reflexivity].
  - vm_compute. reflexivity.
  - intros (before & after & Heq). apply includes_complete in Heq.
    vm_compute in Heq. discriminate.
Qed.

(** C3, amended. Whenever the hunks of the line diff carry the lines of
    the formatted text: in the sub-hunk revision the content of every
    [FormattingHunk] is the context and added lines of its
    context-padded window, joined by line feeds, deletions left out, and
    these are consecutive lines of the formatted text; in the revision of
    [comment-manager.ts] the content is the added lines of the diff hunk
    alone, joined by line feeds, and when the change lines of that hunk
    form a single run these are consecutive lines of the formatted text,
    from the anchor line on. *)
Theorem content_round_trip (structuredPatch : string -> string -> string -> list Hunk)
    (originalContent formattedContent filePath : string) :
  (forall h, h ∈ structuredPatch filePath originalContent formattedContent ->
             matchesFormatted formattedContent h) ->
  (forall fh,
     fh ∈ SubHunks.generateFormattingHunks structuredPatch
            originalContent formattedContent filePath ->
     exists h b,
       h ∈ structuredPatch filePath originalContent formattedContent /\
       b ∈ SubHunks.changeBlocks h /\
       fh = SubHunks.subHunk h b /\
       let window := windowLines h b in
       let firstLine :=
         (Z.to_nat (newStart h - 1)
          + length (newSide (take (Z.to_nat (SubHunks.windowStart b)) (lines h))))%nat in
       let slice :=
         take (length (newSide window)) (drop firstLine (split LF formattedContent)) in
       content fh = join nl (newSide window) /\
       content fh = join nl slice /\
       exists before after, formattedContent = before +:+ content fh +:+ after) /\
  (forall fh,
     fh ∈ Recreate.generateFormattingHunks structuredPatch
            originalContent formattedContent filePath ->
     exists h,
       h ∈ structuredPatch filePath originalContent formattedContent /\
       fh ∈ Recreate.hunkFormattingHunks h /\
       content fh = join nl (additions (lines h)) /\
       forall first last,
         isMaximalRun (lines h) first last ->
         (forall i, changeAt (lines h) i -> first <= i <= last) ->
         let slice :=
           take (length (additions (lines h)))
                (drop (Z.to_nat (lineNumber fh - 1)) (split LF formattedContent)) in
         additions (lines h) = slice /\
         content fh = join nl slice /\
         exists before after, formattedContent = before +:+ content fh +:+ after).
Proof.
  intros Hdiff. split.
  - by apply SubHunks_content_slice.
  - intros fh Hfh. unfold Recreate.generateFormattingHunks in Hfh.
    rewrite foldl_app_concat in Hfh. cbn [app] in Hfh.
    apply list_elem_of_In, in_concat in Hfh as (fhs & Hfhs & Hfh).
    apply list_elem_of_In in Hfh, Hfhs.
    apply list_elem_of_fmap in Hfhs as (h & -> & Hh).
    exists h. split; [done|]. split; [done|].
    by apply (Recreate_content_slice formattedContent h fh (Hdiff h Hh)).
Qed.

Lemma content_round_trip_witness :
  (exists h b,
     h ∈ multiDiff "multi.cs" multiOriginal multiFormatted /\
     b ∈ SubHunks.changeBlocks h /\
     mkFormattingHunk 9 (join nl ["5"; "6"; "7"; "c d"]) (6, 9) = SubHunks.subHunk h b /\
     exists before after,
       multiFormatted = before +:+ join nl ["5"; "6"; "7"; "c d"] +:+ after) /\
  (Recreate.generateFormattingHunks multiDiff multiOriginal multiFormatted "multi.cs"
   = [mkFormattingHunk 1 "a b" (1, 4); mkFormattingHunk 9 "c d" (6, 9)] /\
   "c d" = join nl (take 1 (drop 8 (split LF multiFormatted))) /\
   exists before after, multiFormatted = before +:+ "c d" +:+ after).
Proof.
  destruct (content_round_trip multiDiff multiOriginal multiFormatted "multi.cs")
    as [Hsub Hrec].
  { intros h Hh. vm_compute in Hh.
    apply elem_of_cons in Hh as [->|Hh]; [|apply list_elem_of_singleton in Hh as ->].
    - split; [vm_compute; discriminate | vm_compute; reflexivity].
    - split; [vm_compute; discriminate | vm_compute; reflexivity]. }
  split.
  - destruct (Hsub (mkFormattingHunk 9 (join nl ["5"; "6"; "7"; "c d"]) (6, 9)))
      as (h & b & Hh & Hb & Heq & _ & _ & Hpart); [vm_compute; right; left|].
    exists h, b. done.
  - split; [vm_compute; reflexivity|].
    destruct (Hrec (mkFormattingHunk 9 "c d" (6, 9)))
      as (h & Hh & Hfh & _ & Hrun); [vm_compute; right; left|].
    vm_compute in Hh.
    apply elem_of_cons in Hh as [->|Hh]; [|apply list_elem_of_singleton in Hh as ->].
    { vm_compute in Hfh. apply list_elem_of_singleton in Hfh. discriminate. }
    destruct (Hrun 3 4) as (_ & Hslice & Hpart).
    + split; [lia|]. split; [vm_compute; reflexivity|]. split; [|split].
      * intros i Hi. assert (i = 3 \/ i = 4) as [-> | ->] by lia;
          eexists; split; reflexivity.
      * intros l Hl. vm_compute in Hl. injection Hl as <-. reflexivity.
      * intros l Hl. vm_compute in Hl. discriminate.
    + intros i (l & Hl & Hc). pose proof (lineAt_Some _ _ _ Hl) as Hi.
      cbn [lines length] in Hi.
      assert (i = 0 \/ i = 1 \/ i = 2 \/ i = 3 \/ i = 4) as [-> | [-> | [-> | [-> | ->]]]]
        by lia; try lia;
        vm_compute in Hl; injection Hl as <-; vm_compute in Hc; discriminate.
    + split; [exact Hslice | exact Hpart].
Defined.

(** * Replies for fixed files *)

Lemma formatFiles_calls env files w w1 (o : Outcome (gmap string string)) :
  formatFiles env files w = (w1, o) -> calls w1 = calls w.
Proof.
  unfold formatFiles. destruct (_ =? _)%nat.
  - unfold ret. by intros [= <- _].
  - unfold bind. pose proof (buildInputParts_world env files [] w) as Hw.
    destruct (buildInputParts env files [] w) as [w0 [parts|e]]; simpl in Hw; subst w0.
    + unfold execPipeFiles.
      destruct (pipeFiles env (join "" parts)); unfold ret; by intros [= <- _].
    + by intros [= <- _].
Qed.

(** From the collected unformatted files on: when no reply is rejected,
    every unresolved annotation of a file that is not unformatted is sent
    one reply and no delete, whatever becomes of the other calls. *)
Lemma reconcile_replies env context filePaths existingComments
    (formattedMap : gmap string string) unformattedFiles w :
  pull_request context <> None ->
  NoDup (id <$> existingComments) ->
  identifyUnformatted env filePaths formattedMap [] w = (w, Returned unformattedFiles) ->
  snd (attempted (apiFailure env) (length (calls w))
         (replyTo <$> toResolve existingComments
            (List.filter (fun file => negb (bool_decide (file ∈ unformattedFiles)))
                         (path <$> existingComments)))) = None ->
  exists trace,
    calls (fst (reconcileRun Recreate.createViolationComments env context filePaths
                  existingComments formattedMap w)) = calls w ++ trace /\
    forall c, c ∈ existingComments -> isResolved c = false ->
              path c ∉ unformattedFiles ->
      List.filter (isReplyTo (id c)) trace
        = [CreateReplyForReviewComment (id c) RESOLVED_REPLY] /\
      List.filter (isDeleteOf (id c)) trace = [].
Proof.
  intros Hpr Hnd Hid Hreplies.
  set (Q := fun call => isCreate call = true \/
                        exists x, x ∈ existingComments /\ path x ∈ unformattedFiles /\
                                  call = DeleteReviewComment (id x)).
  set (R := replyTo <$>
              List.filter (fun c => negb (isResolved c)
                                    && negb (bool_decide (path c ∈ unformattedFiles)))
                          existingComments).
  assert (Htrace : exists T,
             calls (fst (reconcileRun Recreate.createViolationComments env context
                           filePaths existingComments formattedMap w))
             = calls w ++ R ++ T /\ Forall Q T).
  { unfold reconcileRun.
    destruct (pull_request context) as [pr|] eqn:Hctx; [|done].
    unfold tryCatch, bind at 1. rewrite Hid.
    set (fixedFiles := List.filter _ (path <$> existingComments)) in *.
    unfold bind at 1.
    assert (Hres : (if (0 <? length fixedFiles)%nat
                    then resolveFixedComments env context existingComments fixedFiles
                    else ret tt) w = (addCalls w R, Returned tt)).
    { pose proof (toResolve_fixedFiles existingComments unformattedFiles) as Hto.
      fold fixedFiles in Hto.
      destruct (0 <? length fixedFiles)%nat eqn:Hlen.
      - rewrite resolveFixedComments_calls by (by rewrite Hctx).
        destruct (attempted_prefix (apiFailure env) (length (calls w))
                    (replyTo <$> toResolve existingComments fixedFiles))
          as (_ & Hall & _).
        cbv zeta. rewrite Hreplies, (Hall Hreplies). simpl. by rewrite Hto.
      - apply Nat.ltb_ge in Hlen.
        destruct fixedFiles; [|simpl in Hlen; lia].
        unfold R. rewrite <- Hto, toResolve_nil. unfold ret. by rewrite addCalls_nil. }
    rewrite Hres.
    set (rest := bind (forEach unformattedFiles _) _).
    assert (Hrest : emits Q rest).
    { apply emits_bind.
      - apply emits_forEach. intros file Hfile.
        destruct (formattedMap !! file); [|apply emits_ret].
        eapply emits_mono; [|apply Recreate_pass_emits].
        intros call [Hcr|(x & Hx & _ & ->)]; [by left|].
        right. exists x.
        apply list_elem_of_In, filter_In in Hx as [Hx Hp].
        apply bool_decide_eq_true in Hp.
        split; [by apply list_elem_of_In|]. split; [by rewrite Hp | done].
      - intros _. destruct (0 <? length unformattedFiles)%nat;
          [apply emits_setFailed | apply emits_ret]. }
    destruct (Hrest (addCalls w R)) as (T & HT & HQ).
    exists T. split; [|done].
    destruct (rest (addCalls w R)) as [w2 [[]|e]]; simpl in *;
      by rewrite HT, <- app_assoc. }
  destruct Htrace as (T & Hcalls & HT).
  exists (R ++ T). split; [done|].
  intros c Hc Hunres Hfixed.
  rewrite !List.filter_app.
  assert (HTr : List.filter (isReplyTo (id c)) T = []).
  { clear -HT. induction HT as [|call T' Hcall _ IH]; [done|].
    simpl. destruct Hcall as [Hcr|(x & _ & _ & ->)]; [by destruct call | done]. }
  assert (HTd : List.filter (isDeleteOf (id c)) T = []).
  { clear -HT Hnd Hc Hfixed. induction HT as [|call T' Hcall _ IH]; [done|].
    simpl. destruct Hcall as [Hcr|(x & Hx & Hp & ->)]; [by destruct call|].
    simpl. destruct (Z.eqb_spec (id x) (id c)) as [Heq|_]; [|done].
    exfalso. apply Hfixed.
    by rewrite <- (NoDup_fmap_inj_on id existingComments x c Hnd Hx Hc Heq). }
  assert (HRd : List.filter (isDeleteOf (id c)) R = []).
  { unfold R. clear. induction (List.filter _ existingComments); simpl; done. }
  rewrite HTr, HTd, HRd, !app_nil_r. split; [|done].
  unfold R. apply filter_reply_unique.
  - by apply NoDup_fmap_filter.
  - apply list_elem_of_In, filter_In. split; [by apply list_elem_of_In|].
    rewrite Hunres. simpl. apply negb_true_iff. by apply bool_decide_eq_false.
Qed.

(** C8, as stated, fails when the pull request lists no changed C# file
    any more: [run] returns at once, and the unresolved annotations that
    [p.cs] and [multi.cs] carry from an earlier run get no reply. *)
Lemma no_changed_file_no_reply :
  changedPaths [mkListedFile "README.md" "3" "modified"] = [] /\
  getExistingComments envMixed prContext emptyWorld
  = (emptyWorld,
     Returned [mkViolationComment 7 "p.cs" annotationBody false 5;
               mkViolationComment 100 "multi.cs" outdatedBody false 1]) /\
  run Recreate.createViolationComments envMixed readmeAction prContext emptyWorld
  = (emptyWorld, Returned tt).
Proof. repeat split; vm_compute; reflexivity. Qed.

(** C8, amended. A run that lists no changed C# file ends before any
    reply. In a run that gets as far as the reconciliation (pull request
    event, inputs supplied with command check, tool installed, a changed C#
    file is listed, the comments are fetched, the formatter has run and
    the files are read) and in which no reply is rejected, every
    unresolved annotation of a file that is not unformatted is sent
    exactly one reply, addressed to its id, and no delete, whatever
    becomes of the deletes and creations for the unformatted files. *)
Theorem fix_convergence (env : Env) (action : Action) (context : Context)
    (pr : PullRequest) (token : string) (listed : list ListedFile)
    (fetched : list ReviewComment) (formattedMap : gmap string string)
    (unformattedFiles : list string) (w w1 : World) :
  pull_request context = Some pr ->
  commandInput action = Returned "check" ->
  tokenInput action = Returned token ->
  (forall args, exists code, dotnet action args = Returned code) ->
  pullsListFiles action = Returned listed ->
  listReviewComments env = Returned fetched ->
  let filePaths := changedPaths listed in
  let existingComments := actionComments fetched in
  let result := run Recreate.createViolationComments env action context w in
  (filePaths = [] -> result = (w, Returned tt)) /\
  (filePaths <> [] ->
   NoDup (id <$> existingComments) ->
   formatFiles env filePaths w = (w1, Returned formattedMap) ->
   identifyUnformatted env filePaths formattedMap [] w1
     = (w1, Returned unformattedFiles) ->
   snd (attempted (apiFailure env) (length (calls w))
          (replyTo <$> toResolve existingComments
             (List.filter (fun file => negb (bool_decide (file ∈ unformattedFiles)))
                          (path <$> existingComments)))) = None ->
   exists trace,
     calls (fst result) = calls w ++ trace /\
     forall c, c ∈ existingComments -> isResolved c = false ->
               path c ∉ unformattedFiles ->
       List.filter (isReplyTo (id c)) trace
         = [CreateReplyForReviewComment (id c) RESOLVED_REPLY] /\
       List.filter (isDeleteOf (id c)) trace = []).
Proof.
  intros Hpr Hcmd Htoken Hdotnet Hlist Hfetched filePaths existingComments result.
  destruct (run_front Recreate.createViolationComments env action context pr token
              listed w Hpr Hcmd Htoken Hdotnet Hlist) as [Hnone Hsome].
  fold filePaths in Hnone, Hsome. split; [exact Hnone|].
  intros Hne Hnd Hfmt Hid Hreplies.
  destruct (Hsome Hne) as [_ Hrun]. specialize (Hrun fetched Hfetched).
  fold existingComments in Hrun.
  assert (Hresult : result = reconcileRun Recreate.createViolationComments env context
                               filePaths existingComments formattedMap w1).
  { unfold result. rewrite Hrun.
    rewrite (tryCatch_bind_returned _ _ _ w w1 formattedMap Hfmt).
    unfold reconcileRun. rewrite Hpr. apply tryCatch_nested. }
  rewrite Hresult.
  pose proof (formatFiles_calls _ _ _ _ _ Hfmt) as Hcalls.
  rewrite <- Hcalls in *.
  apply (reconcile_replies env context filePaths existingComments formattedMap
           unformattedFiles w1); [by rewrite Hpr | done | done | done].
Qed.

Lemma fix_convergence_witness :
  let trace :=
    calls (fst (run Recreate.createViolationComments envMixedLaterCallsFail mixedAction
                  prContext emptyWorld)) in
  List.filter (isReplyTo 7) trace = [CreateReplyForReviewComment 7 RESOLVED_REPLY] /\
  List.filter (isDeleteOf 7) trace = [].
Proof.
  destruct (fix_convergence envMixedLaterCallsFail mixedAction prContext
              (mkPullRequest 6 "abc123") "token"
              [mkListedFile "p.cs" "1" "modified"; mkListedFile "multi.cs" "2" "added"]
              fetchedMixed
              (pairResults ["p.cs"; "multi.cs"] ["class P { }"; multiFormatted])
              ["multi.cs"] emptyWorld
              (addFormatterInput emptyWorld
                 (framed ["p.cs"; "class P { }"; "multi.cs"; multiOriginal])))
    as [_ Hrun].
  - reflexivity.
  - reflexivity.
  - reflexivity.
  - intros args. exists 0. reflexivity.
  - reflexivity.
  - reflexivity.
  - destruct Hrun as (trace & Htrace & Hall).
    + vm_compute. discriminate.
    + refine (bool_decide_unpack _ _). vm_compute. exact I.
    + vm_compute. reflexivity.
    + vm_compute. reflexivity.
    + vm_compute. reflexivity.
    + cbv zeta. rewrite Htrace. cbn [calls emptyWorld app].
      apply (Hall (mkViolationComment 7 "p.cs" annotationBody false 5)).
      * vm_compute. left.
      * reflexivity.
      * intros Hin. apply list_elem_of_singleton in Hin. discriminate.
Defined.

(** In that run the delete of annotation 100 and the first creation for
    [multi.cs] are rejected; the reply to annotation 7 has gone out
    before, and the run reports the violation. *)
Lemma run_with_rejected_calls :
  run Recreate.createViolationComments envMixedLaterCallsFail mixedAction prContext
    emptyWorld
  = (mkWorld
       [CreateReplyForReviewComment 7 RESOLVED_REPLY;
        DeleteReviewComment 100;
        createCall "abc123" "multi.cs" (1, Recreate.commentBody "a b" "multi.cs")]
       [WarnFailedToDelete 100 "HTTP 404"; WarnFailedToCreate "multi.cs" "HTTP 422"]
       [framed ["p.cs"; "class P { }"; "multi.cs"; multiOriginal]]
       [FoundViolations 1],
     Returned tt).
Proof. vm_compute. reflexivity. Qed.

(** * Rejected calls *)

(** X18. A delete-and-recreate pass that reaches its loops sends every
    unresolved annotation its delete, whatever is rejected, and logs each
    rejected delete as a warning of its own; it then sends the creations
    in order up to the first rejected one, logs that one as a warning for
    the file, skips the hunks after it and returns normally. Nothing
    sent is taken back. *)
Theorem Recreate_pass_rejected (env : Env) (context : Context)
    (filePath commitSha formattedContent prPatch : string)
    (hunks : list FormattingHunk) (existingComments : list ViolationComment)
    (w : World) :
  pull_request context <> None ->
  Recreate.passInput env filePath formattedContent = Some (prPatch, hunks) ->
  let unresolved := List.filter (fun c => negb (isResolved c)) existingComments in
  let w1 := addWarnings (addCalls w ((fun c => DeleteReviewComment (id c)) <$> unresolved))
                        (deleteWarnings (apiFailure env) (length (calls w)) unresolved) in
  let todo := createCall commitSha filePath <$> Recreate.desired env prPatch filePath hunks in
  let created := attempted (apiFailure env) (length (calls w1)) todo in
  Recreate.createViolationComments env context filePath commitSha formattedContent
    existingComments w
  = (match snd created with
     | Some e => addWarnings (addCalls w1 (fst created)) [WarnFailedToCreate filePath e]
     | None => addCalls w1 (fst created)
     end, Returned tt) /\
  fst created `prefix_of` todo /\
  (snd created = None -> fst created = todo) /\
  (forall e, snd created = Some e ->
     exists c, last (fst created) = Some c /\
               apiFailure env (length (calls w1) + length (fst created) - 1)%nat = Some e).
Proof.
  intros Hpr Hin. cbv zeta. split; [by apply Recreate_pass_main|].
  apply attempted_prefix.
Qed.

Lemma Recreate_pass_rejected_witness :
  Recreate.createViolationComments envMultiCallsFail prContext "multi.cs" "abc123"
    multiFormatted [multiAtLine1; multiAtLine5; multiResolvedAtLine9] emptyWorld
  = (mkWorld
       [DeleteReviewComment 100; DeleteReviewComment 101;
        createCall "abc123" "multi.cs" (1, Recreate.commentBody "a b" "multi.cs")]
       [WarnFailedToDelete 101 "HTTP 404"; WarnFailedToCreate "multi.cs" "HTTP 422"]
       [] [],
     Returned tt).
Proof.
  destruct (Recreate_pass_rejected envMultiCallsFail prContext "multi.cs" "abc123"
              multiFormatted multiPatch
              (Recreate.generateFormattingHunks (structuredPatch envMultiCallsFail)
                 multiOriginal multiFormatted "multi.cs")
              [multiAtLine1; multiAtLine5; multiResolvedAtLine9] emptyWorld)
    as [Hrun _].
  - discriminate.
  - vm_compute. reflexivity.
  - rewrite Hrun. vm_compute. reflexivity.
Defined.

(** C9 fails for the replies. With [p.cs] fixed and [multi.cs]
    unformatted, the rejected reply to annotation 7 is not logged as a
    warning: it ends the run, which reports the error, and [multi.cs] is
    not reconciled. With nothing rejected the same run replies, replaces
    the annotation of [multi.cs] and creates its second one. Deletes, in
    the loop next to it, are caught one by one. *)
Lemma rejected_reply_aborts_run :
  run Recreate.createViolationComments envMixedFirstCallFails mixedAction prContext
    emptyWorld
  = (mkWorld [CreateReplyForReviewComment 7 RESOLVED_REPLY] []
       [framed ["p.cs"; "class P { }"; "multi.cs"; multiOriginal]]
       [RunError "HTTP 500"],
     Returned tt) /\
  run Recreate.createViolationComments envMixed mixedAction prContext emptyWorld
  = (mkWorld
       [CreateReplyForReviewComment 7 RESOLVED_REPLY;
        DeleteReviewComment 100;
        createCall "abc123" "multi.cs" (1, Recreate.commentBody "a b" "multi.cs");
        createCall "abc123" "multi.cs" (9, Recreate.commentBody "c d" "multi.cs")]
       []
       [framed ["p.cs"; "class P { }"; "multi.cs"; multiOriginal]]
       [FoundViolations 1],
     Returned tt) /\
  resolveFixedComments envMixedFirstCallFails prContext
    [annotationAtLine5; annotationOnQ] ["p.cs"; "q.cs"] emptyWorld
  = (mkWorld [CreateReplyForReviewComment 7 RESOLVED_REPLY] [] [] [], Thrown "HTTP 500").
Proof. repeat split; vm_compute; reflexivity. Qed.
